(** * V3QuoteProvider: batched on-chain quotes with retries

    A shallow embedding of [src/providers/v3/quote-provider.ts].

    The provider flattens (routes x amounts) into a vector of encoded inputs,
    cuts it into multicall batches, runs the batches of one attempt, validates
    them and either returns the assembled quotes or throws so that
    [async-retry] starts another attempt.

    - JavaScript numbers that hold array lengths are naturals, with the two
      non-finite values a division of lengths can produce written out.  The
      success rate is the binary64 quotient of two lengths, computed with
      the standard library's [SpecFloat].
    - [BigNumber] values are [Z], and [toNumber] throws on a value that is
      not a safe integer; strings are [string], one character standing for
      one UTF-16 code unit.
    - A function that can throw returns [JsError + A]; the loop of
      [async-retry] records the throws of its attempts and rejects with
      their main error.
    - The multicall aggregator and the provider's block-number query are
      collaborators: they are functions of the call's sequence number, so any
      behaviour of the outside world along one execution can be supplied.
    - Logging has no effect on the result and is left out; [metric.putMetric]
      is kept as a list of the metric names emitted, in order.

    The constructor and the two heuristic gas models
    ([V3HeuristicGasModelFactory] and [V2HeuristicGasModelFactory]) are
    embedded next to the provider; the SDK's tokens, prices and amounts and
    the pool providers are their collaborators. *)

From Stdlib Require Import String Ascii ZArith NArith QArith Lia Bool Arith.
From Stdlib Require Import DecimalString HexString.
From Stdlib Require SpecFloat.
From Stdlib Require Import List.
Import ListNotations.

Local Open Scope string_scope.
Local Open Scope nat_scope.

(** ** JavaScript and lodash helpers used by the provider *)

Module Js.

(** A number obtained from array lengths by [/] and [Math.ceil]. *)
Inductive num : Type :=
| Fin (n : nat)
| PosInf
| NaN.

(** [Math.ceil(a / b)] for an array length [a]:
    [a / NaN] is [NaN], [a / Infinity] is [0], [0 / 0] is [NaN],
    [a / 0] is [Infinity] for [a > 0].  Array lengths are far below 2^53,
    where the rounded quotient of two integers has the same ceiling as the
    exact one. *)
Definition ceil_div (a : nat) (b : num) : num :=
  match b with
  | NaN => NaN
  | PosInf => Fin 0
  | Fin 0 => match a with 0 => NaN | S _ => PosInf end
  | Fin (S b') => Fin ((a + b') / S b')
  end.

(** The loop of lodash's [chunk]: [count] slices of [size] elements. *)
Fixpoint slices {A : Type} (count size : nat) (l : list A) : list (list A) :=
  match count with
  | 0 => []
  | S c => firstn size l :: slices c size (skipn size l)
  end.

(** [_.chunk(array, size)].  lodash first takes [toInteger(size)]
    ([NaN] becomes [0], [Infinity] the largest finite number), returns [[]]
    for an empty array or a size below one, and otherwise fills
    [Math.ceil(length / size)] slots with consecutive slices. *)
Definition chunk {A : Type} (array : list A) (size : num) : list (list A) :=
  match size with
  | NaN => []
  | PosInf => match array with [] => [] | _ :: _ => [array] end
  | Fin size =>
      if (length array =? 0) || (size <? 1) then []
      else slices ((length array + (size - 1)) / size) size array
  end.

(** [_.uniq] on numbers: the first occurrence of every value, in order. *)
Fixpoint uniq_from (seen : list Z) (l : list Z) : list Z :=
  match l with
  | [] => []
  | x :: rest =>
      if existsb (Z.eqb x) seen then uniq_from seen rest
      else x :: uniq_from (x :: seen) rest
  end.

Definition uniq (l : list Z) : list Z := uniq_from [] l.

(** [_.map] with the element's index as second argument. *)
Fixpoint mapi_from {A B : Type} (i : nat) (f : A -> nat -> B) (l : list A)
  : list B :=
  match l with
  | [] => []
  | x :: rest => f x i :: mapi_from (S i) f rest
  end.

Definition mapi {A B : Type} (f : A -> nat -> B) (l : list A) : list B :=
  mapi_from 0 f l.

(** [s.includes(sub)]. *)
Definition includes (s sub : string) : bool :=
  match String.index 0 sub s with
  | Some _ => true
  | None => false
  end.

(** [s.slice(0, n)]. *)
Definition slice0 (n : nat) (s : string) : string := String.substring 0 n s.

(** Numbers inside template literals. *)
Definition show_nat (n : nat) : string :=
  NilZero.string_of_uint (Nat.to_uint n).

Definition show_Z (z : Z) : string :=
  NilZero.string_of_int (Z.to_int z).

(** [array.join(sep)]. *)
Definition join (sep : string) (l : list string) : string :=
  String.concat sep l.

(** Numbers are IEEE 754 binary64 values.  [double n] is the number of an
    array length, which is exact, and [divide] is [/]: the quotient rounded
    to the nearest number, ties to even, as the standard library's
    specification of the format computes it. *)
Definition double (n : nat) : SpecFloat.spec_float :=
  SpecFloat.binary_normalize 53 1024 (Z.of_nat n) 0 false.

Definition divide (a b : SpecFloat.spec_float) : SpecFloat.spec_float :=
  SpecFloat.SFdiv 53 1024 a b.

(** The rational that a finite number [m * 2^e] is. *)
Definition exact (m : positive) (e : Z) : Q :=
  match e with
  | Z0 => inject_Z (Zpos m)
  | Zpos p => inject_Z (Zpos m * 2 ^ Zpos p)
  | Zneg p => Zpos m # (2 ^ p)
  end.

(** The number written [0.2]: the double nearest to 1/5, which is
    7205759403792794 / 2^55. *)
Definition oneFifth : Q := 7205759403792794 # 36028797018963968.

End Js.

(** ** Data model *)

(** The error classes the provider tells apart with [instanceof].
    [PlainError] is [new Error(...)], [TypeError] the engine's own error for
    reading a property of [undefined]. *)
Inductive ErrorClass : Type :=
| BlockConflictError
| SuccessRateError
| ProviderBlockHeaderError
| ProviderTimeoutError
| ProviderGasError
| PlainError
| TypeError.

Definition ErrorClass_eqb (a b : ErrorClass) : bool :=
  match a, b with
  | BlockConflictError, BlockConflictError
  | SuccessRateError, SuccessRateError
  | ProviderBlockHeaderError, ProviderBlockHeaderError
  | ProviderTimeoutError, ProviderTimeoutError
  | ProviderGasError, ProviderGasError
  | PlainError, PlainError
  | TypeError, TypeError => true
  | _, _ => false
  end.

(** The [name] property of each class. *)
Definition className (c : ErrorClass) : string :=
  match c with
  | BlockConflictError => "BlockConflictError"
  | SuccessRateError => "SuccessRateError"
  | ProviderBlockHeaderError => "ProviderBlockHeaderError"
  | ProviderTimeoutError => "ProviderTimeoutError"
  | ProviderGasError => "ProviderGasError"
  | PlainError => "Error"
  | TypeError => "TypeError"
  end.

Record JsError : Type := mkError {
  class : ErrorClass;
  message : string
}.

(** A computation that returns a value or throws. *)
Definition bind {A B : Type} (c : JsError + A) (k : A -> JsError + B)
  : JsError + B :=
  match c with
  | inl e => inl e
  | inr a => k a
  end.

(** A callback that may throw, mapped over an array with the element's index
    as second argument: the first throw ends the traversal. *)
Fixpoint mapiM_from {A B : Type} (i : nat) (f : A -> nat -> JsError + B)
  (l : list A) : JsError + list B :=
  match l with
  | [] => inr []
  | x :: rest =>
      bind (f x i)
        (fun y => bind (mapiM_from (S i) f rest) (fun ys => inr (y :: ys)))
  end.

Definition mapiM {A B : Type} (f : A -> nat -> JsError + B) (l : list A)
  : JsError + list B :=
  mapiM_from 0 f l.

(** Modelled from the spec: [Result] is declared in [../multicall-provider],
    which is not among the sources.  It is the per-input reply with
    [success] and, on success, the tuple [result] of output amount, prices
    after the swap, ticks crossed and gas estimate; the provider reads
    nothing else of it. *)
Definition QuoteTuple : Type := (Z * list Z * list Z * Z)%type.

Inductive Result : Type :=
| ResultOk (result : QuoteTuple)
| ResultFail (returnData : string).

Definition success (r : Result) : bool :=
  match r with
  | ResultOk _ => true
  | ResultFail _ => false
  end.

(** What one multicall returns. *)
Record MulticallResults : Type := mkResults {
  blockNumber : Z;
  results : list Result;
  approxGasUsedPerSuccessCall : Z
}.

(** The [[string, string][]] of encoded paths and hexadecimal amounts. *)
Abbreviation Inputs := (list (string * string)) (only parsing).

(** [QuoteBatchState]: the tagged union over the [status] field. *)
Inductive QuoteBatchState : Type :=
| Success (inputs : Inputs) (res : MulticallResults)
| Failed (inputs : Inputs) (reason : JsError) (res : option MulticallResults)
| Pending (inputs : Inputs).

Definition inputsOf (q : QuoteBatchState) : Inputs :=
  match q with
  | Success i _ => i
  | Failed i _ _ => i
  | Pending i => i
  end.

Definition isPending (q : QuoteBatchState) : bool :=
  match q with
  | Pending _ => true
  | _ => false
  end.

Definition isSuccess (q : QuoteBatchState) : bool :=
  match q with
  | Success _ _ => true
  | _ => false
  end.

(** Modelled from the spec: [ProviderConfig] is declared in [../provider],
    which is not among the sources.  It carries the optional block number
    pinned by the caller; the provider awaits the field and assigns numbers
    to it, so it holds a number or a promise of one.  A promise is always
    truthy, a number is truthy unless it is zero. *)
Inductive BlockTag : Type :=
| BlockNum (n : Z)
| BlockPromise (n : Z).

Definition await (b : BlockTag) : Z :=
  match b with
  | BlockNum n => n
  | BlockPromise n => n
  end.

Definition truthy (b : BlockTag) : bool :=
  match b with
  | BlockNum n => negb (n =? 0)%Z
  | BlockPromise _ => true
  end.

(** The caller's optional [ProviderConfig]; only [blockNumber] is read. *)
Record ProviderConfig : Type := mkProviderConfig {
  cfg_blockNumber : option BlockTag
}.

Inductive FunctionName : Type :=
| quoteExactInput
| quoteExactOutput.

Definition isExactOutput (f : FunctionName) : bool :=
  match f with
  | quoteExactOutput => true
  | quoteExactInput => false
  end.

(** The argument of [callSameFunctionOnContractWithMultipleParams]. *)
Record MulticallParams : Type := mkParams {
  address : string;
  functionName : FunctionName;
  functionParams : Inputs;
  providerConfig : BlockTag;
  gasLimitPerCallOverride : Z
}.

(** The aggregator either returns or throws an error with a message. *)
Inductive MulticallOutcome : Type :=
| Returns (r : MulticallResults)
| Throws (err_message : string).

Record BatchParams : Type := mkBatchParams {
  bp_multicallChunk : nat;
  gasLimitPerCall : Z;
  quoteMinSuccessRate : Q
}.

Record SuccessRateFailureOverrides : Type := mkOverrides {
  ov_multicallChunk : nat;
  ov_gasLimitOverride : Z
}.

(** The fields of a [V3QuoteProvider] instance.  [getBlockNumber k] is
    the provider's answer when asked before the first attempt ([k = 0]) or
    during attempt [k]; [multicall k] answers the [k]-th aggregator call of
    the invocation.  [retries] is [retryOptions.retries]. *)
Record V3QuoteProvider : Type := mkProvider {
  getBlockNumber : nat -> Z;
  multicall : nat -> MulticallParams -> MulticallOutcome;
  retries : nat;
  batchParams : BatchParams;
  successRateFailureOverrides : SuccessRateFailureOverrides;
  rollback : bool;
  quoterAddress : string
}.

(** The names given to [metric.putMetric]. *)
Inductive Metric : Type :=
| QuoteBlockConflictErrorRetry
| QuoteBlockHeaderNotFoundRetry
| QuoteTimeoutRetry
| QuoteOutOfGasExceptionRetry
| QuoteSuccessRateRetry
| QuoteUnknownReasonRetry
| QuoteApproxGasUsedPerSuccessfulCall
| QuoteNumRetryLoops
| QuoteTotalCallsToProvider
| QuoteExpectedCallsToProvider
| QuoteNumRetriedCalls.

(** The [let] variables of [getQuotesManyData] that the attempt closure
    reads and writes, with the metrics emitted so far.  [pinnedBlock] is
    [providerConfig.blockNumber]. *)
Record LoopState : Type := mkState {
  quoteStates : list QuoteBatchState;
  multicallChunk : nat;
  gasLimitOverride : Z;
  pinnedBlock : BlockTag;
  haveRetriedForSuccessRate : bool;
  haveRetriedForBlockHeader : bool;
  blockHeaderRetryAttemptNumber : option nat;
  blockHeaderRolledBack : bool;
  haveRetriedForBlockConflictError : bool;
  haveRetriedForOutOfGas : bool;
  haveRetriedForTimeout : bool;
  haveRetriedForUnknownReason : bool;
  finalAttemptNumber : nat;
  totalCallsMade : nat;
  metrics : list Metric
}.

Definition set_quoteStates (v : list QuoteBatchState) (s : LoopState) :=
  mkState v (multicallChunk s) (gasLimitOverride s) (pinnedBlock s)
    (haveRetriedForSuccessRate s) (haveRetriedForBlockHeader s)
    (blockHeaderRetryAttemptNumber s) (blockHeaderRolledBack s)
    (haveRetriedForBlockConflictError s) (haveRetriedForOutOfGas s)
    (haveRetriedForTimeout s) (haveRetriedForUnknownReason s)
    (finalAttemptNumber s) (totalCallsMade s) (metrics s).

Definition set_multicallChunk (v : nat) (s : LoopState) :=
  mkState (quoteStates s) v (gasLimitOverride s) (pinnedBlock s)
    (haveRetriedForSuccessRate s) (haveRetriedForBlockHeader s)
    (blockHeaderRetryAttemptNumber s) (blockHeaderRolledBack s)
    (haveRetriedForBlockConflictError s) (haveRetriedForOutOfGas s)
    (haveRetriedForTimeout s) (haveRetriedForUnknownReason s)
    (finalAttemptNumber s) (totalCallsMade s) (metrics s).

Definition set_gasLimitOverride (v : Z) (s : LoopState) :=
  mkState (quoteStates s) (multicallChunk s) v (pinnedBlock s)
    (haveRetriedForSuccessRate s) (haveRetriedForBlockHeader s)
    (blockHeaderRetryAttemptNumber s) (blockHeaderRolledBack s)
    (haveRetriedForBlockConflictError s) (haveRetriedForOutOfGas s)
    (haveRetriedForTimeout s) (haveRetriedForUnknownReason s)
    (finalAttemptNumber s) (totalCallsMade s) (metrics s).

Definition set_pinnedBlock (v : BlockTag) (s : LoopState) :=
  mkState (quoteStates s) (multicallChunk s) (gasLimitOverride s) v
    (haveRetriedForSuccessRate s) (haveRetriedForBlockHeader s)
    (blockHeaderRetryAttemptNumber s) (blockHeaderRolledBack s)
    (haveRetriedForBlockConflictError s) (haveRetriedForOutOfGas s)
    (haveRetriedForTimeout s) (haveRetriedForUnknownReason s)
    (finalAttemptNumber s) (totalCallsMade s) (metrics s).

Definition set_haveRetriedForSuccessRate (v : bool) (s : LoopState) :=
  mkState (quoteStates s) (multicallChunk s) (gasLimitOverride s)
    (pinnedBlock s) v (haveRetriedForBlockHeader s)
    (blockHeaderRetryAttemptNumber s) (blockHeaderRolledBack s)
    (haveRetriedForBlockConflictError s) (haveRetriedForOutOfGas s)
    (haveRetriedForTimeout s) (haveRetriedForUnknownReason s)
    (finalAttemptNumber s) (totalCallsMade s) (metrics s).

Definition set_haveRetriedForBlockHeader (v : bool) (s : LoopState) :=
  mkState (quoteStates s) (multicallChunk s) (gasLimitOverride s)
    (pinnedBlock s) (haveRetriedForSuccessRate s) v
    (blockHeaderRetryAttemptNumber s) (blockHeaderRolledBack s)
    (haveRetriedForBlockConflictError s) (haveRetriedForOutOfGas s)
    (haveRetriedForTimeout s) (haveRetriedForUnknownReason s)
    (finalAttemptNumber s) (totalCallsMade s) (metrics s).

Definition set_blockHeaderRetryAttemptNumber (v : option nat) (s : LoopState) :=
  mkState (quoteStates s) (multicallChunk s) (gasLimitOverride s)
    (pinnedBlock s) (haveRetriedForSuccessRate s)
    (haveRetriedForBlockHeader s) v (blockHeaderRolledBack s)
    (haveRetriedForBlockConflictError s) (haveRetriedForOutOfGas s)
    (haveRetriedForTimeout s) (haveRetriedForUnknownReason s)
    (finalAttemptNumber s) (totalCallsMade s) (metrics s).

Definition set_blockHeaderRolledBack (v : bool) (s : LoopState) :=
  mkState (quoteStates s) (multicallChunk s) (gasLimitOverride s)
    (pinnedBlock s) (haveRetriedForSuccessRate s)
    (haveRetriedForBlockHeader s) (blockHeaderRetryAttemptNumber s) v
    (haveRetriedForBlockConflictError s) (haveRetriedForOutOfGas s)
    (haveRetriedForTimeout s) (haveRetriedForUnknownReason s)
    (finalAttemptNumber s) (totalCallsMade s) (metrics s).

Definition set_haveRetriedForBlockConflictError (v : bool) (s : LoopState) :=
  mkState (quoteStates s) (multicallChunk s) (gasLimitOverride s)
    (pinnedBlock s) (haveRetriedForSuccessRate s)
    (haveRetriedForBlockHeader s) (blockHeaderRetryAttemptNumber s)
    (blockHeaderRolledBack s) v (haveRetriedForOutOfGas s)
    (haveRetriedForTimeout s) (haveRetriedForUnknownReason s)
    (finalAttemptNumber s) (totalCallsMade s) (metrics s).

Definition set_haveRetriedForOutOfGas (v : bool) (s : LoopState) :=
  mkState (quoteStates s) (multicallChunk s) (gasLimitOverride s)
    (pinnedBlock s) (haveRetriedForSuccessRate s)
    (haveRetriedForBlockHeader s) (blockHeaderRetryAttemptNumber s)
    (blockHeaderRolledBack s) (haveRetriedForBlockConflictError s) v
    (haveRetriedForTimeout s) (haveRetriedForUnknownReason s)
    (finalAttemptNumber s) (totalCallsMade s) (metrics s).

Definition set_haveRetriedForTimeout (v : bool) (s : LoopState) :=
  mkState (quoteStates s) (multicallChunk s) (gasLimitOverride s)
    (pinnedBlock s) (haveRetriedForSuccessRate s)
    (haveRetriedForBlockHeader s) (blockHeaderRetryAttemptNumber s)
    (blockHeaderRolledBack s) (haveRetriedForBlockConflictError s)
    (haveRetriedForOutOfGas s) v (haveRetriedForUnknownReason s)
    (finalAttemptNumber s) (totalCallsMade s) (metrics s).

Definition set_haveRetriedForUnknownReason (v : bool) (s : LoopState) :=
  mkState (quoteStates s) (multicallChunk s) (gasLimitOverride s)
    (pinnedBlock s) (haveRetriedForSuccessRate s)
    (haveRetriedForBlockHeader s) (blockHeaderRetryAttemptNumber s)
    (blockHeaderRolledBack s) (haveRetriedForBlockConflictError s)
    (haveRetriedForOutOfGas s) (haveRetriedForTimeout s) v
    (finalAttemptNumber s) (totalCallsMade s) (metrics s).

Definition set_finalAttemptNumber (v : nat) (s : LoopState) :=
  mkState (quoteStates s) (multicallChunk s) (gasLimitOverride s)
    (pinnedBlock s) (haveRetriedForSuccessRate s)
    (haveRetriedForBlockHeader s) (blockHeaderRetryAttemptNumber s)
    (blockHeaderRolledBack s) (haveRetriedForBlockConflictError s)
    (haveRetriedForOutOfGas s) (haveRetriedForTimeout s)
    (haveRetriedForUnknownReason s) v (totalCallsMade s) (metrics s).

Definition set_totalCallsMade (v : nat) (s : LoopState) :=
  mkState (quoteStates s) (multicallChunk s) (gasLimitOverride s)
    (pinnedBlock s) (haveRetriedForSuccessRate s)
    (haveRetriedForBlockHeader s) (blockHeaderRetryAttemptNumber s)
    (blockHeaderRolledBack s) (haveRetriedForBlockConflictError s)
    (haveRetriedForOutOfGas s) (haveRetriedForTimeout s)
    (haveRetriedForUnknownReason s) (finalAttemptNumber s) v (metrics s).

(** [metric.putMetric(name, ...)]. *)
Definition putMetric (m : Metric) (s : LoopState) :=
  mkState (quoteStates s) (multicallChunk s) (gasLimitOverride s)
    (pinnedBlock s) (haveRetriedForSuccessRate s)
    (haveRetriedForBlockHeader s) (blockHeaderRetryAttemptNumber s)
    (blockHeaderRolledBack s) (haveRetriedForBlockConflictError s)
    (haveRetriedForOutOfGas s) (haveRetriedForTimeout s)
    (haveRetriedForUnknownReason s) (finalAttemptNumber s)
    (totalCallsMade s) (metrics s ++ [m]).

(** What the function handed to [retry] does: it returns the flat results and
    their block number, or throws.  The third component of the returned
    object, [approxGasUsedPerSuccessCall], only becomes the value of a
    metric and is left out. *)
Inductive AttemptOutcome : Type :=
| Resolve (quoteResults : list Result) (block : Z)
| Throw (e : JsError).

(** The value of [successRate]: [NaN], [Infinity] or a finite number, which
    is written as the rational it is.  [quoteMinSuccessRate] likewise holds
    the rational that the configured number is. *)
Inductive Rate : Type :=
| RateNaN
| RateInf
| RateOf (q : Q).

(** [(1.0 * numSuccessResults) / numResults]: the quotient of the two
    lengths as double-precision division rounds it.  Lengths are not
    negative, so neither is the quotient. *)
Definition successRateOf (numSuccessResults numResults : nat) : Rate :=
  match Js.divide (Js.double numSuccessResults) (Js.double numResults) with
  | SpecFloat.S754_nan => RateNaN
  | SpecFloat.S754_infinity _ => RateInf
  | SpecFloat.S754_zero _ => RateOf 0
  | SpecFloat.S754_finite _ m e => RateOf (Js.exact m e)
  end.

Arguments successRateOf : simpl never.

(** [successRate < quoteMinSuccessRate] on two numbers, compared through
    their values: false on [NaN] and on [Infinity]. *)
Definition rate_lt (r : Rate) (floor : Q) : bool :=
  match r with
  | RateOf q => negb (Qle_bool floor q)
  | RateInf => false
  | RateNaN => false
  end.

(** [partitionQuotes]: three filters on [status]; the type guards narrow the
    elements to the payload of their arm. *)
Definition successesOf (l : list QuoteBatchState)
  : list (Inputs * MulticallResults) :=
  flat_map (fun q => match q with Success i r => [(i, r)] | _ => [] end) l.

Definition failuresOf (l : list QuoteBatchState)
  : list (Inputs * JsError * option MulticallResults) :=
  flat_map (fun q => match q with Failed i e r => [(i, e, r)] | _ => [] end) l.

Definition pendingsOf (l : list QuoteBatchState) : list Inputs :=
  flat_map (fun q => match q with Pending i => [i] | _ => [] end) l.

Definition partitionQuotes (l : list QuoteBatchState) :=
  (successesOf l, failuresOf l, pendingsOf l).

(** The planner's chunking:
    [_.chunk(inputs, Math.ceil(inputs.length / Math.ceil(inputs.length / multicallChunk)))]. *)
Definition normalizedChunk (n chunkSize : nat) : Js.num :=
  Js.ceil_div n (Js.ceil_div n (Js.Fin chunkSize)).

Definition inputsChunked (inputs : Inputs) (chunkSize : nat)
  : list Inputs :=
  Js.chunk inputs (normalizedChunk (length inputs) chunkSize).

Definition pendingStates (inputs : Inputs) (chunkSize : nat)
  : list QuoteBatchState :=
  map Pending (inputsChunked inputs chunkSize).

(** The rounded-up quotient [a / b] of the planner's rule, for [b > 0]. *)
Definition ceil (a b : nat) : nat := (a + (b - 1)) / b.



(** ** Construction *)

Section Construction.

(** [ChainId], its members [MAINNET] and [RINKEBY] and the address constant
    [QUOTER_V2_ADDRESS] are declared in [../../util], which is not among the
    sources: they are taken as they come. *)
Variable ChainId : Type.
Variable ChainId_eqb : ChainId -> ChainId -> bool.
Variable showChainId : ChainId -> string.
Variable MAINNET RINKEBY : ChainId.
Variable QUOTER_V2_ADDRESS : string.

(** The table [chainToQuoterAddress]: in an object literal the later of two
    equal keys wins. *)
Definition chainToQuoterAddress (chainId : ChainId) : option string :=
  if ChainId_eqb chainId RINKEBY then
    Some "0xbec7965F684FFdb309b9189BDc10C31337C37CBf"
  else if ChainId_eqb chainId MAINNET then Some QUOTER_V2_ADDRESS
  else None.

(** A string or [undefined] used as a condition. *)
Definition truthyAddress (a : option string) : bool :=
  match a with
  | Some "" => false
  | Some _ => true
  | None => false
  end.

(** The constructor; an omitted argument is [None] and takes its default. *)
Definition newV3QuoteProvider (chainId : ChainId)
  (provider : nat -> Z)
  (multicall2Provider : nat -> MulticallParams -> MulticallOutcome)
  (retryOptions : option nat) (params : option BatchParams)
  (overrides : option SuccessRateFailureOverrides)
  (rollbackArg : option bool) (quoterAddressOverride : option string)
  : JsError + V3QuoteProvider :=
  let quoterAddress :=
    if truthyAddress quoterAddressOverride then quoterAddressOverride
    else chainToQuoterAddress chainId in
  match quoterAddress with
  | Some a =>
      if truthyAddress (Some a) then
        inr (mkProvider provider multicall2Provider
               (match retryOptions with Some r => r | None => 2 end)
               (match params with
                | Some p => p
                | None => mkBatchParams 150 1000000 Js.oneFifth
                end)
               (match overrides with
                | Some o => o
                | None => mkOverrides 110 1300000
                end)
               (match rollbackArg with Some b => b | None => false end)
               a)
      else
        inl (mkError PlainError
               ("No address for Uniswap QuoterV2 Contract on chain id: "
                ++ showChainId chainId))
  | None =>
      inl (mkError PlainError
             ("No address for Uniswap QuoterV2 Contract on chain id: "
              ++ showChainId chainId))
  end.

End Construction.

(** ** Heuristic gas models *)

(** The fee tiers of the V3 SDK. *)
Inductive FeeAmount : Type :=
| HIGH
| MEDIUM
| LOW
| LOWEST.

(** The loop of lodash's [maxBy] once its first element is taken: a later
    element replaces the best one when its key compares greater.  The
    comparison is JavaScript's [>], which converts operands that are objects
    and throws when the conversion does. *)
Fixpoint extremum {A K : Type} (gt : K -> K -> JsError + bool) (key : A -> K)
  (best : A) (l : list A) : JsError + A :=
  match l with
  | [] => inr best
  | x :: rest =>
      bind (gt (key x) (key best))
        (fun greater => extremum gt key (if greater then x else best) rest)
  end.

(** [_.maxBy(array, key)] for keys that are neither [null] nor [NaN]:
    [undefined] for the empty array, and no comparison for an array of one
    element. *)
Definition maxBy {A K : Type} (gt : K -> K -> JsError + bool) (key : A -> K)
  (l : list A) : JsError + option A :=
  match l with
  | [] => inr None
  | x :: rest => bind (extremum gt key x rest) (fun best => inr (Some best))
  end.

(** [_.compact] after a lookup: the pools that are there. *)
Definition found {A : Type} (o : option A) : list A :=
  match o with
  | Some a => [a]
  | None => []
  end.

(** *** [V3HeuristicGasModelFactory] *)

Module V3Gas.

Section Model.

(** Tokens, prices and amounts belong to the SDK.  [equals] is
    [Token.equals]; [fromRawAmount] is [CurrencyAmount.fromRawAmount], which
    throws on an amount out of range; [quote] is [Price.quote], which throws
    when the amount is not in the price's base currency; [gt] is JavaScript's
    [>] on two [liquidity] values, as [_.maxBy] applies it: the values are
    big-integer objects, which [>] converts before it compares them. *)
Variable Token : Type.
Variable equals : Token -> Token -> bool.
Variable tokenAddress : Token -> string.
Variable Price : Type.
Variable CurrencyAmount : Type.
Variable fromRawAmount : Token -> Z -> JsError + CurrencyAmount.
Variable quote : Price -> CurrencyAmount -> JsError + CurrencyAmount.
Variable Liquidity : Type.
Variable gt : Liquidity -> Liquidity -> JsError + bool.

(** What the factory reads of a [Pool]. *)
Record Pool : Type := mkPool {
  token0 : Token;
  token1 : Token;
  liquidity : Liquidity;
  token0Price : Price;
  token1Price : Price
}.

(** What the factory reads of a [V3RouteWithValidQuote]; [pools] is
    [route.pools]. *)
Record V3RouteWithValidQuote : Type := mkRoute {
  initializedTicksCrossedList : list Z;
  pools : list Pool
}.

(** [WETH9[chainId]!], [usdGasTokensByChain[chainId]] and the chain id as it
    is printed. *)
Variable weth : Token.
Variable usdTokens : option (list Token).
Variable chainIdText : string.

(** [poolProvider.getPools] resolves to an accessor or rejects. *)
Definition PoolAccessor : Type := Token -> Token -> FeeAmount -> option Pool.
Variable getPools :
  list (Token * Token * FeeAmount) -> JsError + PoolAccessor.

Definition BASE_SWAP_COST : Z := 2000.
Definition COST_PER_INIT_TICK : Z := 31000.
Definition COST_PER_UNINIT_TICK : Z := 0.
Definition COST_PER_HOP : Z := 80000.

(** [_.sum]. *)
Definition sum (l : list Z) : Z := fold_left Z.add l 0%Z.

(** The gas used by a route: [gasUse] of [estimateGas]. *)
Definition gasUseOf (routeWithValidQuote : V3RouteWithValidQuote) : Z :=
  let totalInitializedTicksCrossed :=
    Z.max 1 (sum (initializedTicksCrossedList routeWithValidQuote)) in
  let totalHops := Z.of_nat (length (pools routeWithValidQuote)) in
  let hopsGasUse := (COST_PER_HOP * totalHops)%Z in
  let tickGasUse := (COST_PER_INIT_TICK * totalInitializedTicksCrossed)%Z in
  let uninitializedTickGasUse := (COST_PER_UNINIT_TICK * 0)%Z in
  (BASE_SWAP_COST + hopsGasUse + tickGasUse + uninitializedTickGasUse)%Z.

(** [estimateGas]: the cost in WETH and the gas used. *)
Definition estimateGas (routeWithValidQuote : V3RouteWithValidQuote)
  (gasPriceWei : Z) : JsError + (CurrencyAmount * Z) :=
  let gasUse := gasUseOf routeWithValidQuote in
  let totalGasCostWei := (gasPriceWei * gasUse)%Z in
  bind (fromRawAmount weth totalGasCostWei)
    (fun gasCostInEth => inr (gasCostInEth, gasUse)).

Definition noUsdToken : JsError :=
  mkError PlainError
    ("Could not find a USD token for computing gas costs on " ++ chainIdText).

Definition noUsdPool : JsError :=
  mkError PlainError "Can't find USD/WETH pool for computing gas costs.".

(** The pools asked for and the pools read back by
    [getHighestLiquidityUSDPool]. *)
Definition usdPoolKeys (tokens : list Token)
  : list (Token * Token * FeeAmount) :=
  flat_map (fun feeAmount => map (fun usdToken => (weth, usdToken, feeAmount))
                               tokens)
    [HIGH; MEDIUM; LOW; LOWEST].

Definition usdPoolsOf (poolAccessor : PoolAccessor) (tokens : list Token)
  : list Pool :=
  flat_map
    (fun feeAmount =>
       flat_map (fun usdToken => found (poolAccessor weth usdToken feeAmount))
         tokens)
    [HIGH; MEDIUM; LOW; LOWEST].

Definition getHighestLiquidityUSDPool : JsError + Pool :=
  match usdTokens with
  | None => inl noUsdToken
  | Some tokens =>
      bind (getPools (usdPoolKeys tokens))
        (fun poolAccessor =>
           bind (maxBy gt liquidity (usdPoolsOf poolAccessor tokens))
             (fun maxPool =>
                match maxPool with
                | None => inl noUsdPool
                | Some maxPool => inr maxPool
                end))
  end.

Definition ethPoolsOf (poolAccessor : PoolAccessor) (token : Token)
  : list Pool :=
  flat_map (fun feeAmount => found (poolAccessor weth token feeAmount))
    [HIGH; MEDIUM; LOW].

Definition getHighestLiquidityEthPool (token : Token)
  : JsError + option Pool :=
  bind (getPools (map (fun feeAmount => (weth, token, feeAmount))
                    [HIGH; MEDIUM; LOW]))
    (fun poolAccessor => maxBy gt liquidity (ethPoolsOf poolAccessor token)).

(** The value of [estimateGasCost]. *)
Record GasCost : Type := mkGasCost {
  gasEstimate : Z;
  gasCostInToken : CurrencyAmount;
  gasCostInUSD : CurrencyAmount
}.

Definition IGasModel : Type := V3RouteWithValidQuote -> JsError + GasCost.

(** The price of WETH in the other token of a pool with WETH. *)
Definition ethPriceIn (pool : Pool) : Price :=
  if String.eqb (tokenAddress (token0 pool)) (tokenAddress weth)
  then token0Price pool
  else token1Price pool.

(** The token of a pool that is not WETH. *)
Definition usdTokenOf (usdPool : Pool) : Token :=
  if String.eqb (tokenAddress (token0 usdPool)) (tokenAddress weth)
  then token1 usdPool
  else token0 usdPool.

Definition buildGasModel (gasPriceWei : Z) (token : Token)
  : JsError + IGasModel :=
  if equals token weth then
    bind getHighestLiquidityUSDPool
      (fun usdPool =>
         inr (fun routeWithValidQuote =>
                bind (estimateGas routeWithValidQuote gasPriceWei)
                  (fun '(gasCostInEth, gasUse) =>
                     bind (quote (ethPriceIn usdPool) gasCostInEth)
                       (fun gasCostInTermsOfUSD =>
                          inr (mkGasCost gasUse gasCostInEth
                                 gasCostInTermsOfUSD)))))
  else
    bind (getHighestLiquidityEthPool token)
      (fun ethPool =>
         bind getHighestLiquidityUSDPool
           (fun usdPool =>
              let usdToken := usdTokenOf usdPool in
              inr (fun routeWithValidQuote =>
                     bind (estimateGas routeWithValidQuote gasPriceWei)
                       (fun '(gasCostInEth, gasUse) =>
                          match ethPool with
                          | None =>
                              bind (fromRawAmount token 0)
                                (fun zeroInToken =>
                                   bind (fromRawAmount usdToken 0)
                                     (fun zeroInUSD =>
                                        inr (mkGasCost gasUse zeroInToken
                                               zeroInUSD)))
                          | Some ethPool =>
                              bind (quote (ethPriceIn ethPool) gasCostInEth)
                                (fun gasCostInTermsOfQuoteToken =>
                                   bind (quote (ethPriceIn usdPool)
                                           gasCostInEth)
                                     (fun gasCostInTermsOfUSD =>
                                        inr (mkGasCost gasUse
                                               gasCostInTermsOfQuoteToken
                                               gasCostInTermsOfUSD)))
                          end)))).

End Model.

End V3Gas.

(** *** [V2HeuristicGasModelFactory] *)

Module V2Gas.

Section Model.

(** As for V3; [significant] is the number read by
    [parseFloat(reserve.toSignificant(2))]. *)
Variable Token : Type.
Variable equals : Token -> Token -> bool.
Variable tokenAddress : Token -> string.
Variable Price : Type.
Variable CurrencyAmount : Type.
Variable fromRawAmount : Token -> Z -> JsError + CurrencyAmount.
Variable quote : Price -> CurrencyAmount -> JsError + CurrencyAmount.
Variable significant : CurrencyAmount -> Q.

(** What the factory reads of a [Pair]. *)
Record Pair : Type := mkPair {
  token0 : Token;
  token1 : Token;
  reserve0 : CurrencyAmount;
  reserve1 : CurrencyAmount;
  token0Price : Price;
  token1Price : Price
}.

(** What the factory reads of a [V2RouteWithValidQuote]; [pairs] is
    [route.pairs]. *)
Record V2RouteWithValidQuote : Type := mkRoute {
  pairs : list Pair
}.

Variable weth : Token.
Variable usdTokens : option (list Token).
Variable chainIdText : string.

(** [V2PoolAccessor.getPool]. *)
Definition V2PoolAccessor : Type := Token -> Token -> option Pair.

Definition BASE_SWAP_COST : Z := 100000.
Definition COST_PER_EXTRA_HOP : Z := 20000.

Definition gasUseOf (routeWithValidQuote : V2RouteWithValidQuote) : Z :=
  let hops := Z.of_nat (length (pairs routeWithValidQuote)) in
  (BASE_SWAP_COST + COST_PER_EXTRA_HOP * (hops - 1))%Z.

Definition estimateGas (routeWithValidQuote : V2RouteWithValidQuote)
  (gasPriceWei : Z) : JsError + (CurrencyAmount * Z) :=
  let gasUse := gasUseOf routeWithValidQuote in
  let totalGasCostWei := (gasPriceWei * gasUse)%Z in
  bind (fromRawAmount weth totalGasCostWei)
    (fun gasCostInEth => inr (gasCostInEth, gasUse)).

Definition getEthPool (token : Token) (poolAccessor : V2PoolAccessor)
  : option Pair :=
  poolAccessor weth token.

Definition noUsdToken : JsError :=
  mkError PlainError
    ("Could not find a USD token for computing gas costs on " ++ chainIdText).

Definition noUsdPool : JsError :=
  mkError PlainError "Can't find USD/WETH pool for computing gas costs.".

(** The key of [_.maxBy]: the reserve of WETH, to two significant digits. *)
Definition wethReserve (pool : Pair) : Q :=
  if equals (token0 pool) weth then significant (reserve0 pool)
  else significant (reserve1 pool).

(** [>] on two such numbers, which never throws. *)
Definition gtQ (a b : Q) : JsError + bool := inr (negb (Qle_bool a b)).

Definition usdPairsOf (poolAccessor : V2PoolAccessor) (tokens : list Token)
  : list Pair :=
  flat_map (fun usdToken => found (poolAccessor weth usdToken)) tokens.

Definition getHighestLiquidityUSDPool (poolAccessor : V2PoolAccessor)
  : JsError + Pair :=
  match usdTokens with
  | None => inl noUsdToken
  | Some tokens =>
      bind (maxBy gtQ wethReserve (usdPairsOf poolAccessor tokens))
        (fun maxPool =>
           match maxPool with
           | None => inl noUsdPool
           | Some maxPool => inr maxPool
           end)
  end.

Record GasCost : Type := mkGasCost {
  gasEstimate : Z;
  gasCostInToken : CurrencyAmount;
  gasCostInUSD : CurrencyAmount
}.

Definition IGasModel : Type := V2RouteWithValidQuote -> JsError + GasCost.

Definition ethPriceIn (pool : Pair) : Price :=
  if String.eqb (tokenAddress (token0 pool)) (tokenAddress weth)
  then token0Price pool
  else token1Price pool.

Definition usdTokenOf (usdPool : Pair) : Token :=
  if String.eqb (tokenAddress (token0 usdPool)) (tokenAddress weth)
  then token1 usdPool
  else token0 usdPool.

Definition buildGasModel (gasPriceWei : Z) (poolAccessor : V2PoolAccessor)
  (token : Token) : JsError + IGasModel :=
  if equals token weth then
    bind (getHighestLiquidityUSDPool poolAccessor)
      (fun usdPool =>
         inr (fun routeWithValidQuote =>
                bind (estimateGas routeWithValidQuote gasPriceWei)
                  (fun '(gasCostInEth, gasUse) =>
                     bind (quote (ethPriceIn usdPool) gasCostInEth)
                       (fun gasCostInTermsOfUSD =>
                          inr (mkGasCost gasUse gasCostInEth
                                 gasCostInTermsOfUSD)))))
  else
    let ethPool := getEthPool token poolAccessor in
    bind (getHighestLiquidityUSDPool poolAccessor)
      (fun usdPool =>
         inr (fun routeWithValidQuote =>
                let usdToken := usdTokenOf usdPool in
                bind (estimateGas routeWithValidQuote gasPriceWei)
                  (fun '(gasCostInEth, gasUse) =>
                     match ethPool with
                     | None =>
                         bind (fromRawAmount token 0)
                           (fun zeroInToken =>
                              bind (fromRawAmount usdToken 0)
                                (fun zeroInUSD =>
                                   inr (mkGasCost gasUse zeroInToken
                                          zeroInUSD)))
                     | Some ethPool =>
                         bind (quote (ethPriceIn ethPool) gasCostInEth)
                           (fun gasCostInTermsOfQuoteToken =>
                              bind (quote (ethPriceIn usdPool) gasCostInEth)
                                (fun gasCostInTermsOfUSD =>
                                   inr (mkGasCost gasUse
                                          gasCostInTermsOfQuoteToken
                                          gasCostInTermsOfUSD)))
                     end))).

End Model.

End V2Gas.

(** ** Sample collaborators *)

(** A provider with the constructor's default parameters apart from the
    chunk size, whose current block is 100. *)
Definition sampleProvider (chunkSize : nat)
  (mc : nat -> MulticallParams -> MulticallOutcome) (rollbackEnabled : bool)
  : V3QuoteProvider :=
  mkProvider (fun _ => 100%Z) mc 2
    (mkBatchParams chunkSize 1000000 Js.oneFifth)
    (mkOverrides 110 1300000)
    rollbackEnabled "0x61fFE014bA17989E743c5F6cB21bF9697530B21e".

(** Three inputs of one route. *)
Definition sampleInputs : list (string * string) :=
  [("0x01", "0x1"); ("0x01", "0x2"); ("0x01", "0x3")].

(** Routes are given by their encoded path and amounts by their quotient. *)
Definition sampleEncode (route : string) (reversed : bool) : string :=
  if reversed then route ++ "ff" else route.

Definition sampleQuotient (a : N) : N := a.

Definition sampleShow (q : Q) : string :=
  Js.show_Z (Qnum q) ++ "/" ++ Js.show_Z (Zpos (Qden q)).

(** The error of [BigNumber.toNumber] for a value that is not a safe
    integer. *)
Definition sampleOverflow (b : Z) : JsError :=
  mkError PlainError "overflow".

(** Amounts of a currency with eighteen decimals: [toFixed] returns. *)
Definition sampleToFixed (a : N) (decimals : nat) : JsError + string :=
  inr (Js.show_Z (Z.of_N a) ++ "." ++ String.concat "" (repeat "0" decimals)).

(** Amounts of a currency without decimals: [toFixed] throws when asked for
    any. *)
Definition wholeToFixed (a : N) (decimals : nat) : JsError + string :=
  match decimals with
  | 0 => inr (Js.show_Z (Z.of_N a))
  | S _ => inl (mkError PlainError "Invariant failed: DECIMALS")
  end.

(** [routeToString] reads the pools of the route it is given. *)
Definition sampleRouteToString (route : option string) : JsError + string :=
  match route with
  | Some r => inr r
  | None =>
      inl (mkError TypeError
             "Cannot read properties of undefined (reading 'pools')")
  end.

(** An answer at height [block] with one successful quote per input. *)
Definition sampleAnswer (block : Z) (p : MulticallParams) : MulticallOutcome :=
  Returns (mkResults block
             (map (fun _ => ResultOk (1%Z, [2%Z], [3%Z], 21000%Z))
                (functionParams p))
             21000).

(** Every call is answered at block 100. *)
Definition steadyAggregator (callNo : nat) (p : MulticallParams)
  : MulticallOutcome :=
  sampleAnswer 100 p.

(** The first call is answered at block 100, the later ones at block 101. *)
Definition driftingAggregator (callNo : nat) (p : MulticallParams)
  : MulticallOutcome :=
  sampleAnswer (if callNo =? 1 then 100 else 101) p.

(** As [driftingAggregator], but the third call runs out of gas. *)
Definition driftingThenGas (callNo : nat) (p : MulticallParams)
  : MulticallOutcome :=
  if callNo =? 3 then Throws "execution reverted: out of gas"
  else driftingAggregator callNo p.

(** The node never finds the header of the requested block. *)
Definition headerlessAggregator (callNo : nat) (p : MulticallParams)
  : MulticallOutcome :=
  Throws "missing trie node: header not found".

(** The first call runs out of gas, the later ones are answered. *)
Definition gasThenSteady (callNo : nat) (p : MulticallParams)
  : MulticallOutcome :=
  if callNo =? 1 then Throws "execution reverted: out of gas"
  else sampleAnswer 100 p.

(** Only failed quotes come back. *)
Definition failingQuotes (callNo : nat) (p : MulticallParams)
  : MulticallOutcome :=
  Returns (mkResults 100 (map (fun _ => ResultFail "0x") (functionParams p)) 0).

(** The calldata alone exceeds 500 characters. *)
Definition longMessage : string :=
  "timeout" ++ String.concat "" (repeat "0123456789" 60).

Definition slowAggregator (callNo : nat) (p : MulticallParams)
  : MulticallOutcome :=
  Throws longMessage.

(** The first two calls time out and the later ones miss the header. *)
Definition timeoutsThenHeaderless (callNo : nat) (p : MulticallParams)
  : MulticallOutcome :=
  if callNo <=? 2 then Throws "timeout"
  else Throws "missing trie node: header not found".

(** No results at all come back. *)
Definition silentAggregator (callNo : nat) (p : MulticallParams)
  : MulticallOutcome :=
  Returns (mkResults 100 [] 0).

(** One successful quote comes back, however many inputs were sent. *)
Definition shortAggregator (callNo : nat) (p : MulticallParams)
  : MulticallOutcome :=
  Returns (mkResults 100 [ResultOk (1%Z, [2%Z], [3%Z], 21000%Z)] 21000).

(** The first quote of every call fails and the others succeed. *)
Definition firstQuoteFails (callNo : nat) (p : MulticallParams)
  : MulticallOutcome :=
  Returns (mkResults 100
             (Js.mapi
                (fun _ i =>
                   if i =? 0 then ResultFail "0x"
                   else ResultOk (1%Z, [2%Z], [3%Z], 21000%Z))
                (functionParams p))
             21000).




(** Sample collaborators of the gas models: tokens are their addresses, an
    amount is a token with a raw value, a price holds its base token, its
    quote token and an integer rate, and liquidity is a natural number. *)
Definition sampleFromRaw (token : string) (raw : Z) : JsError + (string * Z) :=
  if (raw <? 0)%Z then inl (mkError PlainError "Invariant failed: AMOUNT")
  else inr (token, raw).

Definition samplePriceQuote (price : string * string * Z)
  (amount : string * Z) : JsError + (string * Z) :=
  let '(base, quoted, rate) := price in
  if String.eqb (fst amount) base then inr (quoted, (snd amount * rate)%Z)
  else inl (mkError PlainError "Invariant failed: TOKEN").

Definition sampleGt (a b : N) : JsError + bool := inr (N.ltb b a).

Definition samplePool (usd : string) (liq : N)
  : V3Gas.Pool string (string * string * Z) N :=
  V3Gas.mkPool string (string * string * Z) N usd "WETH" liq
    (usd, "WETH", 1%Z) ("WETH", usd, 2000%Z).

(** An accessor with a USDC pool at the MEDIUM tier, a DAI pool at the LOW
    tier and a pool of WETH with UNI at the LOWEST tier only. *)
Definition sampleAccessor
  : V3Gas.PoolAccessor string (string * string * Z) N :=
  fun a b feeAmount =>
    if String.eqb a "WETH" then
      match feeAmount with
      | MEDIUM => if String.eqb b "USDC" then Some (samplePool "USDC" 500)
                  else None
      | LOW => if String.eqb b "DAI" then Some (samplePool "DAI" 900)
               else None
      | LOWEST => if String.eqb b "UNI" then Some (samplePool "UNI" 70)
                  else None
      | HIGH => None
      end
    else None.

Definition sampleGetPools (keys : list (string * string * FeeAmount))
  : JsError + V3Gas.PoolAccessor string (string * string * Z) N :=
  inr sampleAccessor.

Definition samplePair (usd : string) (reserve : Z)
  : V2Gas.Pair string (string * string * Z) (string * Z) :=
  V2Gas.mkPair string (string * string * Z) (string * Z) usd "WETH"
    (usd, (reserve * 2000)%Z) ("WETH", reserve)
    (usd, "WETH", 1%Z) ("WETH", usd, 2000%Z).

Definition samplePairs
  : V2Gas.V2PoolAccessor string (string * string * Z) (string * Z) :=
  fun a b =>
    if String.eqb a "WETH" then
      if String.eqb b "USDC" then Some (samplePair "USDC" 40)
      else if String.eqb b "DAI" then Some (samplePair "DAI" 75)
      else None
    else None.

Definition sampleSignificant (amount : string * Z) : Q :=
  inject_Z (snd amount).

(** ** The provider *)

Section Provider.

(** Routes and amounts come from the SDK; the provider only encodes a route,
    reads an amount's [quotient] and prints numbers into messages. *)
Variable V3Route : Type.
Variable CurrencyAmount : Type.
Variable encodeRouteToPath : V3Route -> bool -> string.
Variable quotient : CurrencyAmount -> N.
Variable showNumber : Q -> string.

(** [overflow b] is the error that [BigNumber.toNumber] throws for a value
    [b] that is not a safe integer; [toFixed] is [CurrencyAmount.toFixed],
    which throws when asked for more decimals than the currency has;
    [routeToString] prints a route, and is also handed [undefined]. *)
Variable overflow : Z -> JsError.
Variable toFixed : CurrencyAmount -> nat -> JsError + string.
Variable routeToString : option V3Route -> JsError + string.

Variable this : V3QuoteProvider.

(** [blockNumber.toNumber()]: the value when its magnitude is below 2^53. *)
Definition toNumber (b : Z) : JsError + Z :=
  if (Z.abs b <? 2 ^ 53)%Z then inr b else inl (overflow b).

(** The block numbers converted one after the other. *)
Fixpoint toNumbers (blockNumbers : list Z) : JsError + list Z :=
  match blockNumbers with
  | [] => inr []
  | b :: rest =>
      bind (toNumber b)
        (fun n => bind (toNumbers rest) (fun ns => inr (n :: ns)))
  end.

(** [validateBlockNumbers]: the error it returns, [None] for [null], unless
    a conversion throws. *)
Definition validateBlockNumbers
  (successfulQuoteStates : list (Inputs * MulticallResults))
  (totalCalls : nat) (gasLimit : Z) : JsError + option JsError :=
  if length successfulQuoteStates <=? 1 then inr None
  else
    let results := map snd successfulQuoteStates in
    let blockNumbers := map blockNumber results in
    bind (toNumbers blockNumbers)
      (fun numbers =>
         let uniqBlocks := Js.uniq numbers in
         if length uniqBlocks =? 1 then inr None
         else
           inr (Some (mkError BlockConflictError
                        ("Quotes returned from different blocks. "
                         ++ Js.join "," (map Js.show_Z uniqBlocks) ++ ". "
                         ++ Js.show_nat totalCalls
                         ++ " calls were made with gas limit "
                         ++ Js.show_Z gasLimit)))).

(** [validateSuccessRate]: [None] is the [void] return. *)
Definition validateSuccessRate (allResults : list Result)
  (haveRetried : bool) : option JsError :=
  let numResults := length allResults in
  let numSuccessResults := length (filter success allResults) in
  let successRate := successRateOf numSuccessResults numResults in
  let floor := quoteMinSuccessRate (batchParams this) in
  if rate_lt successRate floor then
    if haveRetried then None
    else
      Some (mkError SuccessRateError
              ("Quote success rate below threshold of " ++ showNumber floor
               ++ ": "
               ++ match successRate with
                  | RateOf q => showNumber q
                  | RateInf => "Infinity"
                  | RateNaN => "NaN"
                  end))
  else None.

(** The [catch] block of one batch: the thrown error's message is tested for
    three substrings in turn. *)
Definition classifyThrown (err_message : string) (idx total : nat)
  (inputs : Inputs) : JsError :=
  if Js.includes err_message "header not found" then
    mkError ProviderBlockHeaderError (Js.slice0 500 err_message)
  else if Js.includes err_message "timeout" then
    mkError ProviderTimeoutError
      ("Req " ++ Js.show_nat idx ++ "/" ++ Js.show_nat total
       ++ ". Request had " ++ Js.show_nat (length inputs) ++ " inputs. "
       ++ Js.slice0 500 err_message)
  else if Js.includes err_message "out of gas" then
    mkError ProviderGasError (Js.slice0 500 err_message)
  else
    mkError PlainError
      ("Unknown error from provider: " ++ Js.slice0 500 err_message).

(** One pending or failed batch of an attempt: the [callNo]-th aggregator
    call of the invocation, made with the state [s] the attempt started in. *)
Definition executeBatch (fn : FunctionName) (s : LoopState)
  (total idx callNo : nat) (inputs : Inputs) : QuoteBatchState :=
  match multicall this callNo
          (mkParams (quoterAddress this) fn inputs (pinnedBlock s)
             (gasLimitOverride s)) with
  | Returns res =>
      match validateSuccessRate (results res) (haveRetriedForSuccessRate s) with
      | Some successRateError => Failed inputs successRateError (Some res)
      | None => Success inputs res
      end
  | Throws err_message =>
      Failed inputs (classifyThrown err_message idx total inputs) None
  end.

(** The [Promise.all] over the batch states: successes are kept, every other
    batch raises [totalCallsMade] and is executed.  The calls start in index
    order, so the counter numbers them. *)
Fixpoint executeAll (fn : FunctionName) (s : LoopState) (total idx calls : nat)
  (states : list QuoteBatchState) : list QuoteBatchState * nat :=
  match states with
  | [] => ([], calls)
  | Success i r :: rest =>
      let (rest', calls') := executeAll fn s total (S idx) calls rest in
      (Success i r :: rest', calls')
  | q :: rest =>
      let q' := executeBatch fn s total idx (S calls) (inputsOf q) in
      let (rest', calls') := executeAll fn s total (S idx) (S calls) rest in
      (q' :: rest', calls')
  end.

(** The body of the loop over the failed batches, for one failure; the
    boolean is [retryAll]. *)
Definition handleFailure (attemptNumber : nat) (acc : LoopState * bool)
  (error : JsError) : LoopState * bool :=
  let (s, retryAll) := acc in
  match class error with
  | BlockConflictError =>
      let s :=
        if haveRetriedForBlockConflictError s then s
        else set_haveRetriedForBlockConflictError true
               (putMetric QuoteBlockConflictErrorRetry s) in
      (s, true)
  | ProviderBlockHeaderError =>
      let s :=
        if haveRetriedForBlockHeader s then s
        else set_haveRetriedForBlockHeader true
               (putMetric QuoteBlockHeaderNotFoundRetry s) in
      let another :=
        match blockHeaderRetryAttemptNumber s with
        | Some k => negb (k =? 0) && (k <? attemptNumber)
        | None => false
        end in
      let (s, retryAll) :=
        if another && negb (blockHeaderRolledBack s) && rollback this then
          let block :=
            if truthy (pinnedBlock s) then (await (pinnedBlock s) - 1)%Z
            else (getBlockNumber this attemptNumber - 1)%Z in
          (set_blockHeaderRolledBack true (set_pinnedBlock (BlockNum block) s),
           true)
        else (s, retryAll) in
      (set_blockHeaderRetryAttemptNumber (Some attemptNumber) s, retryAll)
  | ProviderTimeoutError =>
      let s :=
        if haveRetriedForTimeout s then s
        else set_haveRetriedForTimeout true (putMetric QuoteTimeoutRetry s) in
      (s, retryAll)
  | ProviderGasError =>
      let s :=
        if haveRetriedForOutOfGas s then s
        else set_haveRetriedForOutOfGas true
               (putMetric QuoteOutOfGasExceptionRetry s) in
      (set_multicallChunk 140 (set_gasLimitOverride 1000000%Z s), retryAll)
  | SuccessRateError =>
      if haveRetriedForSuccessRate s then (s, retryAll)
      else
        let s := set_haveRetriedForSuccessRate true
                   (putMetric QuoteSuccessRateRetry s) in
        let s := set_gasLimitOverride
                   (ov_gasLimitOverride (successRateFailureOverrides this)) s in
        let s := set_multicallChunk
                   (ov_multicallChunk (successRateFailureOverrides this)) s in
        (s, true)
  | PlainError | TypeError =>
      let s :=
        if haveRetriedForUnknownReason s then s
        else set_haveRetriedForUnknownReason true
               (putMetric QuoteUnknownReasonRetry s) in
      (s, retryAll)
  end.

Definition reasonOf (f : Inputs * JsError * option MulticallResults) : JsError :=
  snd (fst f).

(** The batch states once every promise of the attempt has settled. *)
Definition executed (fn : FunctionName) (s : LoopState)
  : list QuoteBatchState * nat :=
  executeAll fn s (length (quoteStates s)) 0 (totalCallsMade s) (quoteStates s).

(** [retryAll] once the block numbers of the successes are validated. *)
Definition blockConflict (successful : list (Inputs * MulticallResults))
  (totalCalls : nat) (gasLimit : Z) : bool :=
  match validateBlockNumbers successful totalCalls gasLimit with
  | inr (Some _) => true
  | _ => false
  end.

(** The retry controller of one attempt: [retryAll] starts from the block
    number check and the failed batches are handled in order. *)
Definition control (attemptNumber totalCalls : nat) (s : LoopState)
  (states : list QuoteBatchState) : LoopState * bool :=
  fold_left (handleFailure attemptNumber)
    (map reasonOf (failuresOf states))
    (s, blockConflict (successesOf states) totalCalls (gasLimitOverride s)).

(** One run of the function handed to [retry].  [inputs] is the flat input
    vector and [totalCalls] the number of chunks planned at the start. *)
Definition attempt (fn : FunctionName) (inputs : Inputs) (totalCalls : nat)
  (s0 : LoopState) (attemptNumber : nat) : LoopState * AttemptOutcome :=
  let s := set_finalAttemptNumber attemptNumber s0 in
  let (states, calls) := executed fn s in
  let s := set_totalCallsMade calls (set_quoteStates states s) in
  let successfulQuoteStates := successesOf states in
  let failedQuoteStates := failuresOf states in
  let pendingQuoteStates := pendingsOf states in
  if 0 <? length pendingQuoteStates then
    (s, Throw (mkError PlainError
                 "Pending quote after waiting for all promises."))
  else
    match validateBlockNumbers successfulQuoteStates totalCalls
            (gasLimitOverride s) with
    | inl thrown => (s, Throw thrown)
    | inr _ =>
        let reasonForFailureStr :=
          Js.join ", " (map (fun f => className (class (reasonOf f)))
                          failedQuoteStates) in
        let (s, retryAll) := control attemptNumber totalCalls s states in
        let s :=
          if retryAll then
            set_quoteStates (pendingStates inputs (multicallChunk s)) s
          else s in
        if 0 <? length failedQuoteStates then
          (s, Throw (mkError PlainError
                       ("Failed to get "
                        ++ Js.show_nat (length failedQuoteStates)
                        ++ " quotes. Reasons: " ++ reasonForFailureStr)))
        else
          let callResults := map snd successfulQuoteStates in
          match callResults with
          | [] =>
              (s, Throw (mkError TypeError
                           "Cannot read properties of undefined (reading 'blockNumber')"))
          | first :: _ =>
              (s, Resolve (flat_map results callResults) (blockNumber first))
          end
    end.

(** [op.mainError()] of the [retry] package, which counts the errors by
    their message: the error whose message has occurred most often so far,
    the later one on a tie.  [seen] holds the errors already counted. *)
Definition occurrences (msg : string) (errors : list JsError) : nat :=
  length (filter (fun e => String.eqb (message e) msg) errors).

Fixpoint mainErrorFrom (seen : list JsError) (mainError : JsError)
  (mainErrorCount : nat) (errors : list JsError) : JsError :=
  match errors with
  | [] => mainError
  | error :: rest =>
      let count := S (occurrences (message error) seen) in
      if mainErrorCount <=? count
      then mainErrorFrom (seen ++ [error]) error count rest
      else mainErrorFrom (seen ++ [error]) mainError mainErrorCount rest
  end.

(** The main error once [e] is recorded after [errors].  The search starts
    from [null] with count zero, which the first error replaces; [e] stands
    in for it. *)
Definition mainError (errors : list JsError) (e : JsError) : JsError :=
  mainErrorFrom [] e 0 (errors ++ [e]).

(** [async-retry]: the function runs with attempt numbers from one; a throw
    is recorded and starts the next attempt while retries are left, and the
    rejection is the main error of the throws recorded.  [errors] holds the
    throws of the earlier attempts, in order. *)
Fixpoint retryFrom (errors : list JsError) (fn : FunctionName)
  (inputs : Inputs) (totalCalls : nat) (retriesLeft : nat)
  (attemptNumber : nat) (s : LoopState) : LoopState * AttemptOutcome :=
  let (s', out) := attempt fn inputs totalCalls s attemptNumber in
  match out with
  | Resolve _ _ => (s', out)
  | Throw e =>
      match retriesLeft with
      | 0 => (s', Throw (mainError errors e))
      | S r =>
          retryFrom (errors ++ [e]) fn inputs totalCalls r (S attemptNumber) s'
      end
  end.

Definition retry (fn : FunctionName) (inputs : Inputs) (totalCalls : nat)
  (retriesLeft : nat) (attemptNumber : nat) (s : LoopState)
  : LoopState * AttemptOutcome :=
  retryFrom [] fn inputs totalCalls retriesLeft attemptNumber s.

(** The state the loop ends in and the outcome of its last attempt, without
    the record of the throws: what the proofs about the state follow. *)
Fixpoint attempts (fn : FunctionName) (inputs : Inputs) (totalCalls : nat)
  (retriesLeft : nat) (attemptNumber : nat) (s : LoopState)
  : LoopState * AttemptOutcome :=
  let (s', out) := attempt fn inputs totalCalls s attemptNumber in
  match out with
  | Resolve _ _ => (s', out)
  | Throw _ =>
      match retriesLeft with
      | 0 => (s', out)
      | S r => attempts fn inputs totalCalls r (S attemptNumber) s'
      end
  end.

(** The errors thrown by the attempts of the loop, in order, up to the
    first attempt that resolves. *)
Fixpoint thrownBy (fn : FunctionName) (inputs : Inputs) (totalCalls : nat)
  (retriesLeft : nat) (attemptNumber : nat) (s : LoopState) : list JsError :=
  let (s', out) := attempt fn inputs totalCalls s attemptNumber in
  match out with
  | Resolve _ _ => []
  | Throw e =>
      e :: match retriesLeft with
           | 0 => []
           | S r => thrownBy fn inputs totalCalls r (S attemptNumber) s'
           end
  end.

(** The flat input vector: for every route, one pair per amount. *)
Definition encodeInputs (amounts : list CurrencyAmount)
  (routes : list V3Route) (fn : FunctionName) : Inputs :=
  flat_map
    (fun route =>
       let encodedRoute := encodeRouteToPath route (isExactOutput fn) in
       map (fun amount => (encodedRoute, HexString.of_N (quotient amount)))
         amounts)
    routes.

(** The state the first attempt starts in. *)
Definition initialState (inputs : Inputs)
  (_providerConfig : option ProviderConfig) : LoopState :=
  let chunkSize := bp_multicallChunk (batchParams this) in
  let block :=
    match _providerConfig with
    | Some cfg =>
        match cfg_blockNumber cfg with
        | Some b => b
        | None => BlockNum (getBlockNumber this 0)
        end
    | None => BlockNum (getBlockNumber this 0)
    end in
  mkState (pendingStates inputs chunkSize) chunkSize
    (gasLimitPerCall (batchParams this)) block
    false false None false false false false false 1 0 [].

(** [V3AmountQuote]; [amount] is [amounts[index]], which JavaScript leaves
    [undefined] ([None]) out of range. *)
Record V3AmountQuote : Type := mkQuote {
  amount : option CurrencyAmount;
  quote : option Z;
  sqrtPriceX96AfterList : option (list Z);
  initializedTicksCrossedList : option (list Z);
  gasEstimate : option Z
}.

(** [V3RouteWithQuotes]; the route is [routes[i]]. *)
Definition V3RouteWithQuotes : Type := (option V3Route * list V3AmountQuote)%type.

Definition toAmountQuote (amounts : list CurrencyAmount)
  (quoteResult : Result) (index : nat) : V3AmountQuote :=
  let amount := nth_error amounts index in
  match quoteResult with
  | ResultFail _ => mkQuote amount None None None None
  | ResultOk (q, sqrtPrices, ticks, gas) =>
      mkQuote amount (Some q) (Some sqrtPrices) (Some ticks) (Some gas)
  end.

(** The callback that builds one record.  For a failed quote it first makes
    the entry of the debug log from [amount.toFixed(2)] and
    [routeToString(route)], either of which may throw; the entry itself only
    reaches the log. *)
Definition quoteOf (amounts : list CurrencyAmount) (route : option V3Route)
  (quoteResult : Result) (index : nat) : JsError + V3AmountQuote :=
  match quoteResult with
  | ResultFail _ =>
      bind (match nth_error amounts index with
            | Some amount => toFixed amount 2
            | None =>
                inl (mkError TypeError
                       "Cannot read properties of undefined (reading 'toFixed')")
            end)
        (fun amountStr =>
           bind (routeToString route)
             (fun routeStr => inr (toAmountQuote amounts quoteResult index)))
  | ResultOk _ => inr (toAmountQuote amounts quoteResult index)
  end.

(** [processQuoteResults]: the results are cut into one chunk per route and
    every chunk becomes the pair of [routes[i]] and its records.  The log of
    the failed quotes at the end has no effect on the result. *)
Definition processQuoteResults (quoteResults : list Result)
  (routes : list V3Route) (amounts : list CurrencyAmount)
  : JsError + list V3RouteWithQuotes :=
  let quotesResultsByRoute :=
    Js.chunk quoteResults (Js.Fin (length amounts)) in
  mapiM
    (fun quoteResults i =>
       let route := nth_error routes i in
       bind (mapiM (quoteOf amounts route) quoteResults)
         (fun quotes => inr (route, quotes)))
    quotesResultsByRoute.

(** The settled promise of [getQuotesManyData]. *)
Inductive QuotesPromise : Type :=
| Fulfilled (routesWithQuotes : list V3RouteWithQuotes) (block : Z)
| Rejected (e : JsError).

(** The retry loop of one invocation. *)
Definition runAttempts (amounts : list CurrencyAmount)
  (routes : list V3Route) (fn : FunctionName)
  (_providerConfig : option ProviderConfig) : LoopState * AttemptOutcome :=
  let inputs := encodeInputs amounts routes fn in
  let s := initialState inputs _providerConfig in
  let expectedCallsMade := length (quoteStates s) in
  retry fn inputs expectedCallsMade (retries this) 1 s.

Definition getQuotesManyData (amounts : list CurrencyAmount)
  (routes : list V3Route) (fn : FunctionName)
  (_providerConfig : option ProviderConfig) : LoopState * QuotesPromise :=
  match runAttempts amounts routes fn _providerConfig with
  | (s, Resolve quoteResults block) =>
      match processQuoteResults quoteResults routes amounts with
      | inl thrown => (s, Rejected thrown)
      | inr routesQuotes =>
          let s := putMetric QuoteApproxGasUsedPerSuccessfulCall s in
          let s := putMetric QuoteNumRetryLoops s in
          let s := putMetric QuoteTotalCallsToProvider s in
          let s := putMetric QuoteExpectedCallsToProvider s in
          let s := putMetric QuoteNumRetriedCalls s in
          (s, Fulfilled routesQuotes block)
      end
  | (s, Throw e) => (s, Rejected e)
  end.

Definition getQuotesManyExactIn (amountIns : list CurrencyAmount)
  (routes : list V3Route) (providerConfig : option ProviderConfig) :=
  getQuotesManyData amountIns routes quoteExactInput providerConfig.

Definition getQuotesManyExactOut (amountOuts : list CurrencyAmount)
  (routes : list V3Route) (providerConfig : option ProviderConfig) :=
  getQuotesManyData amountOuts routes quoteExactOutput providerConfig.



(** ** Predicates used in the statements *)

(** A batch whose results are aligned with its inputs. *)
Definition aligned (q : QuoteBatchState) : Prop :=
  match q with
  | Success i r => length (results r) = length i
  | _ => True
  end.

(** A batch that is not recorded as failed by a [BlockConflictError]. *)
Definition noConflictReason (q : QuoteBatchState) : Prop :=
  match q with
  | Failed _ e _ => class e <> BlockConflictError
  | _ => True
  end.

(** The [BlockConflictError] arm of the retry controller has never run. *)
Definition conflictArmUnused (s : LoopState) : Prop :=
  haveRetriedForBlockConflictError s = false
  /\ ~ In QuoteBlockConflictErrorRetry (metrics s)
  /\ Forall noConflictReason (quoteStates s).

(** The aggregator answers every call with one result per input. *)
Definition alignedAggregator : Prop :=
  forall callNo p res,
    multicall this callNo p = Returns res ->
    length (results res) = length (functionParams p).

(** How the batches after the join relate to the batches before it. *)
Definition settles (fn : FunctionName) (s : LoopState) (total : nat)
  (q q' : QuoteBatchState) : Prop :=
  (isSuccess q = true /\ q' = q)
  \/ (isSuccess q = false
      /\ exists idx callNo,
           q' = executeBatch fn s total idx callNo (inputsOf q)).

(** The state in which the controller of attempt [n] starts. *)
Definition joined (fn : FunctionName) (s0 : LoopState) (n : nat) : LoopState :=
  set_totalCallsMade (snd (executed fn s0))
    (set_quoteStates (fst (executed fn s0)) (set_finalAttemptNumber n s0)).


(** What a step of the controller may do to the pinned block: leave it and
    the rolled-back flag alone, or roll back once, setting [retryAll]. *)
Definition pinStep (n : nat) (a b : LoopState * bool) : Prop :=
  (pinnedBlock (fst b) = pinnedBlock (fst a)
   /\ blockHeaderRolledBack (fst b) = blockHeaderRolledBack (fst a)
   /\ (snd a = true -> snd b = true))
  \/ (blockHeaderRolledBack (fst a) = false
      /\ blockHeaderRolledBack (fst b) = true
      /\ rollback this = true
      /\ snd b = true
      /\ pinnedBlock (fst b)
         = BlockNum (if truthy (pinnedBlock (fst a))
                     then await (pinnedBlock (fst a)) - 1
                     else getBlockNumber this n - 1)%Z).

(** The block numbers of the successful batches are safe integers, which
    [validateBlockNumbers] converts without a throw. *)
Definition safeBlocks (states : list QuoteBatchState) : Prop :=
  Forall (fun q => (Z.abs (blockNumber (snd q)) < 2 ^ 53)%Z)
    (successesOf states).

(** A batch already successful is kept as it is. *)
Definition keepsSuccess (q q' : QuoteBatchState) : Prop :=
  isSuccess q = true -> q' = q.


(** A successful batch with one result per input. *)
Definition alignedBatch (b : list (string * string) * MulticallResults) : Prop :=
  length (results (snd b)) = length (fst b).

(** A batch whose results are what the aggregator returned when it was
    called for the inputs of the batch. *)
Definition answeredBatch (fn : FunctionName)
  (b : list (string * string) * MulticallResults) : Prop :=
  exists callNo block gasLimit,
    multicall this callNo
      (mkParams (quoterAddress this) fn (fst b) block gasLimit)
    = Returns (snd b).

Definition answered (fn : FunctionName) (q : QuoteBatchState) : Prop :=
  match q with
  | Success i r => answeredBatch fn (i, r)
  | _ => True
  end.

(** The flat results are the results of successful batches put together in
    order, the inputs of these batches put together are the flat inputs, and
    every batch holds the aggregator's answer for its own inputs, one result
    per input. *)
Definition resolvedFrom (fn : FunctionName) (inputs : Inputs)
  (quoteResults : list Result) : Prop :=
  exists batches : list (list (string * string) * MulticallResults),
    concat (map fst batches) = inputs
    /\ quoteResults = flat_map results (map snd batches)
    /\ Forall alignedBatch batches
    /\ Forall (answeredBatch fn) batches
    /\ inputs <> [].

(** The batches are cut from the flat input vector and every successful one
    holds the aggregator's answer for its inputs, one result per input. *)
Definition covered (fn : FunctionName) (inputs : Inputs) (s : LoopState)
  : Prop :=
  Forall aligned (quoteStates s)
  /\ Forall (answered fn) (quoteStates s)
  /\ (quoteStates s = []
      \/ (concat (map inputsOf (quoteStates s)) = inputs /\ inputs <> [])).


(** The flag that guards each retry metric; the five summary metrics have
    none. *)
Definition flagOf (m : Metric) (s : LoopState) : option bool :=
  match m with
  | QuoteBlockConflictErrorRetry => Some (haveRetriedForBlockConflictError s)
  | QuoteBlockHeaderNotFoundRetry => Some (haveRetriedForBlockHeader s)
  | QuoteTimeoutRetry => Some (haveRetriedForTimeout s)
  | QuoteOutOfGasExceptionRetry => Some (haveRetriedForOutOfGas s)
  | QuoteSuccessRateRetry => Some (haveRetriedForSuccessRate s)
  | QuoteUnknownReasonRetry => Some (haveRetriedForUnknownReason s)
  | _ => None
  end.

(** No metric has been emitted twice, and a metric emitted so far is a retry
    metric whose flag is set. *)
Definition metricsGuarded (s : LoopState) : Prop :=
  NoDup (metrics s)
  /\ forall m, In m (metrics s) -> flagOf m s = Some true.


(** The values the gas limit and the chunk size can take from a state on. *)
Definition tunedFrom (s s' : LoopState) : Prop :=
  (gasLimitOverride s' = gasLimitOverride s
   \/ gasLimitOverride s' = 1000000%Z
   \/ gasLimitOverride s'
      = ov_gasLimitOverride (successRateFailureOverrides this))
  /\ (multicallChunk s' = multicallChunk s
      \/ multicallChunk s' = 140
      \/ multicallChunk s'
         = ov_multicallChunk (successRateFailureOverrides this)).




(** The batches are cut from the flat input vector with one of the chunk
    sizes a call can use. *)
Definition plannedFor (inputs : Inputs) (s : LoopState) : Prop :=
  let configured := bp_multicallChunk (batchParams this) in
  let override := ov_multicallChunk (successRateFailureOverrides this) in
  (multicallChunk s = configured
   \/ multicallChunk s = 140
   \/ multicallChunk s = override)
  /\ (quoteStates s = [] \/ concat (map inputsOf (quoteStates s)) = inputs)
  /\ Forall (fun q => 1 <= length (inputsOf q)
                      <= Nat.max configured (Nat.max 140 override))
       (quoteStates s)
  /\ (0 < configured -> 0 < override ->
      concat (map inputsOf (quoteStates s)) = inputs).

(** ** Facts about the helpers *)

Lemma ceil_spec (a b k : nat) : 0 < b -> (a <= k * b <-> ceil a b <= k).
Proof.
  intros Hb. unfold ceil.
  pose proof (Nat.div_mod_eq (a + (b - 1)) b) as E.
  pose proof (Nat.mod_upper_bound (a + (b - 1)) b ltac:(lia)) as R.
  set (q := (a + (b - 1)) / b) in *.
  set (r := (a + (b - 1)) mod b) in *.
  split; intros H.
  - destruct (Nat.le_gt_cases q k) as [L|L]; [exact L|exfalso]. nia.
  - nia.
Qed.

Lemma ceil_upper (a b : nat) : 0 < b -> a <= ceil a b * b.
Proof. intros Hb. apply (ceil_spec a b (ceil a b) Hb). lia. Qed.

Lemma ceil_lower (a b : nat) : 0 < b -> 0 < a -> (ceil a b - 1) * b < a.
Proof.
  intros Hb Ha.
  destruct (Nat.le_gt_cases a ((ceil a b - 1) * b)) as [L|L]; [|exact L].
  apply (ceil_spec a b (ceil a b - 1) Hb) in L.
  assert (ceil a b = 0) as Z0 by lia.
  pose proof (ceil_upper a b Hb). rewrite Z0 in *. lia.
Qed.

Lemma ceil_pos (a b : nat) : 0 < b -> 0 < a -> 0 < ceil a b.
Proof.
  intros Hb Ha. pose proof (ceil_upper a b Hb).
  destruct (ceil a b); simpl in *; lia.
Qed.

(** The normalised size never exceeds the configured one. *)
Lemma ceil_ceil_le (n m : nat) : 0 < m -> 0 < n -> ceil n (ceil n m) <= m.
Proof.
  intros Hm Hn.
  apply ceil_spec; [apply ceil_pos; assumption|].
  rewrite Nat.mul_comm. apply ceil_upper. exact Hm.
Qed.

Lemma slices_length {A : Type} (c s : nat) (l : list A) :
  length (Js.slices c s l) = c.
Proof. revert l. induction c; intros l; simpl; [reflexivity|]. now rewrite IHc. Qed.

Lemma slices_nth_error {A : Type} (c s : nat) (l : list A) (i : nat) :
  i < c ->
  nth_error (Js.slices c s l) i = Some (firstn s (skipn (i * s) l)).
Proof.
  revert l i. induction c; intros l i Hi; [lia|].
  destruct i as [|i]; simpl; [reflexivity|].
  rewrite IHc by lia. rewrite skipn_skipn. do 3 f_equal. lia.
Qed.

Lemma slices_map {A : Type} (c s : nat) (l : list A) :
  Js.slices c s l
  = map (fun i => firstn s (skipn (i * s) l)) (seq 0 c).
Proof.
  apply nth_error_ext. intros i.
  destruct (Nat.lt_ge_cases i c) as [L|L].
  - rewrite slices_nth_error by exact L.
    rewrite nth_error_map, nth_error_seq.
    destruct (Nat.ltb_spec i c); [reflexivity|lia].
  - transitivity (@None (list A)); [|symmetry];
      apply nth_error_None; rewrite ?length_map, ?length_seq, ?slices_length; lia.
Qed.

Lemma slices_concat {A : Type} (c s : nat) (l : list A) :
  length l <= c * s -> concat (Js.slices c s l) = l.
Proof.
  revert l. induction c; intros l H; simpl in *.
  - destruct l; simpl in *; [reflexivity|lia].
  - rewrite IHc; [apply firstn_skipn|]. rewrite length_skipn. lia.
Qed.

(** [_.chunk] with a positive size on a non-empty array. *)
Lemma chunk_Fin {A : Type} (l : list A) (s : nat) :
  l <> [] -> 0 < s ->
  Js.chunk l (Js.Fin s) = Js.slices (ceil (length l) s) s l.
Proof.
  intros Hl Hs. unfold Js.chunk, ceil.
  destruct l as [|x l]; [congruence|]. simpl length.
  destruct (Nat.ltb_spec s 1); [lia|]. reflexivity.
Qed.

Lemma chunk_concat {A : Type} (l : list A) (s : nat) :
  0 < s -> concat (Js.chunk l (Js.Fin s)) = l.
Proof.
  intros Hs. destruct l as [|x l]; [reflexivity|].
  rewrite chunk_Fin by (congruence || lia).
  apply slices_concat. apply ceil_upper. exact Hs.
Qed.


(** ** The input planner *)

Lemma ceil_div_Fin (a b : nat) :
  0 < b -> Js.ceil_div a (Js.Fin b) = Js.Fin (ceil a b).
Proof.
  intros Hb. destruct b as [|b']; [lia|].
  unfold Js.ceil_div, ceil. replace (S b' - 1) with b' by lia. reflexivity.
Qed.

Lemma normalizedChunk_Fin (n m : nat) :
  0 < n -> 0 < m -> normalizedChunk n m = Js.Fin (ceil n (ceil n m)).
Proof.
  intros Hn Hm. unfold normalizedChunk.
  rewrite (ceil_div_Fin n m Hm).
  apply ceil_div_Fin. apply ceil_pos; assumption.
Qed.

Lemma inputsChunked_slices (inputs : Inputs) (m : nat) :
  inputs <> [] -> 0 < m ->
  inputsChunked inputs m
  = Js.slices (ceil (length inputs) (ceil (length inputs) (ceil (length inputs) m)))
      (ceil (length inputs) (ceil (length inputs) m)) inputs.
Proof.
  intros Hne Hm.
  assert (0 < length inputs) as Hn by (destruct inputs; simpl; [congruence|lia]).
  unfold inputsChunked. rewrite normalizedChunk_Fin by assumption.
  apply chunk_Fin; [exact Hne|].
  apply ceil_pos; [apply ceil_pos|]; assumption.
Qed.

(** C2 (as amended): for a non-empty input vector of [N] elements and a
    positive [multicallChunk], the planner cuts the vector into contiguous
    slices of [normalized = ceil (N / ceil (N / multicallChunk))] elements:
    chunk [i] is the slice starting at [i * normalized], the chunks put
    together give back the inputs, no chunk is larger than [multicallChunk],
    every chunk before the last has exactly [normalized] elements and the
    last one has between one and [normalized] elements. *)
Theorem planner_chunks (inputs : Inputs) (chunkSize : nat) :
  inputs <> [] -> 0 < chunkSize ->
  let n := length inputs in
  let normalized := ceil n (ceil n chunkSize) in
  let chunks := inputsChunked inputs chunkSize in
  normalizedChunk n chunkSize = Js.Fin normalized
  /\ chunks = map (fun i => firstn normalized (skipn (i * normalized) inputs))
                (seq 0 (ceil n normalized))
  /\ concat chunks = inputs
  /\ Forall (fun c => length c <= chunkSize) chunks
  /\ (forall i c, nth_error chunks i = Some c ->
        (S i < length chunks -> length c = normalized)
        /\ (S i = length chunks -> 1 <= length c <= normalized)).
Proof.
  intros Hne Hm n normalized chunks.
  assert (0 < n) as Hn by (subst n; destruct inputs; simpl; [congruence|lia]).
  assert (0 < normalized) as Hs
      by (apply ceil_pos; [apply ceil_pos|]; assumption).
  assert (normalized <= chunkSize) as Hle by (apply ceil_ceil_le; assumption).
  assert (chunks = Js.slices (ceil n normalized) normalized inputs) as Hc
      by (apply inputsChunked_slices; assumption).
  pose proof (ceil_upper n normalized Hs) as Hup.
  pose proof (ceil_lower n normalized Hs Hn) as Hlow.
  clearbody chunks. subst chunks.
  split; [apply normalizedChunk_Fin; assumption|].
  split; [apply slices_map|].
  split; [apply slices_concat; exact Hup|].
  split.
  - rewrite slices_map. apply Forall_forall. intros c Hin.
    apply in_map_iff in Hin. destruct Hin as (i & <- & _).
    rewrite length_firstn. lia.
  - intros i c Hi. rewrite slices_length.
    assert (i < ceil n normalized) as Hlt.
    { rewrite <- (slices_length (ceil n normalized) normalized inputs).
      apply nth_error_Some. congruence. }
    rewrite slices_nth_error in Hi by exact Hlt.
    injection Hi as <-. rewrite length_firstn, length_skipn.
    fold n. split; intros Hpos; nia.
Qed.


(** ** The batch executor *)





(** ** The success-rate validator *)

(** One success of five has the rate 0.2, and five of six the rate
    0.8333333333333334: the quotients are rounded. *)
Lemma successRateOf_rounds :
  successRateOf 1 5 = RateOf Js.oneFifth
  /\ successRateOf 5 6 = RateOf (7505999378950827 # 9007199254740992)
  /\ successRateOf 1 2 = RateOf (4503599627370496 # 9007199254740992)
  /\ successRateOf 0 0 = RateNaN.
Proof. repeat split; vm_compute; reflexivity. Qed.

(** C9: on an empty results array the success rate is [0 / 0], which is not
    below any floor, so [validateSuccessRate] returns no error whatever the
    retry flag is, and a batch whose multicall returned no results is a
    [Success]. *)
Theorem empty_results_pass (haveRetried : bool) :
  successRateOf (length (filter success [])) (length (@nil Result)) = RateNaN
  /\ rate_lt RateNaN (quoteMinSuccessRate (batchParams this)) = false
  /\ validateSuccessRate [] haveRetried = None
  /\ (forall fn s total idx callNo inputs res,
        multicall this callNo
          (mkParams (quoterAddress this) fn inputs (pinnedBlock s)
             (gasLimitOverride s)) = Returns res ->
        results res = [] ->
        executeBatch fn s total idx callNo inputs = Success inputs res).
Proof.
  repeat split.
  intros fn s total idx callNo inputs res Hret Hnil.
  unfold executeBatch. rewrite Hret, Hnil. reflexivity.
Qed.


(** ** One attempt *)

Lemma executeBatch_inputs fn s total idx callNo inputs :
  inputsOf (executeBatch fn s total idx callNo inputs) = inputs.
Proof.
  unfold executeBatch.
  destruct (multicall this callNo _) as [res|msg]; [|reflexivity].
  destruct (validateSuccessRate _ _); reflexivity.
Qed.

Lemma executeBatch_settled fn s total idx callNo inputs :
  isPending (executeBatch fn s total idx callNo inputs) = false.
Proof.
  unfold executeBatch.
  destruct (multicall this callNo _) as [res|msg]; [|reflexivity].
  destruct (validateSuccessRate _ _); reflexivity.
Qed.

Lemma validateSuccessRate_class allResults haveRetried e :
  validateSuccessRate allResults haveRetried = Some e ->
  class e = SuccessRateError.
Proof.
  unfold validateSuccessRate.
  destruct (rate_lt _ _); [|discriminate].
  destruct haveRetried; [discriminate|].
  intros H. injection H as <-. reflexivity.
Qed.

Lemma classifyThrown_class msg idx total inputs :
  let c := class (classifyThrown msg idx total inputs) in
  c = ProviderBlockHeaderError \/ c = ProviderTimeoutError
  \/ c = ProviderGasError \/ c = PlainError.
Proof.
  unfold classifyThrown.
  destruct (Js.includes msg "header not found"); [simpl; tauto|].
  destruct (Js.includes msg "timeout"); [simpl; tauto|].
  destruct (Js.includes msg "out of gas"); simpl; tauto.
Qed.

Lemma executeBatch_noConflict fn s total idx callNo inputs :
  noConflictReason (executeBatch fn s total idx callNo inputs).
Proof.
  unfold executeBatch.
  destruct (multicall this callNo _) as [res|msg].
  - destruct (validateSuccessRate _ _) as [e|] eqn:E; simpl; [|exact I].
    rewrite (validateSuccessRate_class _ _ _ E). discriminate.
  - simpl. pose proof (classifyThrown_class msg idx total inputs) as H.
    simpl in H. intuition congruence.
Qed.

Lemma executeBatch_aligned fn s total idx callNo inputs :
  alignedAggregator ->
  aligned (executeBatch fn s total idx callNo inputs).
Proof.
  intros Hagg. unfold executeBatch.
  destruct (multicall this callNo _) as [res|msg] eqn:E; [|exact I].
  destruct (validateSuccessRate _ _); simpl; [exact I|].
  exact (Hagg _ _ _ E).
Qed.

Lemma executeAll_settles fn s total states :
  forall idx calls,
    Forall2 (settles fn s total) states
      (fst (executeAll fn s total idx calls states)).
Proof.
  induction states as [|q rest IH]; intros idx calls; simpl; [constructor|].
  destruct q as [i r|i e r|i].
  - specialize (IH (S idx) calls).
    destruct (executeAll fn s total (S idx) calls rest) as [rest' calls'].
    simpl in *. constructor; [left; split; reflexivity|exact IH].
  - specialize (IH (S idx) (S calls)).
    destruct (executeAll fn s total (S idx) (S calls) rest) as [rest' calls'].
    simpl in *. constructor; [|exact IH].
    right. split; [reflexivity|]. now exists idx, (S calls).
  - specialize (IH (S idx) (S calls)).
    destruct (executeAll fn s total (S idx) (S calls) rest) as [rest' calls'].
    simpl in *. constructor; [|exact IH].
    right. split; [reflexivity|]. now exists idx, (S calls).
Qed.

Lemma executed_settles fn s :
  Forall2 (settles fn s (length (quoteStates s))) (quoteStates s)
    (fst (executed fn s)).
Proof. apply executeAll_settles. Qed.

Lemma settles_inputs fn s total l l' :
  Forall2 (settles fn s total) l l' -> map inputsOf l' = map inputsOf l.
Proof.
  induction 1 as [|q q' l l' H _ IH]; simpl; [reflexivity|].
  rewrite IH. f_equal.
  destruct H as [[_ ->]|[_ (idx & callNo & ->)]]; [reflexivity|].
  apply executeBatch_inputs.
Qed.

Lemma settles_no_pending fn s total l l' :
  Forall2 (settles fn s total) l l' -> pendingsOf l' = [].
Proof.
  induction 1 as [|q q' l l' H _ IH]; [reflexivity|].
  unfold pendingsOf in *. simpl. rewrite IH, app_nil_r.
  destruct H as [[Hs ->]|[_ (idx & callNo & ->)]].
  - destruct q; simpl in *; congruence.
  - pose proof (executeBatch_settled fn s total idx callNo (inputsOf q)) as P.
    destruct (executeBatch _ _ _ _ _ _); simpl in *; congruence.
Qed.

Lemma settles_Forall (P : QuoteBatchState -> Prop) fn s total l l' :
  (forall idx callNo i, P (executeBatch fn s total idx callNo i)) ->
  Forall2 (settles fn s total) l l' -> Forall P l -> Forall P l'.
Proof.
  intros HP. induction 1 as [|q q' l l' H _ IH]; intros Hall; [constructor|].
  inversion Hall as [|? ? Hq Hl]; subst. constructor; [|exact (IH Hl)].
  destruct H as [[_ ->]|[_ (idx & callNo & ->)]]; [exact Hq|apply HP].
Qed.

Lemma executeAll_final fn s n total states :
  forall idx calls,
    executeAll fn (set_finalAttemptNumber n s) total idx calls states
    = executeAll fn s total idx calls states.
Proof.
  induction states as [|q rest IH]; intros idx calls; simpl; [reflexivity|].
  destruct q; rewrite IH; reflexivity.
Qed.

Lemma executed_final fn s n :
  executed fn (set_finalAttemptNumber n s) = executed fn s.
Proof. unfold executed. simpl. apply executeAll_final. Qed.

(** The attempt, with the join done and the unreachable check for pending
    batches removed. *)
Lemma attempt_unfold fn inputs totalCalls s0 n :
  let states := fst (executed fn s0) in
  let c := control n totalCalls (joined fn s0 n) states in
  let s := if snd c
           then set_quoteStates (pendingStates inputs (multicallChunk (fst c)))
                  (fst c)
           else fst c in
  attempt fn inputs totalCalls s0 n
  = match validateBlockNumbers (successesOf states) totalCalls
            (gasLimitOverride s0) with
    | inl thrown => (joined fn s0 n, Throw thrown)
    | inr _ =>
        (s,
         if 0 <? length (failuresOf states) then
           Throw (mkError PlainError
                    ("Failed to get "
                     ++ Js.show_nat (length (failuresOf states))
                     ++ " quotes. Reasons: "
                     ++ Js.join ", "
                          (map (fun f => className (class (reasonOf f)))
                             (failuresOf states))))
         else
           match map snd (successesOf states) with
           | [] =>
               Throw (mkError TypeError
                        "Cannot read properties of undefined (reading 'blockNumber')")
           | first :: _ =>
               Resolve (flat_map results (map snd (successesOf states)))
                 (blockNumber first)
           end)
    end.
Proof.
  intros states c s. subst s c states. unfold attempt, joined.
  rewrite executed_final.
  pose proof (settles_no_pending _ _ _ _ _ (executed_settles fn s0)) as Hp.
  destruct (executed fn s0) as [states calls]. simpl fst in *. simpl snd.
  rewrite Hp. simpl length. simpl Nat.ltb.
  cbv iota. cbn [gasLimitOverride set_totalCallsMade set_quoteStates
                 set_finalAttemptNumber].
  destruct (validateBlockNumbers _ _ _) as [thrown|o]; [reflexivity|].
  destruct (control n totalCalls _ states) as [s ra]. simpl fst. simpl snd.
  destruct (0 <? length (failuresOf states)); [reflexivity|].
  destruct (map snd (successesOf states)); reflexivity.
Qed.

(** The two ways an attempt goes on after the join: the conversion of a
    block number throws, or the controller runs. *)
Ltac validate_cases :=
  rewrite attempt_unfold; cbv zeta;
  match goal with
  | |- context [match validateBlockNumbers ?a ?b ?c with _ => _ end] =>
      let Hval := fresh "Hval" in
      destruct (validateBlockNumbers a b c) as [thrown|o] eqn:Hval
  end.

Lemma attempt_validated fn inputs totalCalls s0 n o :
  validateBlockNumbers (successesOf (fst (executed fn s0))) totalCalls
    (gasLimitOverride s0) = inr o ->
  let states := fst (executed fn s0) in
  let c := control n totalCalls (joined fn s0 n) states in
  let s := if snd c
           then set_quoteStates (pendingStates inputs (multicallChunk (fst c)))
                  (fst c)
           else fst c in
  attempt fn inputs totalCalls s0 n
  = (s,
     if 0 <? length (failuresOf states) then
       Throw (mkError PlainError
                ("Failed to get " ++ Js.show_nat (length (failuresOf states))
                 ++ " quotes. Reasons: "
                 ++ Js.join ", "
                      (map (fun f => className (class (reasonOf f)))
                         (failuresOf states))))
     else
       match map snd (successesOf states) with
       | [] =>
           Throw (mkError TypeError
                    "Cannot read properties of undefined (reading 'blockNumber')")
       | first :: _ =>
           Resolve (flat_map results (map snd (successesOf states)))
             (blockNumber first)
       end).
Proof. intros Hv. rewrite attempt_unfold. cbv zeta. rewrite Hv. reflexivity. Qed.

Lemma attempt_thrown fn inputs totalCalls s0 n thrown :
  validateBlockNumbers (successesOf (fst (executed fn s0))) totalCalls
    (gasLimitOverride s0) = inl thrown ->
  attempt fn inputs totalCalls s0 n = (joined fn s0 n, Throw thrown).
Proof. intros Hv. rewrite attempt_unfold. cbv zeta. rewrite Hv. reflexivity. Qed.

(** The loop with its record of throws ends in the same state as
    [attempts], resolves with the same results, and rejects exactly when the
    last attempt throws. *)
Lemma retryFrom_attempts fn inputs totalCalls retriesLeft :
  forall errors n s,
    let r := retryFrom errors fn inputs totalCalls retriesLeft n s in
    let a := attempts fn inputs totalCalls retriesLeft n s in
    fst r = fst a
    /\ (forall quoteResults block,
          snd r = Resolve quoteResults block
          <-> snd a = Resolve quoteResults block)
    /\ ((exists e, snd r = Throw e) <-> (exists e, snd a = Throw e)).
Proof.
  induction retriesLeft as [|k IH]; intros errors n s;
    cbn [retryFrom attempts];
    destruct (attempt fn inputs totalCalls s n) as [s1 [qr b|e]];
    cbn [fst snd].
  - split; [reflexivity|]. split; [tauto|]. tauto.
  - split; [reflexivity|]. split.
    + intros qr' b'. split; discriminate.
    + split; intros _; eexists; reflexivity.
  - split; [reflexivity|]. split; [tauto|]. tauto.
  - apply IH.
Qed.

Lemma retry_fst fn inputs totalCalls retriesLeft n s :
  fst (retry fn inputs totalCalls retriesLeft n s)
  = fst (attempts fn inputs totalCalls retriesLeft n s).
Proof. apply (retryFrom_attempts fn inputs totalCalls retriesLeft [] n s). Qed.

Lemma retry_resolves fn inputs totalCalls retriesLeft n s quoteResults block :
  snd (retry fn inputs totalCalls retriesLeft n s) = Resolve quoteResults block
  <-> snd (attempts fn inputs totalCalls retriesLeft n s)
      = Resolve quoteResults block.
Proof. apply (retryFrom_attempts fn inputs totalCalls retriesLeft [] n s). Qed.

Lemma retry_throws fn inputs totalCalls retriesLeft n s :
  (exists e, snd (retry fn inputs totalCalls retriesLeft n s) = Throw e)
  <-> (exists e, snd (attempts fn inputs totalCalls retriesLeft n s) = Throw e).
Proof. apply (retryFrom_attempts fn inputs totalCalls retriesLeft [] n s). Qed.

Lemma toNumbers_safe (l : list Z) :
  Forall (fun b => (Z.abs b < 2 ^ 53)%Z) l -> toNumbers l = inr l.
Proof.
  induction 1 as [|b l Hb _ IH]; [reflexivity|].
  cbn [toNumbers]. unfold toNumber.
  destruct (Z.ltb_spec (Z.abs b) (2 ^ 53)); [|lia].
  cbn [bind]. rewrite IH. reflexivity.
Qed.

Lemma toNumbers_inr (l numbers : list Z) :
  toNumbers l = inr numbers ->
  numbers = l /\ Forall (fun b => (Z.abs b < 2 ^ 53)%Z) l.
Proof.
  revert numbers. induction l as [|b l IH]; intros numbers H.
  - injection H as <-. split; [reflexivity|constructor].
  - cbn [toNumbers] in H. unfold toNumber in H.
    destruct (Z.ltb_spec (Z.abs b) (2 ^ 53)) as [Hb|Hb]; [|discriminate].
    cbn [bind] in H. destruct (toNumbers l) as [e|ns]; [discriminate|].
    cbn [bind] in H. injection H as <-.
    destruct (IH ns eq_refl) as [-> Hall]. split; [reflexivity|].
    constructor; assumption.
Qed.

Lemma safeBlocks_validated states totalCalls gasLimit :
  safeBlocks states ->
  exists o,
    validateBlockNumbers (successesOf states) totalCalls gasLimit = inr o.
Proof.
  intros Hsafe. unfold validateBlockNumbers.
  destruct (length (successesOf states) <=? 1); [now exists None|].
  rewrite toNumbers_safe.
  - cbn [bind]. destruct (length _ =? 1); eexists; reflexivity.
  - unfold safeBlocks in Hsafe. rewrite map_map.
    apply Forall_map. exact Hsafe.
Qed.


(** ** The retry controller *)

Ltac handle_cases :=
  unfold handleFailure;
  repeat match goal with
         | |- context [match class ?e with _ => _ end] =>
             destruct (class e) eqn:?
         | |- context [if ?b then _ else _] => destruct b eqn:?
         | |- context [match blockHeaderRetryAttemptNumber ?s with _ => _ end] =>
             destruct (blockHeaderRetryAttemptNumber s) eqn:?
         end;
  simpl in *; try congruence; auto.

Lemma handleFailure_retryAll n s e : snd (handleFailure n (s, true) e) = true.
Proof. handle_cases. Qed.

Lemma handleFailure_quoteStates n s ra e :
  quoteStates (fst (handleFailure n (s, ra) e)) = quoteStates s.
Proof. handle_cases. Qed.

Lemma fold_handle_retryAll n l :
  forall s, snd (fold_left (handleFailure n) l (s, true)) = true.
Proof.
  induction l as [|e l IH]; intros s; cbn [fold_left]; [reflexivity|].
  pose proof (handleFailure_retryAll n s e) as H.
  destruct (handleFailure n (s, true) e) as [s1 ra1]. simpl in H. subst ra1.
  apply IH.
Qed.

Lemma fold_handle_quoteStates n l :
  forall s ra,
    quoteStates (fst (fold_left (handleFailure n) l (s, ra))) = quoteStates s.
Proof.
  induction l as [|e l IH]; intros s ra; cbn [fold_left]; [reflexivity|].
  pose proof (handleFailure_quoteStates n s ra e) as H.
  destruct (handleFailure n (s, ra) e) as [s1 ra1]. simpl in H.
  rewrite IH. exact H.
Qed.








Lemma joined_control_fields fn s n :
  haveRetriedForSuccessRate (joined fn s n) = haveRetriedForSuccessRate s
  /\ multicallChunk (joined fn s n) = multicallChunk s
  /\ gasLimitOverride (joined fn s n) = gasLimitOverride s
  /\ pinnedBlock (joined fn s n) = pinnedBlock s
  /\ blockHeaderRolledBack (joined fn s n) = blockHeaderRolledBack s
  /\ blockHeaderRetryAttemptNumber (joined fn s n)
     = blockHeaderRetryAttemptNumber s
  /\ haveRetriedForBlockConflictError (joined fn s n)
     = haveRetriedForBlockConflictError s
  /\ metrics (joined fn s n) = metrics s
  /\ quoteStates (joined fn s n) = fst (executed fn s).
Proof. repeat split. Qed.



Lemma fold_handle_rel n (R : LoopState * bool -> LoopState * bool -> Prop) :
  (forall a, R a a) ->
  (forall a b c, R a b -> R b c -> R a c) ->
  (forall a e, R a (handleFailure n a e)) ->
  forall l a, R a (fold_left (handleFailure n) l a).
Proof.
  intros Hrefl Htrans Hstep.
  induction l as [|e l IH]; intros a; cbn [fold_left]; [apply Hrefl|].
  eapply Htrans; [apply Hstep|apply IH].
Qed.

(** *** Out-of-gas failures *)

Lemma handleFailure_gas n s ra e :
  class e = ProviderGasError ->
  let r := handleFailure n (s, ra) e in
  snd r = ra
  /\ multicallChunk (fst r) = 140
  /\ gasLimitOverride (fst r) = 1000000%Z.
Proof. intros Hc. handle_cases. Qed.

Lemma fold_gas_only n l :
  (forall e, In e l -> class e = ProviderGasError) ->
  forall s ra,
    let r := fold_left (handleFailure n) l (s, ra) in
    snd r = ra
    /\ (l <> [] ->
        multicallChunk (fst r) = 140 /\ gasLimitOverride (fst r) = 1000000%Z).
Proof.
  induction l as [|e l IH]; intros Hall s ra; cbn [fold_left].
  - split; [reflexivity|congruence].
  - pose proof (handleFailure_gas n s ra e (Hall e (or_introl eq_refl)))
      as (H1 & H2 & H3).
    destruct (handleFailure n (s, ra) e) as [s1 ra1]. simpl in H1, H2, H3.
    subst ra1.
    destruct (IH (fun e' He' => Hall e' (or_intror He')) s1 ra) as [I1 I2].
    split; [exact I1|]. intros _.
    destruct l as [|e' l']; [simpl; auto|].
    apply I2. discriminate.
Qed.

Lemma settles_keepsSuccess fn s total l l' :
  Forall2 (settles fn s total) l l' -> Forall2 keepsSuccess l l'.
Proof.
  induction 1 as [|q q' l l' H _ IH]; constructor; [|exact IH].
  intros Hs. destruct H as [[_ ->]|[Hn _]]; [reflexivity|congruence].
Qed.

(** C10 (as amended): when the failures of an attempt are all
    [ProviderGasError]s and the successes of the attempt show no block-number
    conflict, [retryAll] stays unset: the attempt ends with the batches it
    joined, cut exactly as before, every batch that was already successful
    unchanged, and the chunk size lowered to 140 (the gas limit to
    1,000,000) without any effect on the layout; the next attempt keeps the
    successes and runs every other batch on its own inputs.  In any attempt
    the layout changes only when [retryAll] is set.  The layout is also kept
    when the conversion of a block number throws; the two values are lowered
    when [validateBlockNumbers] returns, which it does for block numbers that
    are safe integers. *)
Theorem out_of_gas_keeps_layout fn inputs totalCalls s n :
  let states := fst (executed fn s) in
  let validation :=
    validateBlockNumbers (successesOf states) totalCalls (gasLimitOverride s) in
  failuresOf states <> [] ->
  (forall f, In f (failuresOf states) ->
             class (reasonOf f) = ProviderGasError) ->
  (forall conflict, validation <> inr (Some conflict)) ->
  let s' := fst (attempt fn inputs totalCalls s n) in
  quoteStates s' = states
  /\ map inputsOf (quoteStates s') = map inputsOf (quoteStates s)
  /\ Forall2 keepsSuccess (quoteStates s) (quoteStates s')
  /\ (validation = inr None ->
      multicallChunk s' = 140 /\ gasLimitOverride s' = 1000000%Z)
  /\ Forall2 (settles fn s' (length (quoteStates s'))) (quoteStates s')
       (fst (executed fn s'))
  /\ (forall s0 n0,
        snd (control n0 totalCalls (joined fn s0 n0) (fst (executed fn s0)))
        = false ->
        map inputsOf (quoteStates (fst (attempt fn inputs totalCalls s0 n0)))
        = map inputsOf (quoteStates s0)).
Proof.
  intros states validation Hne Hall Hnone s'.
  assert (forall s0 n0,
             snd (control n0 totalCalls (joined fn s0 n0)
                    (fst (executed fn s0))) = false ->
             quoteStates (fst (attempt fn inputs totalCalls s0 n0))
             = fst (executed fn s0)) as Hkeep.
  { intros s0 n0 Hra. validate_cases; cbn [fst]; [reflexivity|].
    rewrite Hra. unfold control. rewrite fold_handle_quoteStates.
    reflexivity. }
  assert (forall s0 n0,
             snd (control n0 totalCalls (joined fn s0 n0)
                    (fst (executed fn s0))) = false ->
             map inputsOf
               (quoteStates (fst (attempt fn inputs totalCalls s0 n0)))
             = map inputsOf (quoteStates s0)) as Hany.
  { intros s0 n0 Hra. rewrite (Hkeep s0 n0 Hra).
    apply (settles_inputs fn s0 _ _ _ (executed_settles fn s0)). }
  subst validation.
  destruct (validateBlockNumbers (successesOf states) totalCalls
              (gasLimitOverride s)) as [thrown|[conflict|]] eqn:Hval;
    [|exfalso; exact (Hnone conflict eq_refl)|].
  { assert (fst (attempt fn inputs totalCalls s n) = joined fn s n) as Hs'
        by (rewrite (attempt_thrown _ _ _ _ _ _ Hval); reflexivity).
    assert (quoteStates s' = states) as Hq by (subst s'; now rewrite Hs').
    split; [exact Hq|].
    split; [rewrite Hq;
            apply (settles_inputs fn s _ _ _ (executed_settles fn s))|].
    split; [rewrite Hq;
            apply (settles_keepsSuccess fn s _ _ _ (executed_settles fn s))|].
    split; [discriminate|].
    split; [apply executed_settles|exact Hany]. }
  clear Hnone. rename Hval into Hnone.
  assert (control n totalCalls (joined fn s n) states
          = fold_left (handleFailure n) (map reasonOf (failuresOf states))
              (joined fn s n, false)) as Hc.
  { unfold control, blockConflict. cbn [joined set_totalCallsMade
      set_quoteStates set_finalAttemptNumber gasLimitOverride].
    fold states. rewrite Hnone. reflexivity. }
  destruct (fold_gas_only n (map reasonOf (failuresOf states))) with
    (s := joined fn s n) (ra := false) as [G1 G2].
  { intros e He. apply in_map_iff in He. destruct He as (f & <- & Hf).
    apply Hall. exact Hf. }
  rewrite <- Hc in G1, G2.
  assert (quoteStates s' = states) as Hq by (apply Hkeep; exact G1).
  assert (fst (attempt fn inputs totalCalls s n)
          = fst (control n totalCalls (joined fn s n) states)) as Hs'.
  { rewrite (attempt_validated _ _ _ _ _ _ Hnone). cbv zeta. cbn [fst].
    fold states. rewrite G1. reflexivity. }
  destruct G2 as [G2 G3].
  { destruct (failuresOf states); [congruence|discriminate]. }
  split; [exact Hq|].
  split; [rewrite Hq; apply (settles_inputs fn s _ _ _ (executed_settles fn s))|].
  split; [rewrite Hq;
          apply (settles_keepsSuccess fn s _ _ _ (executed_settles fn s))|].
  split; [intros _; subst s'; rewrite Hs'; split; [exact G2|exact G3]|].
  split; [apply executed_settles|exact Hany].
Qed.


(** *** Block-header failures and the rollback *)

Lemma handleFailure_pinStep n a e : pinStep n a (handleFailure n a e).
Proof.
  destruct a as [s ra]. unfold pinStep.
  handle_cases; try (left; repeat split; congruence);
    right; repeat split; try congruence;
    repeat match goal with
           | H : _ && _ = true |- _ => apply andb_prop in H; destruct H
           | H : negb _ = true |- _ => apply negb_true_iff in H
           end; congruence.
Qed.

Lemma pinStep_refl n a : pinStep n a a.
Proof. left. auto. Qed.

Lemma pinStep_trans n a b c : pinStep n a b -> pinStep n b c -> pinStep n a c.
Proof.
  unfold pinStep.
  intros [(P1 & R1 & T1)|(Ra & Rb & Hr & Tb & Pb)]
         [(P2 & R2 & T2)|(Rb' & Rc & Hr' & Tc & Pc)].
  - left. repeat split; try congruence. auto.
  - right. rewrite <- P1. repeat split; congruence.
  - right. repeat split; try congruence. auto.
  - congruence.
Qed.

Lemma control_pinStep n totalCalls s states :
  pinStep n
    (s, blockConflict (successesOf states) totalCalls (gasLimitOverride s))
    (control n totalCalls s states).
Proof.
  unfold control. apply fold_handle_rel.
  - apply pinStep_refl.
  - apply pinStep_trans.
  - apply handleFailure_pinStep.
Qed.

(** A header failure that meets the rollback condition. *)
Lemma handleFailure_header_fires n s ra e k :
  class e = ProviderBlockHeaderError ->
  rollback this = true -> blockHeaderRolledBack s = false ->
  blockHeaderRetryAttemptNumber s = Some k -> 0 < k < n ->
  let r := handleFailure n (s, ra) e in
  pinnedBlock (fst r)
  = BlockNum (if truthy (pinnedBlock s) then await (pinnedBlock s) - 1
              else getBlockNumber this n - 1)%Z
  /\ blockHeaderRolledBack (fst r) = true
  /\ snd r = true.
Proof.
  intros Hc Hr Hb Hk [Hk0 Hkn]. unfold handleFailure. rewrite Hc.
  assert (negb (k =? 0) && (k <? n) = true) as Hcond.
  { apply andb_true_intro. split.
    - apply negb_true_iff. apply Nat.eqb_neq. lia.
    - apply Nat.ltb_lt. exact Hkn. }
  destruct (haveRetriedForBlockHeader s); simpl;
    rewrite Hk, Hcond, Hb, Hr; simpl; auto.
Qed.

Lemma handleFailure_header_records n s ra e :
  class e = ProviderBlockHeaderError ->
  blockHeaderRetryAttemptNumber (fst (handleFailure n (s, ra) e)) = Some n.
Proof. intros Hc. handle_cases. Qed.

Lemma handleFailure_header_kept n s ra e :
  blockHeaderRetryAttemptNumber s = Some n ->
  blockHeaderRetryAttemptNumber (fst (handleFailure n (s, ra) e)) = Some n.
Proof. intros Hk. handle_cases. Qed.

Lemma handleFailure_not_header n s ra e :
  class e <> ProviderBlockHeaderError ->
  let s' := fst (handleFailure n (s, ra) e) in
  pinnedBlock s' = pinnedBlock s
  /\ blockHeaderRolledBack s' = blockHeaderRolledBack s
  /\ blockHeaderRetryAttemptNumber s' = blockHeaderRetryAttemptNumber s.
Proof. intros Hc. handle_cases. Qed.

Lemma fold_header_records n l :
  forall s ra,
    (blockHeaderRetryAttemptNumber s = Some n
     \/ exists e, In e l /\ class e = ProviderBlockHeaderError) ->
    blockHeaderRetryAttemptNumber (fst (fold_left (handleFailure n) l (s, ra)))
    = Some n.
Proof.
  induction l as [|e l IH]; intros s ra H; cbn [fold_left].
  - destruct H as [H|(e & [] & _)]. exact H.
  - destruct (handleFailure n (s, ra) e) as [s1 ra1] eqn:E.
    apply IH. destruct H as [H|(e0 & [->|Hin] & Hc)].
    + left. pose proof (handleFailure_header_kept n s ra e H) as K.
      now rewrite E in K.
    + left. pose proof (handleFailure_header_records n s ra e0 Hc) as K.
      now rewrite E in K.
    + right. now exists e0.
Qed.

(** Once rolled back, the pinned block stays as it is. *)
Lemma fold_rolled_stable n l s :
  blockHeaderRolledBack s = true ->
  let r := fold_left (handleFailure n) l (s, true) in
  pinnedBlock (fst r) = pinnedBlock s
  /\ blockHeaderRolledBack (fst r) = true
  /\ snd r = true.
Proof.
  intros Hb r.
  pose proof (fold_handle_rel n (pinStep n) (pinStep_refl n) (pinStep_trans n)
                (handleFailure_pinStep n) l (s, true)) as H.
  fold r in H. unfold pinStep in H. cbn [fst snd] in H.
  destruct H as [(P & R & T)|(R & _)]; [|congruence].
  repeat split; [exact P|congruence|auto].
Qed.

Lemma fold_rollback_fires n k l :
  rollback this = true -> 0 < k < n ->
  forall s ra,
    blockHeaderRolledBack s = false ->
    blockHeaderRetryAttemptNumber s = Some k ->
    (exists e, In e l /\ class e = ProviderBlockHeaderError) ->
    let r := fold_left (handleFailure n) l (s, ra) in
    pinnedBlock (fst r)
    = BlockNum (if truthy (pinnedBlock s) then await (pinnedBlock s) - 1
                else getBlockNumber this n - 1)%Z
    /\ blockHeaderRolledBack (fst r) = true
    /\ snd r = true.
Proof.
  intros Hr Hk.
  induction l as [|e l IH]; intros s ra Hb Hn (e0 & Hin & Hc);
    [destruct Hin|].
  cbn [fold_left].
  destruct (ErrorClass_eqb (class e) ProviderBlockHeaderError) eqn:E.
  - assert (class e = ProviderBlockHeaderError) as Hce
        by (destruct (class e); simpl in E; congruence).
    pose proof (handleFailure_header_fires n s ra e k Hce Hr Hb Hn Hk)
      as (F1 & F2 & F3).
    destruct (handleFailure n (s, ra) e) as [s1 ra1]. simpl in F1, F2, F3.
    subst ra1.
    destruct (fold_rolled_stable n l s1 F2) as (S1 & S2 & S3).
    repeat split; [congruence|exact S2|exact S3].
  - assert (class e <> ProviderBlockHeaderError) as Hce
        by (intros Hx; rewrite Hx in E; discriminate).
    pose proof (handleFailure_not_header n s ra e Hce) as (N1 & N2 & N3).
    destruct (handleFailure n (s, ra) e) as [s1 ra1]. simpl in N1, N2, N3.
    destruct Hin as [->|Hin]; [congruence|].
    destruct (IH s1 ra1) as (I1 & I2 & I3);
      [congruence|congruence|now exists e0|].
    rewrite N1 in I1. auto.
Qed.


Lemma attempt_pinStep fn inputs totalCalls s n :
  let s' := fst (attempt fn inputs totalCalls s n) in
  (pinnedBlock s' = pinnedBlock s
   /\ blockHeaderRolledBack s' = blockHeaderRolledBack s)
  \/ (blockHeaderRolledBack s = false
      /\ blockHeaderRolledBack s' = true
      /\ rollback this = true
      /\ pinnedBlock s'
         = BlockNum (if truthy (pinnedBlock s) then await (pinnedBlock s) - 1
                     else getBlockNumber this n - 1)%Z).
Proof.
  intros s'. subst s'. validate_cases; cbn [fst]; [left; split; reflexivity|].
  pose proof (control_pinStep n totalCalls (joined fn s n)
                (fst (executed fn s))) as H.
  unfold pinStep in H. cbn [fst snd] in H.
  destruct (joined_control_fields fn s n) as (_ & _ & _ & J4 & J5 & _).
  rewrite J4, J5 in H.
  destruct (control n totalCalls (joined fn s n) (fst (executed fn s)))
    as [s2 ra]. cbn [fst snd] in *.
  destruct ra; cbn [pinnedBlock blockHeaderRolledBack set_quoteStates];
    destruct H as [(P & R & _)|(R0 & R1 & Hr & _ & P)]; auto.
Qed.

Lemma retry_pin fn inputs totalCalls retriesLeft :
  forall n s,
    truthy (pinnedBlock s) = true ->
    let s' := fst (attempts fn inputs totalCalls retriesLeft n s) in
    (blockHeaderRolledBack s = true ->
     pinnedBlock s' = pinnedBlock s /\ blockHeaderRolledBack s' = true)
    /\ (blockHeaderRolledBack s = false ->
        pinnedBlock s' = pinnedBlock s
        \/ (blockHeaderRolledBack s' = true
            /\ pinnedBlock s' = BlockNum (await (pinnedBlock s) - 1))).
Proof.
  assert (forall r n s,
             blockHeaderRolledBack s = true ->
             let s' := fst (attempts fn inputs totalCalls r n s) in
             pinnedBlock s' = pinnedBlock s
             /\ blockHeaderRolledBack s' = true) as Hstable.
  { induction r as [|r IH]; intros n s Hb; cbn [attempts];
      pose proof (attempt_pinStep fn inputs totalCalls s n) as H;
      destruct (attempt fn inputs totalCalls s n) as [s1 out];
      cbn [fst] in H;
      (destruct H as [[P R]|(R0 & _)]; [|congruence]).
    - destruct out; cbn [fst]; split; congruence.
    - destruct out; cbn [fst]; [split; congruence|].
      destruct (IH (S n) s1) as [I1 I2]; [congruence|].
      split; congruence. }
  induction retriesLeft as [|r IH]; intros n s Ht; cbn [attempts];
    pose proof (attempt_pinStep fn inputs totalCalls s n) as H;
    destruct (attempt fn inputs totalCalls s n) as [s1 out] eqn:E;
    cbn [fst] in H; rewrite Ht in H.
  - assert (fst (match out with
                 | Resolve _ _ => (s1, out)
                 | Throw _ => (s1, out)
                 end) = s1) as -> by (destruct out; reflexivity).
    split; intros Hb; destruct H as [[P R]|(R0 & R1 & _ & P)];
      try congruence; auto.
    split; congruence.
  - split; intros Hb.
    + pose proof (Hstable (S r) n s Hb) as K. cbn [attempts] in K.
      rewrite E in K. exact K.
    + destruct out as [qr b|e]; cbn [fst].
      * destruct H as [[P R]|(R0 & R1 & _ & P)]; auto.
      * destruct H as [[P R]|(R0 & R1 & _ & P)].
        -- assert (truthy (pinnedBlock s1) = true) as Ht1 by congruence.
           destruct (IH (S n) s1 Ht1) as [_ I2].
           rewrite <- P. apply I2. congruence.
        -- right. destruct (Hstable r (S n) s1 R1) as [K1 K2].
           split; congruence.
Qed.

(** The rollback from a truthy pinned block: with rollback enabled, no
    rollback so far, a block-header failure recorded by an earlier attempt
    and a pinned block number that is truthy (a promise, or a number other
    than zero), an attempt that sees a block-header failure and whose
    successes carry safe block numbers pins the block number one below and
    re-plans every batch as [Pending].  An attempt that sees a block-header
    failure records its own number; once the call has rolled back, no later
    attempt changes the pinned block, so that over the whole call the
    pinned block is the initial one or exactly one below it. *)
Theorem rollback_once fn inputs totalCalls :
  (forall s n k,
     rollback this = true -> blockHeaderRolledBack s = false ->
     blockHeaderRetryAttemptNumber s = Some k -> 0 < k < n ->
     (exists f, In f (failuresOf (fst (executed fn s)))
                /\ class (reasonOf f) = ProviderBlockHeaderError) ->
     truthy (pinnedBlock s) = true ->
     safeBlocks (fst (executed fn s)) ->
     let s' := fst (attempt fn inputs totalCalls s n) in
     pinnedBlock s' = BlockNum (await (pinnedBlock s) - 1)
     /\ blockHeaderRolledBack s' = true
     /\ quoteStates s' = pendingStates inputs (multicallChunk s'))
  /\ (forall s n,
        (exists f, In f (failuresOf (fst (executed fn s)))
                   /\ class (reasonOf f) = ProviderBlockHeaderError) ->
        safeBlocks (fst (executed fn s)) ->
        blockHeaderRetryAttemptNumber (fst (attempt fn inputs totalCalls s n))
        = Some n)
  /\ (forall s n,
        blockHeaderRolledBack s = true ->
        let s' := fst (attempt fn inputs totalCalls s n) in
        pinnedBlock s' = pinnedBlock s /\ blockHeaderRolledBack s' = true)
  /\ (forall retriesLeft n s,
        truthy (pinnedBlock s) = true ->
        let s' := fst (retry fn inputs totalCalls retriesLeft n s) in
        (blockHeaderRolledBack s = true -> pinnedBlock s' = pinnedBlock s)
        /\ (blockHeaderRolledBack s = false ->
            pinnedBlock s' = pinnedBlock s
            \/ pinnedBlock s' = BlockNum (await (pinnedBlock s) - 1))).
Proof.
  split; [|split; [|split]].
  - intros s n k Hr Hb Hk Hkn (f & Hin & Hc) Ht Hsafe s'. subst s'.
    destruct (safeBlocks_validated _ totalCalls (gasLimitOverride s) Hsafe)
      as [o Hval].
    rewrite (attempt_validated _ _ _ _ _ _ Hval). cbv zeta. cbn [fst].
    unfold control.
    destruct (joined_control_fields fn s n) as (_ & _ & _ & J4 & J5 & J6 & _).
    destruct (fold_rollback_fires n k
                (map reasonOf (failuresOf (fst (executed fn s)))) Hr Hkn
                (joined fn s n)
                (blockConflict (successesOf (fst (executed fn s))) totalCalls
                   (gasLimitOverride (joined fn s n))))
      as (F1 & F2 & F3).
    { congruence. }
    { congruence. }
    { exists (reasonOf f). split; [apply in_map; exact Hin|exact Hc]. }
    rewrite F3. cbn [pinnedBlock blockHeaderRolledBack quoteStates
                      multicallChunk set_quoteStates].
    rewrite J4, Ht in F1. auto.
  - intros s n (f & Hin & Hc) Hsafe.
    destruct (safeBlocks_validated _ totalCalls (gasLimitOverride s) Hsafe)
      as [o Hval].
    rewrite (attempt_validated _ _ _ _ _ _ Hval). cbv zeta. cbn [fst].
    unfold control.
    match goal with
    | |- context [fold_left ?h ?l ?a] =>
        pose proof (fold_header_records n l (fst a) (snd a)) as H;
        cbn [fst snd] in H;
        destruct (fold_left h l a) as [s2 ra] eqn:E
    end.
    cbn [fst snd] in *.
    assert (blockHeaderRetryAttemptNumber s2 = Some n) as K.
    { apply H. right. exists (reasonOf f).
      split; [apply in_map; exact Hin|exact Hc]. }
    destruct ra; exact K.
  - intros s n Hb s'.
    destruct (attempt_pinStep fn inputs totalCalls s n)
      as [[P R]|(R0 & _)]; [|congruence].
    subst s'. split; congruence.
  - intros retriesLeft n s Ht s'. subst s'. rewrite retry_fst.
    destruct (retry_pin fn inputs totalCalls retriesLeft n s Ht) as [A B].
    split; intros Hb.
    + apply A. exact Hb.
    + destruct (B Hb) as [P|[_ P]]; auto.
Qed.


(** *** Block conflicts *)

Lemma failuresOf_In l i e r :
  In (i, e, r) (failuresOf l) <-> In (Failed i e r) l.
Proof.
  unfold failuresOf. rewrite in_flat_map. split.
  - intros (q & Hq & Hin). destruct q; simpl in Hin; try tauto.
    destruct Hin as [Heq|[]]. injection Heq as <- <- <-. exact Hq.
  - intros Hin. exists (Failed i e r). split; [exact Hin|now left].
Qed.

Lemma successesOf_In l i r :
  In (i, r) (successesOf l) <-> In (Success i r) l.
Proof.
  unfold successesOf. rewrite in_flat_map. split.
  - intros (q & Hq & Hin). destruct q; simpl in Hin; try tauto.
    destruct Hin as [Heq|[]]. injection Heq as <- <-. exact Hq.
  - intros Hin. exists (Success i r). split; [exact Hin|now left].
Qed.

Lemma noConflict_failures l :
  Forall noConflictReason l ->
  forall e, In e (map reasonOf (failuresOf l)) -> class e <> BlockConflictError.
Proof.
  intros Hall e He. apply in_map_iff in He.
  destruct He as ([[i e'] r] & <- & Hin). apply failuresOf_In in Hin.
  rewrite Forall_forall in Hall. exact (Hall _ Hin).
Qed.

Lemma handleFailure_conflictArm n s ra e :
  class e <> BlockConflictError ->
  let s' := fst (handleFailure n (s, ra) e) in
  haveRetriedForBlockConflictError s' = haveRetriedForBlockConflictError s
  /\ (In QuoteBlockConflictErrorRetry (metrics s') ->
      In QuoteBlockConflictErrorRetry (metrics s)).
Proof.
  intros Hc. handle_cases; split; auto; intros Hin;
    apply in_app_or in Hin; destruct Hin as [Hin|[Hin|[]]];
    auto; discriminate.
Qed.

Lemma fold_conflictArm n l :
  (forall e, In e l -> class e <> BlockConflictError) ->
  forall s ra,
    let s' := fst (fold_left (handleFailure n) l (s, ra)) in
    haveRetriedForBlockConflictError s' = haveRetriedForBlockConflictError s
    /\ (In QuoteBlockConflictErrorRetry (metrics s') ->
        In QuoteBlockConflictErrorRetry (metrics s)).
Proof.
  induction l as [|e l IH]; intros Hall s ra; cbn [fold_left]; [auto|].
  pose proof (handleFailure_conflictArm n s ra e (Hall e (or_introl eq_refl)))
    as [H1 H2].
  destruct (handleFailure n (s, ra) e) as [s1 ra1]. cbn [fst] in H1, H2.
  destruct (IH (fun e' He' => Hall e' (or_intror He')) s1 ra1) as [I1 I2].
  split; [congruence|auto].
Qed.

Lemma pendingStates_Forall (P : QuoteBatchState -> Prop) inputs chunkSize :
  (forall i, P (Pending i)) -> Forall P (pendingStates inputs chunkSize).
Proof.
  intros HP. unfold pendingStates. apply Forall_forall. intros q Hq.
  apply in_map_iff in Hq. destruct Hq as (i & <- & _). apply HP.
Qed.

Lemma executed_noConflict fn s :
  Forall noConflictReason (quoteStates s) ->
  Forall noConflictReason (fst (executed fn s)).
Proof.
  apply (settles_Forall noConflictReason fn s _ _ _
           (executeBatch_noConflict fn s _) (executed_settles fn s)).
Qed.

Lemma attempt_conflictArm fn inputs totalCalls s n :
  conflictArmUnused s ->
  conflictArmUnused (fst (attempt fn inputs totalCalls s n)).
Proof.
  intros (Hflag & Hmet & Hall).
  pose proof (executed_noConflict fn s Hall) as Hex.
  destruct (joined_control_fields fn s n)
    as (_ & _ & _ & _ & _ & _ & J7 & J8 & J9).
  validate_cases; cbn [fst].
  { unfold conflictArmUnused. rewrite J7, J8, J9. repeat split; assumption. }
  unfold control.
  match goal with
  | |- context [fold_left ?h ?l ?a] =>
      pose proof (fold_conflictArm n l (noConflict_failures _ Hex)
                    (fst a) (snd a)) as [F1 F2];
      pose proof (fold_handle_quoteStates n l (fst a) (snd a)) as F3;
      cbn [fst snd] in F1, F2, F3;
      destruct (fold_left h l a) as [s2 ra]
  end.
  cbn [fst snd] in *. rewrite J7 in F1. rewrite J8 in F2. rewrite J9 in F3.
  destruct ra; unfold conflictArmUnused;
    cbn [haveRetriedForBlockConflictError metrics quoteStates set_quoteStates].
  - repeat split; [congruence|auto|].
    apply pendingStates_Forall. intros i. exact I.
  - repeat split; [congruence|auto|]. rewrite F3. exact Hex.
Qed.

Lemma retry_conflictArm fn inputs totalCalls retriesLeft :
  forall n s,
    conflictArmUnused s ->
    conflictArmUnused (fst (attempts fn inputs totalCalls retriesLeft n s)).
Proof.
  induction retriesLeft as [|r IH]; intros n s Hs; cbn [attempts];
    pose proof (attempt_conflictArm fn inputs totalCalls s n Hs) as H;
    destruct (attempt fn inputs totalCalls s n) as [s1 out]; cbn [fst] in H.
  - destruct out; exact H.
  - destruct out; [exact H|]. apply IH. exact H.
Qed.

Lemma initialState_conflictArm inputs cfg :
  conflictArmUnused (initialState inputs cfg).
Proof.
  unfold conflictArmUnused, initialState.
  cbn [haveRetriedForBlockConflictError metrics quoteStates].
  repeat split; [intros []|].
  apply pendingStates_Forall. intros i. exact I.
Qed.

Lemma putMetric_conflictArm m s :
  m <> QuoteBlockConflictErrorRetry ->
  conflictArmUnused s -> conflictArmUnused (putMetric m s).
Proof.
  intros Hm (H1 & H2 & H3). unfold conflictArmUnused, putMetric.
  cbn [haveRetriedForBlockConflictError metrics quoteStates].
  repeat split; [exact H1| |exact H3].
  intros Hin. apply in_app_or in Hin. destruct Hin as [Hin|[Hin|[]]];
    [auto|congruence].
Qed.

(** C8: the executor never records a batch as [Failed] with a
    [BlockConflictError]; a conflict found by [validateBlockNumbers] only
    sets [retryAll], which re-plans the batches as [Pending].  So along every
    invocation, after any number of attempts, no batch state carries a
    [BlockConflictError], the controller's arm for it has not run (its flag
    is still unset) and the [QuoteBlockConflictErrorRetry] metric has not
    been emitted. *)
Theorem block_conflict_arm_unreachable :
  (forall fn s total idx callNo inputs,
     noConflictReason (executeBatch fn s total idx callNo inputs))
  /\ (forall fn inputs totalCalls s n,
        blockConflict (successesOf (fst (executed fn s))) totalCalls
          (gasLimitOverride s) = true ->
        let s' := fst (attempt fn inputs totalCalls s n) in
        quoteStates s' = pendingStates inputs (multicallChunk s'))
  /\ (forall fn inputs totalCalls s n,
        conflictArmUnused s ->
        Forall noConflictReason (fst (executed fn s))
        /\ conflictArmUnused (fst (attempt fn inputs totalCalls s n)))
  /\ (forall fn inputs totalCalls retriesLeft n s,
        conflictArmUnused s ->
        conflictArmUnused (fst (retry fn inputs totalCalls retriesLeft n s)))
  /\ (forall amounts routes fn cfg,
        conflictArmUnused (fst (runAttempts amounts routes fn cfg))
        /\ conflictArmUnused (fst (getQuotesManyData amounts routes fn cfg))).
Proof.
  split; [|split; [|split; [|split]]].
  - intros. apply executeBatch_noConflict.
  - intros fn inputs totalCalls s n Hbc s'. subst s'.
    validate_cases; cbn [fst].
    { unfold blockConflict in Hbc. rewrite Hval in Hbc. discriminate. }
    unfold control.
    destruct (joined_control_fields fn s n) as (_ & _ & J3 & _).
    rewrite J3, Hbc. rewrite fold_handle_retryAll. reflexivity.
  - intros fn inputs totalCalls s n Hs. split.
    + apply executed_noConflict. apply Hs.
    + apply attempt_conflictArm. exact Hs.
  - intros. rewrite retry_fst. apply retry_conflictArm. assumption.
  - intros amounts routes fn cfg.
    assert (conflictArmUnused (fst (runAttempts amounts routes fn cfg))) as Hr.
    { unfold runAttempts. rewrite retry_fst. apply retry_conflictArm.
      apply initialState_conflictArm. }
    split; [exact Hr|]. unfold getQuotesManyData.
    destruct (runAttempts amounts routes fn cfg) as [s out]. cbn [fst] in Hr.
    destruct out as [qr b|e]; [|exact Hr].
    destruct (processQuoteResults qr routes amounts); cbn [fst]; [exact Hr|].
    repeat (apply putMetric_conflictArm; [discriminate|]). exact Hr.
Qed.


(** ** Layout of the inputs and of the results *)

Lemma flat_map_uniform_length {A B : Type} (f : A -> list B) (k : nat) l :
  (forall a, length (f a) = k) -> length (flat_map f l) = length l * k.
Proof.
  intros Hk. induction l as [|x l IH]; simpl; [reflexivity|].
  rewrite length_app, IH, Hk. reflexivity.
Qed.

Lemma flat_map_uniform_nth {A B : Type} (f : A -> list B) (k : nat) l :
  (forall a, length (f a) = k) ->
  forall i j a,
    nth_error l i = Some a -> j < k ->
    nth_error (flat_map f l) (i * k + j) = nth_error (f a) j.
Proof.
  intros Hk. induction l as [|x l IH]; intros i j a Hi Hj.
  - destruct i; discriminate.
  - destruct i as [|i]; simpl in Hi |- *.
    + injection Hi as ->. apply nth_error_app1. rewrite Hk. exact Hj.
    + rewrite nth_error_app2 by (rewrite Hk; lia).
      rewrite Hk. replace (k + i * k + j - k) with (i * k + j) by lia.
      apply IH; assumption.
Qed.

Lemma encodeInputs_length amounts routes fn :
  length (encodeInputs amounts routes fn) = length routes * length amounts.
Proof.
  unfold encodeInputs. apply flat_map_uniform_length.
  intros route. apply length_map.
Qed.

Lemma encodeInputs_nth amounts routes fn i j route amount :
  nth_error routes i = Some route -> nth_error amounts j = Some amount ->
  nth_error (encodeInputs amounts routes fn) (i * length amounts + j)
  = Some (encodeRouteToPath route (isExactOutput fn),
          HexString.of_N (quotient amount)).
Proof.
  intros Hi Hj. unfold encodeInputs.
  assert (j < length amounts) as Hlt by (apply nth_error_Some; congruence).
  rewrite (flat_map_uniform_nth _ (length amounts) routes) with (a := route);
    [|intros; apply length_map|exact Hi|exact Hlt].
  rewrite nth_error_map, Hj. reflexivity.
Qed.

Lemma chunk_covers {A : Type} (l : list A) (size : Js.num) :
  Js.chunk l size = [] \/ (concat (Js.chunk l size) = l /\ l <> []).
Proof.
  destruct size as [s| |]; simpl.
  - destruct ((length l =? 0) || (s <? 1)) eqn:E; [now left|right].
    apply orb_false_iff in E. destruct E as [E0 E].
    apply Nat.ltb_ge in E. apply Nat.eqb_neq in E0. split.
    + apply slices_concat. apply (ceil_upper (length l) s). lia.
    + intros ->. simpl in E0. congruence.
  - destruct l; [now left|right]. simpl. rewrite app_nil_r.
    split; [reflexivity|discriminate].
  - now left.
Qed.

Lemma executeBatch_answered fn s total idx callNo inputs :
  answered fn (executeBatch fn s total idx callNo inputs).
Proof.
  unfold executeBatch.
  destruct (multicall this callNo _) as [res|msg] eqn:E; [|exact I].
  destruct (validateSuccessRate _ _); [exact I|].
  exists callNo, (pinnedBlock s), (gasLimitOverride s). exact E.
Qed.

Lemma pendingStates_covered fn inputs chunkSize s :
  quoteStates s = pendingStates inputs chunkSize -> covered fn inputs s.
Proof.
  intros Hq. unfold covered. rewrite Hq. split; [|split].
  - apply pendingStates_Forall. intros i. exact I.
  - apply pendingStates_Forall. intros i. exact I.
  - unfold pendingStates, inputsChunked. rewrite map_map. simpl.
    rewrite map_id.
    destruct (chunk_covers inputs
                (normalizedChunk (length inputs) chunkSize)) as [E|E].
    + left. rewrite E. reflexivity.
    + right. exact E.
Qed.

Lemma executed_covered fn inputs s :
  alignedAggregator ->
  covered fn inputs s ->
  Forall aligned (fst (executed fn s))
  /\ Forall (answered fn) (fst (executed fn s))
  /\ (fst (executed fn s) = []
      \/ (concat (map inputsOf (fst (executed fn s))) = inputs
          /\ inputs <> [])).
Proof.
  intros Hagg (Hal & Hans & Hcov).
  pose proof (executed_settles fn s) as Hset. split; [|split].
  - apply (settles_Forall aligned fn s _ _ _
             (fun idx callNo i => executeBatch_aligned fn s _ idx callNo i Hagg)
             Hset Hal).
  - apply (settles_Forall (answered fn) fn s _ _ _
             (executeBatch_answered fn s _) Hset Hans).
  - destruct Hcov as [E|E].
    + left. rewrite E in Hset. inversion Hset. reflexivity.
    + right. rewrite (settles_inputs fn s _ _ _ Hset). exact E.
Qed.

Lemma attempt_covered fn inputs totalCalls s n :
  alignedAggregator ->
  covered fn inputs s ->
  covered fn inputs (fst (attempt fn inputs totalCalls s n)).
Proof.
  intros Hagg Hcov.
  destruct (executed_covered fn inputs s Hagg Hcov) as (Hal & Hans & Hin).
  validate_cases; cbn [fst].
  { unfold covered, joined.
    cbn [quoteStates set_totalCallsMade set_quoteStates].
    split; [|split]; assumption. }
  unfold control.
  match goal with
  | |- context [fold_left ?h ?l ?a] =>
      pose proof (fold_handle_quoteStates n l (fst a) (snd a)) as F3;
      cbn [fst snd] in F3;
      destruct (fold_left h l a) as [s2 ra]
  end.
  cbn [fst snd] in *.
  destruct ra.
  - eapply pendingStates_covered. reflexivity.
  - unfold covered. rewrite F3. cbn [joined quoteStates set_totalCallsMade
      set_quoteStates]. split; [|split]; assumption.
Qed.

(** When nothing has failed and nothing is pending, every batch is a
    success. *)
Lemma all_success_batches fn l :
  failuresOf l = [] -> pendingsOf l = [] ->
  map fst (successesOf l) = map inputsOf l
  /\ (Forall aligned l -> Forall alignedBatch (successesOf l))
  /\ (Forall (answered fn) l -> Forall (answeredBatch fn) (successesOf l)).
Proof.
  unfold failuresOf, pendingsOf, successesOf.
  induction l as [|q l IH]; intros Hf Hp;
    [split; [reflexivity|split; constructor]|].
  simpl in Hf, Hp. apply app_eq_nil in Hf, Hp.
  destruct Hf as [Hf1 Hf2], Hp as [Hp1 Hp2].
  destruct (IH Hf2 Hp2) as (I1 & I2 & I3).
  destruct q as [i r|i e r|i]; try discriminate.
  simpl. split; [now rewrite I1|]. split.
  - intros Hal. inversion Hal as [|? ? Hq Hl]; subst.
    constructor; [exact Hq|exact (I2 Hl)].
  - intros Hal. inversion Hal as [|? ? Hq Hl]; subst.
    constructor; [exact Hq|exact (I3 Hl)].
Qed.

Lemma alignedBatch_lengths batches :
  Forall alignedBatch batches ->
  length (flat_map results (map snd batches))
  = length (concat (map fst batches)).
Proof.
  induction 1 as [|[i r] l Hb _ IH]; [reflexivity|].
  simpl. rewrite !length_app, IH. unfold alignedBatch in Hb. simpl in Hb.
  now rewrite Hb.
Qed.

(** What a resolving attempt returns. *)
Lemma attempt_resolve_eq fn inputs totalCalls s n s' quoteResults block :
  attempt fn inputs totalCalls s n = (s', Resolve quoteResults block) ->
  let states := fst (executed fn s) in
  failuresOf states = []
  /\ quoteResults = flat_map results (map snd (successesOf states))
  /\ (exists o,
        validateBlockNumbers (successesOf states) totalCalls
          (gasLimitOverride s) = inr o)
  /\ exists i r rest, successesOf states = (i, r) :: rest
                      /\ block = blockNumber r.
Proof.
  intros H states. rewrite attempt_unfold in H. cbv zeta in H.
  fold states in H.
  destruct (validateBlockNumbers (successesOf states) totalCalls
              (gasLimitOverride s)) as [thrown|o]; [discriminate|].
  injection H as _ H.
  destruct (failuresOf states) as [|f fs]; [|discriminate].
  split; [reflexivity|]. cbn [length Nat.ltb Nat.leb] in H.
  destruct (successesOf states) as [|[i r] rest]; [discriminate|].
  cbn [map snd] in H. injection H as <- <-.
  split; [reflexivity|]. split; [now exists o|]. now exists i, r, rest.
Qed.

Lemma attempt_resolve fn inputs totalCalls s n s' quoteResults block :
  alignedAggregator ->
  covered fn inputs s ->
  attempt fn inputs totalCalls s n = (s', Resolve quoteResults block) ->
  resolvedFrom fn inputs quoteResults.
Proof.
  intros Hagg Hcov H.
  destruct (executed_covered fn inputs s Hagg Hcov) as (Hal & Hans & Hin).
  pose proof (settles_no_pending _ _ _ _ _ (executed_settles fn s)) as Hp.
  destruct (attempt_resolve_eq _ _ _ _ _ _ _ _ H)
    as (Hf & -> & _ & i & r & rest & Hs & _).
  destruct (all_success_batches fn _ Hf Hp) as (B1 & B2 & B3).
  destruct Hin as [E|[E Hne]].
  - rewrite E in Hs. discriminate.
  - exists (successesOf (fst (executed fn s))).
    split; [rewrite B1; exact E|]. split; [reflexivity|].
    split; [exact (B2 Hal)|]. split; [exact (B3 Hans)|exact Hne].
Qed.

Lemma retry_resolve fn inputs totalCalls retriesLeft :
  forall n s s' quoteResults block,
    alignedAggregator ->
    covered fn inputs s ->
    attempts fn inputs totalCalls retriesLeft n s
    = (s', Resolve quoteResults block) ->
    resolvedFrom fn inputs quoteResults.
Proof.
  induction retriesLeft as [|r IH]; intros n s s' qr b Hagg Hcov;
    cbn [attempts];
    pose proof (attempt_covered fn inputs totalCalls s n Hagg Hcov) as Hc1;
    destruct (attempt fn inputs totalCalls s n) as [s1 out] eqn:E;
    cbn [fst] in Hc1.
  - destruct out as [qr1 b1|e]; intros H; [|discriminate].
    injection H as <- <- <-.
    exact (attempt_resolve _ _ _ _ _ _ _ _ Hagg Hcov E).
  - destruct out as [qr1 b1|e]; intros H.
    + injection H as <- <- <-.
      exact (attempt_resolve _ _ _ _ _ _ _ _ Hagg Hcov E).
    + exact (IH (S n) s1 s' qr b Hagg Hc1 H).
Qed.

Lemma resolvedFrom_length fn inputs quoteResults :
  resolvedFrom fn inputs quoteResults ->
  length quoteResults = length inputs /\ inputs <> [].
Proof.
  intros (batches & Hin & -> & Hal & _ & Hne). split; [|exact Hne].
  rewrite (alignedBatch_lengths batches Hal), Hin. reflexivity.
Qed.

(** The result at a position is the aggregator's answer for the input at
    that position: the call was made for a slice of the inputs that holds
    the position. *)
Lemma resolvedFrom_position fn inputs quoteResults :
  resolvedFrom fn inputs quoteResults ->
  forall position input,
    nth_error inputs position = Some input ->
    exists callNo block gasLimit offset chunk res k result,
      multicall this callNo
        (mkParams (quoterAddress this) fn chunk block gasLimit) = Returns res
      /\ chunk = firstn (length chunk) (skipn offset inputs)
      /\ position = offset + k
      /\ nth_error chunk k = Some input
      /\ nth_error (results res) k = Some result
      /\ nth_error quoteResults position = Some result.
Proof.
  intros (batches & <- & -> & Hal & Hans & _).
  induction batches as [|[chunk res] batches IH]; intros position input Hp.
  - destruct position; discriminate.
  - inversion Hal as [|? ? Hb Hal']; subst.
    inversion Hans as [|? ? Ha Hans']; subst.
    unfold alignedBatch in Hb. cbn [fst snd] in Hb.
    cbn [map fst snd concat flat_map] in *.
    destruct (Nat.lt_ge_cases position (length chunk)) as [L|L].
    + rewrite nth_error_app1 in Hp by exact L.
      destruct Ha as (callNo & block & gasLimit & Ha). cbn [fst snd] in Ha.
      destruct (nth_error (results res) position) as [result|] eqn:E;
        [|apply nth_error_None in E; lia].
      exists callNo, block, gasLimit, 0, chunk, res, position, result.
      split; [exact Ha|].
      split; [cbn [skipn]; rewrite firstn_app, firstn_all, Nat.sub_diag;
              cbn [firstn]; now rewrite app_nil_r|].
      split; [reflexivity|].
      split; [exact Hp|]. split; [exact E|].
      rewrite nth_error_app1 by lia. exact E.
    + rewrite nth_error_app2 in Hp by exact L.
      destruct (IH Hal' Hans' _ _ Hp)
        as (callNo & block & gasLimit & offset & c & r & k & result
            & H1 & H2 & H3 & H4 & H5 & H6).
      exists callNo, block, gasLimit, (length chunk + offset), c, r, k, result.
      split; [exact H1|].
      split.
      { rewrite skipn_app, skipn_all2 by lia.
        replace (length chunk + offset - length chunk) with offset by lia.
        exact H2. }
      split; [lia|].
      split; [exact H4|]. split; [exact H5|].
      rewrite nth_error_app2 by lia. rewrite Hb. exact H6.
Qed.

(** ** The result assembler *)

Lemma mapi_from_nth_error {A B : Type} (f : A -> nat -> B) l :
  forall k i,
    nth_error (Js.mapi_from k f l) i
    = option_map (fun x => f x (k + i)) (nth_error l i).
Proof.
  induction l as [|x l IH]; intros k i; simpl.
  - destruct i; reflexivity.
  - destruct i as [|i]; simpl; [now rewrite Nat.add_0_r|].
    rewrite IH. now rewrite Nat.add_succ_r.
Qed.

Lemma mapi_from_length {A B : Type} (f : A -> nat -> B) l :
  forall k, length (Js.mapi_from k f l) = length l.
Proof. induction l as [|x l IH]; intros k; simpl; [reflexivity|now rewrite IH]. Qed.

Lemma ceil_mul (r a : nat) : 0 < a -> ceil (r * a) a = r.
Proof.
  intros Ha. apply Nat.le_antisymm.
  - apply ceil_spec; [exact Ha|lia].
  - pose proof (ceil_upper (r * a) a Ha). nia.
Qed.

(** A traversal that returns has applied the callback to every element. *)
Lemma mapiM_from_inr {A B : Type} (f : A -> nat -> JsError + B)
  (g : A -> nat -> B) :
  (forall x i y, f x i = inr y -> y = g x i) ->
  forall l k ys, mapiM_from k f l = inr ys -> ys = Js.mapi_from k g l.
Proof.
  intros Hfg. induction l as [|x l IH]; intros k ys H; cbn [mapiM_from] in H.
  - injection H as <-. reflexivity.
  - destruct (f x k) as [e|y] eqn:E; [discriminate|]. cbn [bind] in H.
    destruct (mapiM_from (S k) f l) as [e|ys'] eqn:E'; [discriminate|].
    cbn [bind] in H. injection H as <-. cbn [Js.mapi_from].
    rewrite (Hfg x k y E), (IH (S k) ys' E'). reflexivity.
Qed.


Lemma quoteOf_inr amounts route quoteResult index record :
  quoteOf amounts route quoteResult index = inr record ->
  record = toAmountQuote amounts quoteResult index.
Proof.
  unfold quoteOf. destruct quoteResult as [t|rd].
  - intros H. injection H as <-. reflexivity.
  - destruct (match nth_error amounts index with
              | Some a => toFixed a 2
              | None => _
              end) as [e|amountStr]; [discriminate|].
    cbn [bind]. destruct (routeToString route) as [e|routeStr];
      [discriminate|].
    cbn [bind]. intros H. injection H as <-. reflexivity.
Qed.

(** What [processQuoteResults] returns when it returns. *)
Lemma processQuoteResults_inr quoteResults routes amounts routesQuotes :
  processQuoteResults quoteResults routes amounts = inr routesQuotes ->
  routesQuotes
  = Js.mapi
      (fun chunk i =>
         (nth_error routes i, Js.mapi (toAmountQuote amounts) chunk))
      (Js.chunk quoteResults (Js.Fin (length amounts))).
Proof.
  unfold processQuoteResults, mapiM, Js.mapi. cbv zeta.
  apply mapiM_from_inr. intros chunk i y.
  destruct (mapiM_from 0 (quoteOf amounts (nth_error routes i)) chunk)
    as [e|quotes] eqn:E; [discriminate|].
  cbn [bind]. intros H. injection H as <-. f_equal.
  apply (mapiM_from_inr _ _ (quoteOf_inr amounts (nth_error routes i))
           chunk 0 quotes E).
Qed.

Lemma processQuoteResults_length quoteResults routes amounts routesQuotes :
  processQuoteResults quoteResults routes amounts = inr routesQuotes ->
  0 < length amounts ->
  length quoteResults = length routes * length amounts ->
  quoteResults <> [] ->
  length routesQuotes = length routes.
Proof.
  intros H Ha Hlen Hne. rewrite (processQuoteResults_inr _ _ _ _ H).
  unfold Js.mapi.
  rewrite mapi_from_length, chunk_Fin by assumption.
  rewrite slices_length, Hlen. apply ceil_mul. exact Ha.
Qed.

Lemma processQuoteResults_nth quoteResults routes amounts routesQuotes i :
  processQuoteResults quoteResults routes amounts = inr routesQuotes ->
  0 < length amounts ->
  length quoteResults = length routes * length amounts ->
  quoteResults <> [] ->
  i < length routes ->
  nth_error routesQuotes i
  = Some (nth_error routes i,
          Js.mapi (toAmountQuote amounts)
            (firstn (length amounts)
               (skipn (i * length amounts) quoteResults))).
Proof.
  intros H Ha Hlen Hne Hi. rewrite (processQuoteResults_inr _ _ _ _ H).
  unfold Js.mapi at 1.
  rewrite mapi_from_nth_error, chunk_Fin by assumption.
  rewrite Hlen, ceil_mul by exact Ha.
  rewrite slices_nth_error by exact Hi. reflexivity.
Qed.

(** C7 (as amended): when the aggregator answers every call with one result
    per input and the call succeeds for [R] routes and [A] amounts, the flat
    input vector and the flat result vector have [R * A] elements, the input
    at position [i * A + j] is the pair for route [i] and amount [j], the
    flat results are those of the batches in batch order, and the result at
    a position is the aggregator's answer for the input at that position:
    some call was made for a chunk that is a slice of the input vector and
    holds the position, and the answer holds the result at the index that
    the input has in the chunk.  The assembler returns [R]
    pairs in route order: the pair at [i] holds route [i] and [A] records,
    the record at [j] being built from amount [j] and the result at position
    [i * A + j]; it keeps the amount, carries the four components of a
    successful result and has all four fields null for an unsuccessful
    one. *)
Theorem quotes_positionally_aligned amounts routes fn cfg s'
  routesWithQuotes block :
  alignedAggregator ->
  getQuotesManyData amounts routes fn cfg
  = (s', Fulfilled routesWithQuotes block) ->
  let R := length routes in
  let A := length amounts in
  let inputs := encodeInputs amounts routes fn in
  length inputs = R * A
  /\ (forall i j route amt,
        nth_error routes i = Some route -> nth_error amounts j = Some amt ->
        nth_error inputs (i * A + j)
        = Some (encodeRouteToPath route (isExactOutput fn),
                HexString.of_N (quotient amt)))
  /\ exists s quoteResults,
       runAttempts amounts routes fn cfg = (s, Resolve quoteResults block)
       /\ resolvedFrom fn inputs quoteResults
       /\ length quoteResults = R * A
       /\ (forall position input,
             nth_error inputs position = Some input ->
             exists callNo pinned gasLimit offset chunk res k result,
               multicall this callNo
                 (mkParams (quoterAddress this) fn chunk pinned gasLimit)
               = Returns res
               /\ chunk = firstn (length chunk) (skipn offset inputs)
               /\ position = offset + k
               /\ nth_error chunk k = Some input
               /\ nth_error (results res) k = Some result
               /\ nth_error quoteResults position = Some result)
       /\ processQuoteResults quoteResults routes amounts
          = inr routesWithQuotes
       /\ length routesWithQuotes = R
       /\ forall i j route amt,
            nth_error routes i = Some route ->
            nth_error amounts j = Some amt ->
            exists quotes result,
              nth_error routesWithQuotes i = Some (Some route, quotes)
              /\ length quotes = A
              /\ nth_error quoteResults (i * A + j) = Some result
              /\ nth_error quotes j = Some (toAmountQuote amounts result j)
              /\ amount (toAmountQuote amounts result j) = Some amt
              /\ (success result = false ->
                  toAmountQuote amounts result j
                  = mkQuote (Some amt) None None None None)
              /\ (forall q sqrtPrices ticks gas,
                    result = ResultOk (q, sqrtPrices, ticks, gas) ->
                    toAmountQuote amounts result j
                    = mkQuote (Some amt) (Some q) (Some sqrtPrices)
                        (Some ticks) (Some gas)).
Proof.
  intros Hagg Hcall R A inputs.
  split; [apply encodeInputs_length|].
  split; [intros; apply encodeInputs_nth; assumption|].
  unfold getQuotesManyData in Hcall.
  destruct (runAttempts amounts routes fn cfg) as [s out] eqn:Erun.
  destruct out as [quoteResults b|e]; [|discriminate].
  destruct (processQuoteResults quoteResults routes amounts)
    as [thrown|routesQuotes] eqn:Eproc; [discriminate|].
  injection Hcall as _ <- <-.
  exists s, quoteResults. split; [reflexivity|].
  unfold runAttempts in Erun.
  assert (snd (attempts fn (encodeInputs amounts routes fn)
                 (length (quoteStates
                            (initialState (encodeInputs amounts routes fn)
                               cfg)))
                 (retries this) 1
                 (initialState (encodeInputs amounts routes fn) cfg))
          = Resolve quoteResults b) as Elast.
  { apply retry_resolves. rewrite Erun. reflexivity. }
  destruct (attempts fn _ _ (retries this) 1 _) as [s1 out1] eqn:Eatt.
  cbn [snd] in Elast. subst out1.
  pose proof (retry_resolve _ _ _ _ _ _ _ _ _ Hagg
                (pendingStates_covered fn _ _
                   (initialState (encodeInputs amounts routes fn) cfg) eq_refl)
                Eatt) as Hres.
  fold inputs in Hres. split; [exact Hres|].
  destruct (resolvedFrom_length _ _ _ Hres) as [Hlen Hne].
  assert (length quoteResults = R * A) as HRA
      by (rewrite Hlen; apply encodeInputs_length).
  assert (0 < R * A) as Hpos.
  { rewrite <- HRA, Hlen. destruct inputs; [congruence|simpl; lia]. }
  assert (0 < A) as HA by nia.
  assert (quoteResults <> []) as Hqne.
  { intros ->. simpl in HRA. lia. }
  split; [exact HRA|].
  split; [exact (resolvedFrom_position _ _ _ Hres)|].
  split; [exact Eproc|].
  split; [apply (processQuoteResults_length _ _ _ _ Eproc); assumption|].
  intros i j route amt Hi Hj.
  assert (i < R) as HiR by (apply nth_error_Some; congruence).
  assert (j < A) as HjA by (apply nth_error_Some; congruence).
  assert (i * A + j < length quoteResults) as Hidx by (rewrite HRA; nia).
  destruct (nth_error quoteResults (i * A + j)) as [result|] eqn:Eres;
    [|apply nth_error_None in Eres; lia].
  exists (Js.mapi (toAmountQuote amounts)
            (firstn A (skipn (i * A) quoteResults))), result.
  split; [rewrite (processQuoteResults_nth _ _ _ _ _ Eproc) by assumption;
          now rewrite Hi|].
  split.
  { unfold Js.mapi. rewrite mapi_from_length, length_firstn, length_skipn.
    nia. }
  split; [reflexivity|].
  split.
  { unfold Js.mapi. rewrite mapi_from_nth_error, nth_error_firstn.
    destruct (Nat.ltb_spec j A); [|lia].
    rewrite nth_error_skipn, Eres. reflexivity. }
  unfold toAmountQuote. rewrite Hj.
  destruct result as [[[[q sq] t] g]|rd]; simpl.
  - split; [reflexivity|]. split; [discriminate|].
    intros ? ? ? ? H. injection H as <- <- <- <-. reflexivity.
  - split; [reflexivity|]. split; [reflexivity|]. discriminate.
Qed.


(** ** Requests without routes or without amounts *)

Lemma encodeInputs_empty amounts routes fn :
  routes = [] \/ amounts = [] -> encodeInputs amounts routes fn = [].
Proof.
  intros [->| ->]; [reflexivity|]. unfold encodeInputs.
  induction routes as [|r routes IH]; simpl; [reflexivity|exact IH].
Qed.

Lemma mainErrorFrom_same e l :
  Forall (eq e) l ->
  forall seen count, mainErrorFrom seen e count l = e.
Proof.
  induction 1 as [|x l <- _ IH]; intros seen count; cbn [mainErrorFrom];
    [reflexivity|].
  destruct (count <=? _); apply IH.
Qed.

Lemma mainError_same errors e : Forall (eq e) errors -> mainError errors e = e.
Proof.
  intros H. unfold mainError. apply mainErrorFrom_same.
  apply Forall_app. split; [exact H|]. constructor; [reflexivity|constructor].
Qed.

Lemma retry_without_batches fn inputs totalCalls retriesLeft :
  forall errors n s,
    Forall (eq (mkError TypeError
                  "Cannot read properties of undefined (reading 'blockNumber')"))
      errors ->
    quoteStates s = [] ->
    let r := retryFrom errors fn inputs totalCalls retriesLeft n s in
    snd r = Throw (mkError TypeError
                     "Cannot read properties of undefined (reading 'blockNumber')")
    /\ quoteStates (fst r) = []
    /\ totalCallsMade (fst r) = totalCallsMade s.
Proof.
  assert (forall n s,
             quoteStates s = [] ->
             attempt fn inputs totalCalls s n
             = (set_totalCallsMade (totalCallsMade s)
                  (set_quoteStates [] (set_finalAttemptNumber n s)),
                Throw (mkError TypeError
                         "Cannot read properties of undefined (reading 'blockNumber')")))
    as Hattempt.
  { intros n s Hq. rewrite attempt_unfold. cbv zeta.
    unfold joined, control, executed. rewrite Hq. reflexivity. }
  induction retriesLeft as [|r IH]; intros errors n s He Hq;
    cbn [retryFrom]; rewrite (Hattempt n s Hq).
  - cbn [fst snd]. rewrite (mainError_same _ _ He). repeat split.
  - assert (Forall (eq (mkError TypeError
                          "Cannot read properties of undefined (reading 'blockNumber')"))
              (errors ++ [mkError TypeError
                            "Cannot read properties of undefined (reading 'blockNumber')"]))
      as He'.
    { apply Forall_app. split; [exact He|].
      constructor; [reflexivity|constructor]. }
    destruct (IH _ (S n)
                (set_totalCallsMade (totalCallsMade s)
                   (set_quoteStates [] (set_finalAttemptNumber n s)))
                He' eq_refl) as (I1 & I2 & I3).
    repeat split; assumption.
Qed.

Lemma getQuotesManyData_empty amounts routes fn cfg :
  routes = [] \/ amounts = [] ->
  let r := getQuotesManyData amounts routes fn cfg in
  snd r = Rejected (mkError TypeError
                      "Cannot read properties of undefined (reading 'blockNumber')")
  /\ totalCallsMade (fst r) = 0.
Proof.
  intros Hempty r. subst r. unfold getQuotesManyData, runAttempts.
  rewrite (encodeInputs_empty amounts routes fn Hempty).
  assert (quoteStates (initialState [] cfg) = []) as Hq.
  { unfold initialState, pendingStates, inputsChunked. cbn [quoteStates].
    destruct (normalizedChunk (length (@nil (string * string)))
                (bp_multicallChunk (batchParams this))); reflexivity. }
  pose proof (retry_without_batches fn []
                (length (quoteStates (initialState [] cfg)))
                (retries this) [] 1 (initialState [] cfg) (Forall_nil _) Hq)
    as (R1 & R2 & R3).
  fold (retry fn [] (length (quoteStates (initialState [] cfg)))
          (retries this) 1 (initialState [] cfg)) in R1, R2, R3.
  destruct (retry fn [] _ (retries this) 1 (initialState [] cfg)) as [s out].
  cbn [fst snd] in *. subst out. cbn [fst snd]. split; [reflexivity|].
  rewrite R3. reflexivity.
Qed.

(** C3 (the code departs from it): with no routes or no amounts the input
    vector is empty and no batch is planned; every attempt then reads the
    block number of a first call result that does not exist, and
    [getQuotesManyExactIn] and [getQuotesManyExactOut] are rejected with that
    [TypeError] once the retries are used up.  No aggregator call is issued,
    but no empty result is returned. *)
Theorem empty_request_rejected amounts routes cfg :
  routes = [] \/ amounts = [] ->
  forall r,
    r = getQuotesManyExactIn amounts routes cfg
    \/ r = getQuotesManyExactOut amounts routes cfg ->
    snd r = Rejected (mkError TypeError
                        "Cannot read properties of undefined (reading 'blockNumber')")
    /\ totalCallsMade (fst r) = 0.
Proof.
  intros Hempty r [-> | ->]; apply getQuotesManyData_empty; exact Hempty.
Qed.


(** ** Further properties of the provider *)

(** *** The block-number validator *)

Lemma uniq_from_nil seen l :
  Js.uniq_from seen l = [] <-> (forall x, In x l -> In x seen).
Proof.
  revert seen. induction l as [|y l IH]; intros seen; simpl.
  - split; [intros _ x []|reflexivity].
  - destruct (existsb (Z.eqb y) seen) eqn:E.
    + apply existsb_exists in E. destruct E as (z & Hz & Hyz).
      apply Z.eqb_eq in Hyz. subst z.
      rewrite IH. split.
      * intros H x [<-|Hx]; auto.
      * intros H x Hx. apply H. now right.
    + split; [discriminate|]. intros H. exfalso.
      assert (In y seen) as Hy by (apply H; now left).
      assert (existsb (Z.eqb y) seen = true) as E'.
      { apply existsb_exists. exists y. split; [exact Hy|apply Z.eqb_refl]. }
      congruence.
Qed.

Lemma uniq_single l :
  length (Js.uniq l) = 1 <-> l <> [] /\ exists b, forall x, In x l -> x = b.
Proof.
  unfold Js.uniq. destruct l as [|y l]; simpl.
  - split; [discriminate|intros [H _]; congruence].
  - split.
    + intros H. split; [discriminate|]. exists y.
      assert (Js.uniq_from [y] l = []) as E
          by (destruct (Js.uniq_from [y] l); [reflexivity|discriminate]).
      intros x [<-|Hx]; [reflexivity|].
      destruct (proj1 (uniq_from_nil [y] l) E x Hx) as [<-|[]]. reflexivity.
    + intros [_ (b & Hb)].
      assert (Js.uniq_from [y] l = []) as E.
      { apply uniq_from_nil. intros x Hx. left.
        rewrite (Hb x (or_intror Hx)), (Hb y (or_introl eq_refl)).
        reflexivity. }
      rewrite E. reflexivity.
Qed.

Lemma toNumbers_inl (l : list Z) (thrown : JsError) :
  toNumbers l = inl thrown ->
  exists before b after,
    l = (before ++ b :: after)%list
    /\ Forall (fun x => (Z.abs x < 2 ^ 53)%Z) before
    /\ (2 ^ 53 <= Z.abs b)%Z
    /\ thrown = overflow b.
Proof.
  induction l as [|x l IH]; [discriminate|].
  cbn [toNumbers]. unfold toNumber.
  destruct (Z.ltb_spec (Z.abs x) (2 ^ 53)) as [Hx|Hx]; cbn [bind].
  - destruct (toNumbers l) as [e|ns] eqn:E; cbn [bind]; [|discriminate].
    intros H. injection H as ->.
    destruct (IH eq_refl) as (before & b & after & -> & Hb & Hlarge & ->).
    exists (x :: before), b, after. split; [reflexivity|].
    split; [constructor; assumption|]. split; [exact Hlarge|reflexivity].
  - intros H. injection H as <-. exists [], x, l.
    split; [reflexivity|]. split; [constructor|]. split; [exact Hx|reflexivity].
Qed.


(** [validateBlockNumbers] looks at the block numbers only when there are
    two successful batches or more.  It then throws exactly when one of them
    is not a safe integer, and what it throws is the overflow error of the
    first such number.  It reports nothing exactly when there are fewer than
    two successful batches, or all of them carry one and the same block
    number and that is a safe integer; what it reports is a
    [BlockConflictError]. *)
Theorem validateBlockNumbers_spec successful totalCalls gasLimit :
  let blocks := map (fun q => blockNumber (snd q)) successful in
  let safe := Forall (fun b => (Z.abs b < 2 ^ 53)%Z) blocks in
  let validation := validateBlockNumbers successful totalCalls gasLimit in
  ((exists thrown, validation = inl thrown)
   <-> (1 < length successful /\ ~ safe))
  /\ (forall thrown,
        validation = inl thrown ->
        exists before b after,
          blocks = (before ++ b :: after)%list
          /\ Forall (fun x => (Z.abs x < 2 ^ 53)%Z) before
          /\ (2 ^ 53 <= Z.abs b)%Z
          /\ thrown = overflow b)
  /\ (validation = inr None
      <-> (length successful <= 1
           \/ (safe
               /\ exists b,
                    forall q, In q successful -> blockNumber (snd q) = b)))
  /\ (forall e, validation = inr (Some e) -> class e = BlockConflictError).
Proof.
  intros blocks safe validation. subst validation safe.
  unfold validateBlockNumbers. rewrite map_map. fold blocks.
  destruct (Nat.leb_spec (length successful) 1) as [Hle|Hgt].
  { split; [|split; [|split]].
    - split; [intros [e H]; discriminate|intros [H _]; lia].
    - discriminate.
    - split; [auto|reflexivity].
    - discriminate. }
  destruct (toNumbers blocks) as [thrown|numbers] eqn:E; cbn [bind].
  - destruct (toNumbers_inl _ _ E) as (before & b & after & Hl & Hb & Hlarge & ->).
    assert (~ Forall (fun x => (Z.abs x < 2 ^ 53)%Z) blocks) as Hns.
    { intros Hall. rewrite Hl in Hall. apply Forall_app in Hall.
      destruct Hall as [_ Hall]. inversion Hall; subst. lia. }
    split; [|split; [|split]].
    + split; [intros _; split; [exact Hgt|exact Hns]|].
      intros _. eexists. reflexivity.
    + intros thrown H. injection H as <-.
      exists before, b, after. repeat split; assumption.
    + split; [discriminate|]. intros [Hle|[Hs _]]; [lia|contradiction].
    + discriminate.
  - destruct (toNumbers_inr _ _ E) as [-> Hsafe].
    pose proof (uniq_single blocks) as Hu.
    split; [|split; [|split]].
    + split; [intros [e H]|intros [_ H]; contradiction].
      destruct (length (Js.uniq blocks) =? 1); discriminate.
    + intros thrown H. destruct (length (Js.uniq blocks) =? 1); discriminate.
    + destruct (Nat.eqb_spec (length (Js.uniq blocks)) 1) as [E1|E1].
      * split; [|reflexivity]. intros _. right. split; [exact Hsafe|].
        destruct (proj1 Hu E1) as [_ (b & Hb)]. exists b. intros q Hq.
        apply Hb. apply (in_map (fun x => blockNumber (snd x))). exact Hq.
      * split; [discriminate|]. intros [Hle|[_ (b & Hb)]]; [lia|]. exfalso.
        apply E1. apply Hu. split.
        -- subst blocks. destruct successful; [simpl in Hgt; lia|discriminate].
        -- exists b. intros x Hx. apply in_map_iff in Hx.
           destruct Hx as (q & <- & Hq). exact (Hb q Hq).
    + intros e H. destruct (length (Js.uniq blocks) =? 1); [discriminate|].
      injection H as <-. reflexivity.
Qed.

(** *** What an attempt can end with *)

Lemma settled_all_success l :
  failuresOf l = [] -> pendingsOf l = [] -> length (successesOf l) = length l.
Proof.
  intros Hf Hp.
  destruct (all_success_batches quoteExactInput l Hf Hp) as [H _].
  rewrite <- (length_map fst), H, length_map. reflexivity.
Qed.

(** After the join an attempt first validates the block numbers, and a
    throw of the validator is the throw of the attempt.  Otherwise the
    attempt resolves exactly when no batch has failed and there is at least
    one batch, whether or not the block numbers agree; with a failed batch
    it throws the error that lists the failures, and without any batch the
    [TypeError].  The error for a batch still pending after the join is not
    thrown. *)
Theorem attempt_outcomes fn inputs totalCalls s n :
  let states := fst (executed fn s) in
  let out := snd (attempt fn inputs totalCalls s n) in
  let validation :=
    validateBlockNumbers (successesOf states) totalCalls (gasLimitOverride s) in
  (forall thrown, validation = inl thrown -> out = Throw thrown)
  /\ ((exists quoteResults block, out = Resolve quoteResults block)
      <-> (failuresOf states = [] /\ quoteStates s <> []
           /\ exists o, validation = inr o))
  /\ (failuresOf states <> [] ->
      forall o,
        validation = inr o ->
        out = Throw (mkError PlainError
                       ("Failed to get "
                        ++ Js.show_nat (length (failuresOf states))
                        ++ " quotes. Reasons: "
                        ++ Js.join ", "
                             (map (fun f => className (class (reasonOf f)))
                                (failuresOf states)))))
  /\ (quoteStates s = [] -> exists msg, out = Throw (mkError TypeError msg))
  /\ (forall o,
        validation = inr o ->
        out <> Throw (mkError PlainError
                        "Pending quote after waiting for all promises.")).
Proof.
  intros states out validation. subst out validation.
  rewrite attempt_unfold. cbv zeta. fold states.
  pose proof (executed_settles fn s) as Hset. fold states in Hset.
  pose proof (settles_no_pending _ _ _ _ _ Hset) as Hp.
  pose proof (Forall2_length Hset) as Hlen.
  assert (quoteStates s = [] -> successesOf states = []) as Hnone.
  { intros E. rewrite E in Hlen. destruct states; [reflexivity|].
    simpl in Hlen. lia. }
  destruct (validateBlockNumbers (successesOf states) totalCalls
              (gasLimitOverride s)) as [thrown|o] eqn:Hval; cbn [snd].
  { split; [|split; [|split; [|split]]].
    - intros t H. injection H as <-. reflexivity.
    - split; [intros (qr & b & H); discriminate|].
      intros (_ & _ & o & H). discriminate.
    - intros _ o H. discriminate.
    - intros E. rewrite (Hnone E) in Hval. discriminate.
    - intros o H. discriminate. }
  split; [discriminate|].
  destruct (failuresOf states) as [|f fs] eqn:Ef.
  - cbn [length Nat.ltb Nat.leb].
    pose proof (settled_all_success states Ef Hp) as Hall.
    destruct (successesOf states) as [|[i r] rest] eqn:Es; cbn [map snd].
    + assert (quoteStates s = []) as Hq.
      { simpl in Hall. destruct (quoteStates s); [reflexivity|].
        simpl in Hlen. lia. }
      split; [|split; [|split]].
      * split; [intros (qr & b & H); discriminate|].
        intros (_ & H & _). congruence.
      * congruence.
      * intros _. eexists. reflexivity.
      * discriminate.
    + assert (quoteStates s <> []) as Hq.
      { intros E. rewrite E in Hlen. simpl in Hall, Hlen. lia. }
      split; [|split; [|split]].
      * split.
        -- intros _. split; [reflexivity|]. split; [exact Hq|now exists o].
        -- intros _. eexists. eexists. reflexivity.
      * congruence.
      * congruence.
      * discriminate.
  - cbn [length Nat.ltb Nat.leb].
    split; [|split; [|split]].
    + split; [intros (qr & b & H); discriminate|intros [H _]; discriminate].
    + intros _ o' _. reflexivity.
    + intros E. rewrite E in Hlen. destruct states; [discriminate|].
      simpl in Hlen. lia.
    + intros o' _ H. injection H as H. simpl in H. discriminate.
Qed.


(** *** Attempts and aggregator calls *)








(** *** Metrics *)

Lemma NoDup_snoc {A : Type} (l : list A) (x : A) :
  NoDup l -> ~ In x l -> NoDup (l ++ [x])%list.
Proof.
  intros Hl Hx. apply NoDup_app; [exact Hl|repeat constructor; intros []|].
  intros y Hy [<-|[]]. exact (Hx Hy).
Qed.

Lemma guarded_putMetric (m : Metric) (s s' : LoopState) :
  metricsGuarded s ->
  flagOf m s = Some false ->
  metrics s' = (metrics s ++ [m])%list ->
  flagOf m s' = Some true ->
  (forall m', m' <> m -> flagOf m' s' = flagOf m' s) ->
  metricsGuarded s'.
Proof.
  intros [Hnd Hfl] Hoff Hmet Hon Hsame. unfold metricsGuarded. rewrite Hmet.
  split.
  - apply NoDup_snoc; [exact Hnd|]. intros Hin.
    specialize (Hfl m Hin). congruence.
  - intros m' Hin. apply in_app_or in Hin. destruct Hin as [Hin|[<-|[]]].
    + assert (m' <> m) as Hne.
      { intros ->. specialize (Hfl m Hin). congruence. }
      rewrite (Hsame m' Hne). exact (Hfl m' Hin).
    + exact Hon.
Qed.

Lemma guarded_same (s s' : LoopState) :
  metricsGuarded s ->
  metrics s' = metrics s ->
  (forall m, flagOf m s' = flagOf m s) ->
  metricsGuarded s'.
Proof.
  intros [Hnd Hfl] Hmet Hsame. unfold metricsGuarded. rewrite Hmet.
  split; [exact Hnd|]. intros m Hin. rewrite Hsame. exact (Hfl m Hin).
Qed.

Ltac flag_cases :=
  let m := fresh "m" in
  intros m; destruct m; simpl; intros; congruence.

Lemma handleFailure_guarded n s ra e :
  metricsGuarded s -> metricsGuarded (fst (handleFailure n (s, ra) e)).
Proof.
  intros Hg. unfold handleFailure.
  destruct (class e).
  - destruct (haveRetriedForBlockConflictError s) eqn:F; cbn [fst];
      [exact Hg|].
    apply (guarded_putMetric QuoteBlockConflictErrorRetry s); simpl; auto;
      try congruence; flag_cases.
  - destruct (haveRetriedForSuccessRate s) eqn:F; cbn [fst]; [exact Hg|].
    apply (guarded_putMetric QuoteSuccessRateRetry s); simpl; auto;
      try congruence; flag_cases.
  - assert (metricsGuarded
              (if haveRetriedForBlockHeader s then s
               else set_haveRetriedForBlockHeader true
                      (putMetric QuoteBlockHeaderNotFoundRetry s))) as Hg1.
    { destruct (haveRetriedForBlockHeader s) eqn:F; [exact Hg|].
      apply (guarded_putMetric QuoteBlockHeaderNotFoundRetry s); simpl; auto;
        try congruence; flag_cases. }
    set (s1 := if haveRetriedForBlockHeader s then s
               else set_haveRetriedForBlockHeader true
                      (putMetric QuoteBlockHeaderNotFoundRetry s)) in *.
    cbv zeta.
    destruct (match blockHeaderRetryAttemptNumber s1 with
              | Some k => negb (k =? 0) && (k <? n)
              | None => false
              end && negb (blockHeaderRolledBack s1) && rollback this);
      cbn [fst]; apply (guarded_same s1); auto; flag_cases.
  - destruct (haveRetriedForTimeout s) eqn:F; cbn [fst]; [exact Hg|].
    apply (guarded_putMetric QuoteTimeoutRetry s); simpl; auto;
      try congruence; flag_cases.
  - assert (metricsGuarded
              (if haveRetriedForOutOfGas s then s
               else set_haveRetriedForOutOfGas true
                      (putMetric QuoteOutOfGasExceptionRetry s))) as Hg1.
    { destruct (haveRetriedForOutOfGas s) eqn:F; [exact Hg|].
      apply (guarded_putMetric QuoteOutOfGasExceptionRetry s); simpl; auto;
        try congruence; flag_cases. }
    cbn [fst].
    eapply guarded_same; [exact Hg1|reflexivity|flag_cases].
  - destruct (haveRetriedForUnknownReason s) eqn:F; cbn [fst]; [exact Hg|].
    apply (guarded_putMetric QuoteUnknownReasonRetry s); simpl; auto;
      try congruence; flag_cases.
  - destruct (haveRetriedForUnknownReason s) eqn:F; cbn [fst]; [exact Hg|].
    apply (guarded_putMetric QuoteUnknownReasonRetry s); simpl; auto;
      try congruence; flag_cases.
Qed.

Lemma attempt_guarded fn inputs totalCalls s n :
  metricsGuarded s -> metricsGuarded (fst (attempt fn inputs totalCalls s n)).
Proof.
  intros Hg.
  assert (metricsGuarded (joined fn s n)) as Hj
      by (apply (guarded_same s); auto).
  validate_cases; cbn [fst]; [exact Hj|]. unfold control.
  assert (forall l a, metricsGuarded (fst a) ->
                      metricsGuarded (fst (fold_left (handleFailure n) l a)))
    as Hfold.
  { induction l as [|e l IH]; intros [s0 ra0] H0; cbn [fold_left];
      [exact H0|].
    apply IH. pose proof (handleFailure_guarded n s0 ra0 e H0) as H1.
    destruct (handleFailure n (s0, ra0) e). exact H1. }
  match goal with
  | |- context [fold_left ?h ?l ?a] =>
      pose proof (Hfold l a Hj) as H; destruct (fold_left h l a) as [s2 ra]
  end.
  cbn [fst snd] in *. destruct ra; [|exact H].
  apply (guarded_same s2); auto.
Qed.

Lemma retry_guarded fn inputs totalCalls retriesLeft :
  forall n s,
    metricsGuarded s ->
    metricsGuarded (fst (retry fn inputs totalCalls retriesLeft n s)).
Proof.
  intros n s. rewrite retry_fst. revert n s.
  induction retriesLeft as [|k IH]; intros n s Hg; cbn [attempts];
    pose proof (attempt_guarded fn inputs totalCalls s n Hg) as H;
    destruct (attempt fn inputs totalCalls s n) as [s1 out]; cbn [fst] in H.
  - destruct out; exact H.
  - destruct out; [exact H|]. apply IH. exact H.
Qed.

(** Every metric is emitted at most once per call: each retry metric only
    while its flag is unset, and the five summary metrics only when the call
    is fulfilled, after the retry loop. *)
Theorem metrics_emitted_once amounts routes fn cfg :
  let loop := runAttempts amounts routes fn cfg in
  let r := getQuotesManyData amounts routes fn cfg in
  NoDup (metrics (fst r))
  /\ (forall m, In m (metrics (fst loop)) -> flagOf m (fst loop) = Some true)
  /\ (forall e, snd r = Rejected e -> metrics (fst r) = metrics (fst loop))
  /\ (forall routesWithQuotes block,
        snd r = Fulfilled routesWithQuotes block ->
        metrics (fst r)
        = (metrics (fst loop)
           ++ [QuoteApproxGasUsedPerSuccessfulCall; QuoteNumRetryLoops;
               QuoteTotalCallsToProvider; QuoteExpectedCallsToProvider;
               QuoteNumRetriedCalls])%list).
Proof.
  intros loop r.
  assert (metricsGuarded (fst loop)) as [Hnd Hfl].
  { subst loop. unfold runAttempts. apply retry_guarded.
    split; [constructor|intros m []]. }
  subst r. unfold getQuotesManyData. fold loop.
  destruct loop as [s out]. cbn [fst snd] in *.
  destruct out as [qr b|e]; [|cbn [fst snd]; split; [exact Hnd|]; split;
                              [exact Hfl|]; split; [reflexivity|discriminate]].
  destruct (processQuoteResults qr routes amounts) as [thrown|l];
    cbn [fst snd metrics putMetric].
  - split; [exact Hnd|]. split; [exact Hfl|].
    split; [reflexivity|discriminate].
  - split; [|split; [exact Hfl|split; [discriminate|]]].
    + rewrite <- !app_assoc. cbn [app].
      apply NoDup_app; [exact Hnd| |].
      * repeat constructor; simpl; intuition discriminate.
      * intros m Hin Hm. specialize (Hfl m Hin).
        simpl in Hm.
        destruct Hm as [<-|[<-|[<-|[<-|[<-|[]]]]]]; discriminate.
    + intros _ _ _. rewrite <- !app_assoc. reflexivity.
Qed.


(** *** What the retries never change *)

Lemma retry_rel (R : LoopState -> LoopState -> Prop) fn inputs totalCalls :
  (forall s, R s s) ->
  (forall a b c, R a b -> R b c -> R a c) ->
  (forall s n, R s (fst (attempt fn inputs totalCalls s n))) ->
  forall retriesLeft n s,
    R s (fst (retry fn inputs totalCalls retriesLeft n s)).
Proof.
  intros Hrefl Htrans Hstep retriesLeft n s. rewrite retry_fst. revert n s.
  induction retriesLeft as [|k IH]; intros n s; cbn [attempts];
    pose proof (Hstep s n) as H;
    destruct (attempt fn inputs totalCalls s n) as [s1 out]; cbn [fst] in H.
  - destruct out; exact H.
  - destruct out; [exact H|]. eapply Htrans; [exact H|apply IH].
Qed.

(** After the loop only metrics are added to the state. *)
Lemma getQuotesManyData_state amounts routes fn cfg :
  let s := fst (getQuotesManyData amounts routes fn cfg) in
  let l := fst (runAttempts amounts routes fn cfg) in
  quoteStates s = quoteStates l
  /\ multicallChunk s = multicallChunk l
  /\ gasLimitOverride s = gasLimitOverride l
  /\ pinnedBlock s = pinnedBlock l
  /\ finalAttemptNumber s = finalAttemptNumber l
  /\ totalCallsMade s = totalCallsMade l.
Proof.
  unfold getQuotesManyData.
  destruct (runAttempts amounts routes fn cfg) as [s [qr b|e]];
    [|repeat split].
  destruct (processQuoteResults qr routes amounts); repeat split.
Qed.

(** With rollback disabled no attempt changes the pinned block: every
    aggregator call of the invocation is made at the block pinned at the
    start, which is the caller's block number when one is given and the
    provider's current block otherwise. *)
Theorem pinned_block_kept amounts routes fn cfg :
  rollback this = false ->
  (forall inputs totalCalls retriesLeft n s,
     pinnedBlock (fst (retry fn inputs totalCalls retriesLeft n s))
     = pinnedBlock s)
  /\ pinnedBlock (fst (getQuotesManyData amounts routes fn cfg))
     = match cfg with
       | Some (mkProviderConfig (Some b)) => b
       | _ => BlockNum (getBlockNumber this 0)
       end.
Proof.
  intros Hr.
  assert (forall inputs totalCalls retriesLeft n s,
             pinnedBlock (fst (retry fn inputs totalCalls retriesLeft n s))
             = pinnedBlock s) as Hkeep.
  { intros inputs totalCalls.
    apply (retry_rel (fun a b => pinnedBlock b = pinnedBlock a)).
    - reflexivity.
    - intros a b c H1 H2. congruence.
    - intros s n.
      destruct (attempt_pinStep fn inputs totalCalls s n)
        as [[P _]|(_ & _ & Hr' & _)]; [exact P|congruence]. }
  split; [exact Hkeep|].
  destruct (getQuotesManyData_state amounts routes fn cfg)
    as (_ & _ & _ & -> & _).
  unfold runAttempts. rewrite Hkeep. unfold initialState. cbn [pinnedBlock].
  destruct cfg as [[[b|]]|]; reflexivity.
Qed.

Lemma handleFailure_tuned n s ra e :
  tunedFrom s (fst (handleFailure n (s, ra) e)).
Proof. unfold tunedFrom. handle_cases; split; auto. Qed.

Lemma tunedFrom_trans a b c : tunedFrom a b -> tunedFrom b c -> tunedFrom a c.
Proof.
  unfold tunedFrom. intros [G1 C1] [G2 C2]. split.
  - destruct G2 as [G2|[G2|G2]]; rewrite G2; auto.
  - destruct C2 as [C2|[C2|C2]]; rewrite C2; auto.
Qed.

Lemma tunedFrom_refl s : tunedFrom s s.
Proof. unfold tunedFrom. auto. Qed.

Lemma attempt_tuned fn inputs totalCalls s n :
  tunedFrom s (fst (attempt fn inputs totalCalls s n)).
Proof.
  validate_cases; cbn [fst]; [unfold tunedFrom; simpl; auto|]. unfold control.
  assert (forall l a, tunedFrom (fst a) (fst (fold_left (handleFailure n) l a)))
    as Hfold.
  { induction l as [|e l IH]; intros [s0 ra0]; cbn [fold_left];
      [apply tunedFrom_refl|].
    eapply tunedFrom_trans; [apply (handleFailure_tuned n s0 ra0 e)|].
    destruct (handleFailure n (s0, ra0) e) as [s1 ra1]. apply IH. }
  match goal with
  | |- context [fold_left ?h ?l ?a] =>
      pose proof (Hfold l a) as H; destruct (fold_left h l a) as [s2 ra]
  end.
  cbn [fst snd] in *. destruct ra; exact H.
Qed.

(** Whatever fails, the gas limit per call only ever is the configured one,
    1,000,000 or the success-rate override, and the chunk size the configured
    one, 140 or the success-rate override. *)
Theorem tuning_values amounts routes fn cfg :
  let s := fst (getQuotesManyData amounts routes fn cfg) in
  (gasLimitOverride s = gasLimitPerCall (batchParams this)
   \/ gasLimitOverride s = 1000000%Z
   \/ gasLimitOverride s
      = ov_gasLimitOverride (successRateFailureOverrides this))
  /\ (multicallChunk s = bp_multicallChunk (batchParams this)
      \/ multicallChunk s = 140
      \/ multicallChunk s
         = ov_multicallChunk (successRateFailureOverrides this)).
Proof.
  intros s. subst s.
  destruct (getQuotesManyData_state amounts routes fn cfg)
    as (_ & -> & -> & _).
  unfold runAttempts.
  match goal with
  | |- context [retry fn ?i ?t ?k 1 ?s0] =>
      pose proof (retry_rel tunedFrom fn i t tunedFrom_refl tunedFrom_trans
                    (attempt_tuned fn i t) k 1 s0) as H
  end.
  unfold tunedFrom, initialState in H.
  cbn [gasLimitOverride multicallChunk] in H. exact H.
Qed.

(** *** Success-rate failures happen in one attempt only *)

Lemma validateSuccessRate_retried allResults :
  validateSuccessRate allResults true = None.
Proof.
  unfold validateSuccessRate. destruct (rate_lt _ _); reflexivity.
Qed.

Lemma executeBatch_retried fn s total idx callNo inputs :
  haveRetriedForSuccessRate s = true ->
  match executeBatch fn s total idx callNo inputs with
  | Failed _ e _ => class e <> SuccessRateError
  | _ => True
  end.
Proof.
  intros Hf. unfold executeBatch. rewrite Hf.
  destruct (multicall this callNo _) as [res|msg].
  - rewrite validateSuccessRate_retried. exact I.
  - pose proof (classifyThrown_class msg idx total inputs) as H.
    simpl in H. intuition congruence.
Qed.

Lemma handleFailure_flag_kept n s ra e :
  haveRetriedForSuccessRate s = true ->
  haveRetriedForSuccessRate (fst (handleFailure n (s, ra) e)) = true.
Proof. intros Hf. handle_cases. Qed.

(** Once the call has retried for success rate it stays so, and from then on
    no batch that the aggregator answers is failed for its success rate:
    the batches an attempt executes never end up with a [SuccessRateError].
    Success-rate failures are thus confined to a single attempt of a call. *)
Theorem success_rate_retried_once fn inputs totalCalls s :
  haveRetriedForSuccessRate s = true ->
  Forall2 (fun q q' =>
             isSuccess q = false ->
             match q' with
             | Failed _ e _ => class e <> SuccessRateError
             | Success _ _ => True
             | Pending _ => False
             end)
    (quoteStates s) (fst (executed fn s))
  /\ (forall retriesLeft n,
        haveRetriedForSuccessRate
          (fst (retry fn inputs totalCalls retriesLeft n s)) = true).
Proof.
  intros Hf. split.
  - pose proof (executed_settles fn s) as H.
    induction H as [|q q' l l' Hq _ IH]; constructor; [|exact IH].
    intros Hns. destruct Hq as [[Hs _]|[_ (idx & callNo & ->)]];
      [congruence|].
    pose proof (executeBatch_retried fn s (length (quoteStates s)) idx callNo
                  (inputsOf q) Hf) as H1.
    pose proof (executeBatch_settled fn s (length (quoteStates s)) idx callNo
                  (inputsOf q)) as H2.
    destruct (executeBatch _ _ _ _ _ _); simpl in *; auto; discriminate.
  - intros retriesLeft n.
    apply (retry_rel (fun a b => haveRetriedForSuccessRate a = true ->
                                 haveRetriedForSuccessRate b = true)
             fn inputs totalCalls); auto.
    intros s0 n0 H0. validate_cases; cbn [fst]; [exact H0|].
    unfold control.
    assert (forall l a, haveRetriedForSuccessRate (fst a) = true ->
                        haveRetriedForSuccessRate
                          (fst (fold_left (handleFailure n0) l a)) = true)
      as Hfold.
    { induction l as [|e l IH]; intros [s1 ra1] H1; cbn [fold_left];
        [exact H1|].
      apply IH. pose proof (handleFailure_flag_kept n0 s1 ra1 e H1) as H2.
      destruct (handleFailure n0 (s1, ra1) e). exact H2. }
    match goal with
    | |- context [fold_left ?h ?l ?a] =>
        pose proof (Hfold l a H0) as H; destruct (fold_left h l a) as [s2 ra]
    end.
    cbn [fst snd] in *. destruct ra; exact H.
Qed.


(** *** A call that needs no retry *)

Lemma inputsChunked_concat (inputs : Inputs) (m : nat) :
  inputs <> [] -> 0 < m -> concat (inputsChunked inputs m) = inputs.
Proof.
  intros Hne Hm.
  assert (0 < length inputs) as Hn by (destruct inputs; simpl; [congruence|lia]).
  rewrite inputsChunked_slices by assumption.
  apply slices_concat. apply ceil_upper.
  apply ceil_pos; [apply ceil_pos|]; assumption.
Qed.








(** *** Timeouts and unknown errors *)

Lemma handleFailure_quiet n s ra e :
  class e = ProviderTimeoutError \/ class e = PlainError ->
  let r := handleFailure n (s, ra) e in
  snd r = ra
  /\ gasLimitOverride (fst r) = gasLimitOverride s
  /\ multicallChunk (fst r) = multicallChunk s
  /\ pinnedBlock (fst r) = pinnedBlock s.
Proof. intros [Hc|Hc]; handle_cases. Qed.

Lemma fold_quiet n l :
  (forall e, In e l -> class e = ProviderTimeoutError \/ class e = PlainError) ->
  forall s ra,
    let r := fold_left (handleFailure n) l (s, ra) in
    snd r = ra
    /\ gasLimitOverride (fst r) = gasLimitOverride s
    /\ multicallChunk (fst r) = multicallChunk s
    /\ pinnedBlock (fst r) = pinnedBlock s.
Proof.
  induction l as [|e l IH]; intros Hall s ra; cbn [fold_left]; [auto|].
  pose proof (handleFailure_quiet n s ra e (Hall e (or_introl eq_refl)))
    as (H1 & H2 & H3 & H4).
  destruct (handleFailure n (s, ra) e) as [s1 ra1]. cbn [fst snd] in *.
  subst ra1.
  destruct (IH (fun e' He' => Hall e' (or_intror He')) s1 ra)
    as (I1 & I2 & I3 & I4).
  repeat split; congruence.
Qed.

(** When the failures of an attempt are timeouts and unknown provider errors
    only, and the successes show no block conflict, the attempt re-plans
    nothing: the batches stay as they were joined, every batch that was
    already a success is kept, and the gas limit, the chunk size and the
    pinned block are the same for the next attempt. *)
Theorem quiet_failures_keep_batches fn inputs totalCalls s n :
  let states := fst (executed fn s) in
  (forall f, In f (failuresOf states) ->
             class (reasonOf f) = ProviderTimeoutError
             \/ class (reasonOf f) = PlainError) ->
  (forall conflict,
      validateBlockNumbers (successesOf states) totalCalls (gasLimitOverride s)
      <> inr (Some conflict)) ->
  let s' := fst (attempt fn inputs totalCalls s n) in
  quoteStates s' = states
  /\ Forall2 keepsSuccess (quoteStates s) (quoteStates s')
  /\ map inputsOf (quoteStates s') = map inputsOf (quoteStates s)
  /\ gasLimitOverride s' = gasLimitOverride s
  /\ multicallChunk s' = multicallChunk s
  /\ pinnedBlock s' = pinnedBlock s.
Proof.
  intros states Hall Hnone s'. subst s'.
  validate_cases; cbn [fst]; fold states.
  { cbn [joined quoteStates gasLimitOverride multicallChunk pinnedBlock
           set_totalCallsMade set_quoteStates set_finalAttemptNumber].
    fold states.
    split; [reflexivity|].
    split; [apply (settles_keepsSuccess fn s _ _ _ (executed_settles fn s))|].
    split; [apply (settles_inputs fn s _ _ _ (executed_settles fn s))|].
    repeat split; reflexivity. }
  destruct o as [conflict|]; [exfalso; exact (Hnone conflict Hval)|].
  unfold control.
  assert (blockConflict (successesOf states) totalCalls
            (gasLimitOverride (joined fn s n)) = false) as ->.
  { unfold blockConflict. cbn [joined set_totalCallsMade set_quoteStates
      set_finalAttemptNumber gasLimitOverride]. fold states in Hval.
    rewrite Hval. reflexivity. }
  destruct (fold_quiet n (map reasonOf (failuresOf states))) with
    (s := joined fn s n) (ra := false) as (Q1 & Q2 & Q3 & Q4).
  { intros e He. apply in_map_iff in He. destruct He as (f & <- & Hf).
    apply Hall. exact Hf. }
  pose proof (fold_handle_quoteStates n (map reasonOf (failuresOf states))
                (joined fn s n) false) as Q5.
  destruct (fold_left _ _ _) as [s2 ra]. cbn [fst snd] in *. subst ra.
  cbn [joined quoteStates set_totalCallsMade set_quoteStates] in Q5.
  fold states in Q5. rewrite Q5.
  split; [reflexivity|].
  split; [apply (settles_keepsSuccess fn s _ _ _ (executed_settles fn s))|].
  split; [apply (settles_inputs fn s _ _ _ (executed_settles fn s))|].
  repeat split; assumption.
Qed.

(** *** Records of the assembler *)

Lemma mapi_from_app {A B : Type} (f : A -> nat -> B) l1 l2 :
  forall k,
    Js.mapi_from k f (l1 ++ l2)
    = (Js.mapi_from k f l1 ++ Js.mapi_from (k + length l1) f l2)%list.
Proof.
  induction l1 as [|x l1 IH]; intros k; simpl.
  - now rewrite Nat.add_0_r.
  - rewrite IH. do 3 f_equal. lia.
Qed.

Lemma mapi_from_ext {A B : Type} (f g : A -> nat -> B) l :
  forall k k',
    (forall x j, j < length l -> f x (k + j) = g x (k' + j)) ->
    Js.mapi_from k f l = Js.mapi_from k' g l.
Proof.
  induction l as [|x l IH]; intros k k' H; simpl; [reflexivity|].
  f_equal.
  - specialize (H x 0). rewrite !Nat.add_0_r in H. apply H. simpl. lia.
  - apply IH. intros y j Hj. replace (S k + j) with (k + S j) by lia.
    replace (S k' + j) with (k' + S j) by lia. apply H. simpl. lia.
Qed.

Lemma slices_records (amounts : list CurrencyAmount) (a : nat) :
  a = length amounts -> 0 < a ->
  forall c (l : list Result) m,
    length l <= c * a ->
    concat (map (Js.mapi (toAmountQuote amounts)) (Js.slices c a l))
    = Js.mapi_from (m * a)
        (fun r k => toAmountQuote amounts r (k mod a)) l.
Proof.
  intros Ha Hpos. induction c as [|c IH]; intros l m Hlen.
  - destruct l; [reflexivity|simpl in Hlen; lia].
  - cbn [Js.slices map concat].
    rewrite <- (firstn_skipn a l) at 3. rewrite mapi_from_app.
    f_equal.
    + unfold Js.mapi. apply mapi_from_ext. intros x j Hj.
      rewrite length_firstn in Hj. simpl.
      rewrite Nat.add_comm, Nat.Div0.mod_add. rewrite Nat.mod_small by lia.
      reflexivity.
    + destruct (Nat.le_gt_cases a (length l)) as [Hge|Hlt].
      * rewrite length_firstn, Nat.min_l by exact Hge.
        replace (m * a + a) with (S m * a) by lia.
        apply IH. rewrite length_skipn. lia.
      * rewrite skipn_all2 by lia.
        clear. induction c; simpl; [reflexivity|].
        rewrite firstn_nil, skipn_nil. exact IHc.
Qed.

(** A traversal returns exactly when its callback returns at every
    position. *)
Lemma mapiM_from_iff {A B : Type} (f : A -> nat -> JsError + B) l :
  forall k,
    (exists ys, mapiM_from k f l = inr ys)
    <-> (forall j x, nth_error l j = Some x -> exists y, f x (k + j) = inr y).
Proof.
  induction l as [|x l IH]; intros k; cbn [mapiM_from].
  - split; [intros _ [|j] x' H; discriminate|intros _; now exists []].
  - split.
    + intros [ys H] j x' Hj.
      destruct (f x k) as [e|y] eqn:E; [discriminate|]. cbn [bind] in H.
      destruct (mapiM_from (S k) f l) as [e|ys'] eqn:E'; [discriminate|].
      destruct j as [|j]; simpl in Hj.
      * injection Hj as <-. rewrite Nat.add_0_r. now exists y.
      * replace (k + S j) with (S k + j) by lia.
        apply (proj1 (IH (S k)) (ex_intro _ ys' E') j x' Hj).
    + intros H. destruct (H 0 x eq_refl) as [y Hy].
      rewrite Nat.add_0_r in Hy. rewrite Hy. cbn [bind].
      destruct (proj2 (IH (S k))) as [ys ->].
      * intros j x' Hj. replace (S k + j) with (k + S j) by lia.
        apply H. exact Hj.
      * cbn [bind]. now exists (y :: ys).
Qed.

(** Position [k] of the results is position [k mod a] of slice [k / a]. *)
Lemma slices_position {A : Type} (l : list A) (a : nat) :
  0 < a ->
  forall i c j x,
    (nth_error (Js.slices (ceil (length l) a) a l) i = Some c
     /\ nth_error c j = Some x)
    <-> (j < a /\ nth_error l (i * a + j) = Some x
         /\ c = firstn a (skipn (i * a) l)).
Proof.
  intros Ha i c j x.
  destruct (Nat.lt_ge_cases i (ceil (length l) a)) as [Hi|Hi].
  - rewrite slices_nth_error by exact Hi. split.
    + intros [Hc Hx]. injection Hc as <-.
      rewrite nth_error_firstn, nth_error_skipn in Hx.
      destruct (Nat.ltb_spec j a); [auto|discriminate].
    + intros (Hj & Hx & ->). split; [reflexivity|].
      rewrite nth_error_firstn, nth_error_skipn.
      destruct (Nat.ltb_spec j a); [exact Hx|lia].
  - split.
    + intros [Hc _]. exfalso.
      assert (nth_error (Js.slices (ceil (length l) a) a l) i <> None) as Hn
          by congruence.
      apply nth_error_Some in Hn. rewrite slices_length in Hn. lia.
    + intros (Hj & Hx & _). exfalso.
      assert (nth_error l (i * a + j) <> None) as Hn by congruence.
      apply nth_error_Some in Hn.
      pose proof (ceil_upper (length l) a Ha). nia.
Qed.

(** [processQuoteResults] turns every result into exactly one record, in
    order, unless the entry it prepares for the log of a failed quote throws.
    Without amounts it returns no pair at all.  With at least one amount it
    returns exactly when, for every failed result [k], [toFixed(2)] of amount
    [k mod A] and [routeToString] of [routes[k / A]] both return; and when it
    returns, the records of all routes put together are the results one by
    one, the record of result [k] carrying amount [k mod A], and the number
    of pairs is the number of results divided by [A] and rounded up,
    whatever the number of routes. *)
Theorem processQuoteResults_records quoteResults routes amounts :
  let assembled := processQuoteResults quoteResults routes amounts in
  (amounts = [] -> assembled = inr [])
  /\ (amounts <> [] ->
      ((exists routesQuotes, assembled = inr routesQuotes)
       <-> (forall k returnData,
              nth_error quoteResults k = Some (ResultFail returnData) ->
              (exists amount amountStr,
                  nth_error amounts (k mod length amounts) = Some amount
                  /\ toFixed amount 2 = inr amountStr)
              /\ (exists routeStr,
                     routeToString (nth_error routes (k / length amounts))
                     = inr routeStr))))
  /\ (forall routesQuotes,
        assembled = inr routesQuotes -> amounts <> [] ->
        concat (map snd routesQuotes)
        = Js.mapi (fun r k => toAmountQuote amounts r (k mod length amounts))
            quoteResults
        /\ length routesQuotes
           = ceil (length quoteResults) (length amounts)).
Proof.
  intros assembled. subst assembled. split; [|split].
  - intros ->. unfold processQuoteResults, mapiM. simpl.
    rewrite orb_true_r. reflexivity.
  - intros Hne.
    assert (0 < length amounts) as Ha
        by (destruct amounts; simpl; [congruence|lia]).
    unfold processQuoteResults, mapiM. cbv zeta. rewrite mapiM_from_iff.
    destruct quoteResults as [|r0 qr].
    { simpl. split; [intros _ [|k] t H; discriminate|].
      intros _ [|j] x H; discriminate. }
    rewrite chunk_Fin by (congruence || lia).
    set (results := r0 :: qr). cbn [Nat.add].
    split.
    + intros H k t Hk.
      assert (k mod length amounts < length amounts) as Hmod
          by (apply Nat.mod_upper_bound; lia).
      pose proof (Nat.div_mod_eq k (length amounts)) as Hdm.
      destruct (proj2 (slices_position results (length amounts) Ha
                         (k / length amounts)
                         (firstn (length amounts)
                            (skipn (k / length amounts * length amounts)
                               results))
                         (k mod length amounts) (ResultFail t)))
        as [Hc Hx].
      { split; [exact Hmod|]. split; [|reflexivity].
        replace (k / length amounts * length amounts + k mod length amounts)
          with k by lia. exact Hk. }
      destruct (H _ _ Hc) as [y Hy].
      destruct (mapiM_from 0 (quoteOf amounts
                                (nth_error routes (k / length amounts))) _)
        as [e|quotes] eqn:E; [discriminate|].
      destruct (proj1 (mapiM_from_iff _ _ 0) (ex_intro _ quotes E) _ _ Hx)
        as [record Hrec].
      cbn [Nat.add quoteOf] in Hrec.
      destruct (nth_error amounts (k mod length amounts)) as [amount|];
        [|discriminate].
      destruct (toFixed amount 2) as [e|amountStr] eqn:Efix; [discriminate|].
      cbn [bind] in Hrec.
      destruct (routeToString _) as [e|routeStr]; [discriminate|].
      split; [exists amount, amountStr; auto|now exists routeStr].
    + intros H i c Hc.
      destruct (proj2 (mapiM_from_iff (quoteOf amounts (nth_error routes i))
                         c 0)) as [quotes ->];
        [|cbn [bind]; eexists; reflexivity].
      intros j r Hr. cbn [Nat.add].
      destruct (proj1 (slices_position results (length amounts) Ha i c j r)
                  (conj Hc Hr)) as (Hj & Hk & _).
      destruct r as [t|returnData]; [eexists; reflexivity|].
      destruct (H _ _ Hk) as ((amount & amountStr & Hamt & Hfix) & routeStr & Hrs).
      assert ((i * length amounts + j) mod length amounts = j) as Emod.
      { rewrite Nat.add_comm, Nat.Div0.mod_add. apply Nat.mod_small.
        exact Hj. }
      assert ((i * length amounts + j) / length amounts = i) as Ediv.
      { rewrite Nat.add_comm, Nat.div_add by lia.
        rewrite Nat.div_small by exact Hj. reflexivity. }
      rewrite Emod in Hamt. rewrite Ediv in Hrs.
      cbn [quoteOf]. rewrite Hamt, Hfix. cbn [bind]. rewrite Hrs.
      cbn [bind]. eexists; reflexivity.
  - intros routesQuotes Hret Hne.
    rewrite (processQuoteResults_inr _ _ _ _ Hret).
    assert (0 < length amounts) as Ha
        by (destruct amounts; simpl; [congruence|lia]).
    destruct quoteResults as [|r0 qr].
    + simpl. split; [reflexivity|].
      unfold ceil. simpl. symmetry. apply Nat.div_small. lia.
    + rewrite chunk_Fin by (congruence || lia).
      split.
      * unfold Js.mapi at 1.
        assert (forall (l : list (list Result)) k,
                   map snd
                     (Js.mapi_from k
                        (fun quoteResults i =>
                           (nth_error routes i,
                            Js.mapi (toAmountQuote amounts) quoteResults)) l)
                   = map (Js.mapi (toAmountQuote amounts)) l) as Hsnd.
        { induction l as [|x l IH]; intros k; simpl; [reflexivity|].
          now rewrite IH. }
        rewrite Hsnd.
        apply (slices_records amounts (length amounts) eq_refl Ha _ _ 0).
        apply ceil_upper. exact Ha.
      * unfold Js.mapi. rewrite mapi_from_length, slices_length. reflexivity.
Qed.


(** *** Re-planning keeps the inputs *)

Lemma inputsChunked_sizes (inputs : Inputs) (m : nat) :
  Forall (fun c => 1 <= length c <= m) (inputsChunked inputs m).
Proof.
  destruct inputs as [|x l] eqn:E.
  - unfold inputsChunked. destruct (normalizedChunk _ m); simpl; constructor.
  - rewrite <- E.
    assert (inputs <> []) as Hne by (rewrite E; discriminate).
    destruct m as [|m'].
    + unfold inputsChunked, normalizedChunk. rewrite E. simpl. constructor.
    + set (m := S m') in *. assert (0 < m) as Hm by (subst m; lia).
      set (n := length inputs).
      assert (0 < n) as Hn by (subst n; rewrite E; simpl; lia).
      set (normalized := ceil n (ceil n m)).
      assert (0 < normalized) as Hs
          by (apply ceil_pos; [apply ceil_pos|]; assumption).
      assert (normalized <= m) as Hle by (apply ceil_ceil_le; assumption).
      pose proof (ceil_lower n normalized Hs Hn) as Hlow.
      rewrite inputsChunked_slices by assumption.
      fold n. fold normalized. rewrite slices_map.
      apply Forall_forall. intros c Hin.
      apply in_map_iff in Hin. destruct Hin as (i & <- & Hi).
      apply in_seq in Hi. rewrite length_firstn, length_skipn. fold n. nia.
Qed.

Lemma pendingStates_sizes (inputs : Inputs) (m M : nat) :
  m <= M ->
  Forall (fun q => 1 <= length (inputsOf q) <= M) (pendingStates inputs m).
Proof.
  intros Hle. unfold pendingStates. apply Forall_map. cbn [inputsOf].
  eapply Forall_impl; [|apply inputsChunked_sizes].
  cbv beta. intros c Hc. lia.
Qed.

Lemma pendingStates_inputs (inputs : Inputs) (m : nat) :
  map inputsOf (pendingStates inputs m) = inputsChunked inputs m.
Proof.
  unfold pendingStates. rewrite map_map. cbn [inputsOf]. apply map_id.
Qed.

Lemma attempt_batches fn inputs totalCalls s n :
  let s' := fst (attempt fn inputs totalCalls s n) in
  map inputsOf (quoteStates s') = map inputsOf (quoteStates s)
  \/ quoteStates s' = pendingStates inputs (multicallChunk s').
Proof.
  validate_cases; cbn [fst].
  { left. unfold joined.
    cbn [quoteStates set_totalCallsMade set_quoteStates].
    exact (settles_inputs fn s _ _ _ (executed_settles fn s)). }
  unfold control.
  match goal with
  | |- context [fold_left ?h ?l ?a] =>
      pose proof (fold_handle_quoteStates n l (fst a) (snd a)) as F3;
      cbn [fst snd] in F3;
      destruct (fold_left h l a) as [s2 ra]
  end.
  cbn [fst snd] in *. destruct ra.
  - right. reflexivity.
  - left. rewrite F3. unfold joined.
    cbn [quoteStates set_totalCallsMade set_quoteStates].
    exact (settles_inputs fn s _ _ _ (executed_settles fn s)).
Qed.

Lemma attempt_planned fn inputs totalCalls s n :
  plannedFor inputs s ->
  plannedFor inputs (fst (attempt fn inputs totalCalls s n)).
Proof.
  intros (Hc & Hcov & Hsz & Hpos).
  destruct (attempt_tuned fn inputs totalCalls s n) as [_ Ht].
  pose proof (attempt_batches fn inputs totalCalls s n) as Hb.
  cbv zeta in Hb.
  set (s' := fst (attempt fn inputs totalCalls s n)) in *.
  assert (multicallChunk s' = bp_multicallChunk (batchParams this)
          \/ multicallChunk s' = 140
          \/ multicallChunk s'
             = ov_multicallChunk (successRateFailureOverrides this)) as Hc'.
  { destruct Ht as [Ht|[Ht|Ht]]; rewrite Ht; auto. }
  split; [exact Hc'|].
  destruct Hb as [Hb|Hb].
  - split; [|split].
    + destruct Hcov as [E|E].
      * left. rewrite E in Hb. destruct (quoteStates s'); [reflexivity|].
        discriminate.
      * right. rewrite Hb. exact E.
    + apply (Forall_map inputsOf (fun c => 1 <= length c <= _)).
      rewrite Hb.
      apply (Forall_map inputsOf (fun c => 1 <= length c <= _)). exact Hsz.
    + intros H1 H2. rewrite Hb. exact (Hpos H1 H2).
  - rewrite Hb. split; [|split].
    + rewrite pendingStates_inputs.
      destruct (chunk_covers inputs
                  (normalizedChunk (length inputs) (multicallChunk s')))
        as [E|[E _]].
      * left. unfold pendingStates, inputsChunked. rewrite E. reflexivity.
      * right. exact E.
    + apply pendingStates_sizes.
      destruct Hc' as [Ht'|[Ht'|Ht']]; rewrite Ht'; lia.
    + intros H1 H2. rewrite pendingStates_inputs.
      destruct inputs as [|x l] eqn:E.
      * unfold inputsChunked.
        destruct (normalizedChunk _ (multicallChunk s')); reflexivity.
      * apply inputsChunked_concat; [discriminate|].
        destruct Hc' as [Ht'|[Ht'|Ht']]; rewrite Ht'; lia.
Qed.

Lemma initialState_planned inputs cfg :
  plannedFor inputs (initialState inputs cfg).
Proof.
  unfold plannedFor, initialState. cbn [multicallChunk quoteStates].
  split; [auto|]. split; [|split].
  - rewrite pendingStates_inputs.
    destruct (chunk_covers inputs
                (normalizedChunk (length inputs)
                   (bp_multicallChunk (batchParams this)))) as [E|[E _]].
    + left. unfold pendingStates, inputsChunked. rewrite E. reflexivity.
    + right. exact E.
  - apply pendingStates_sizes. lia.
  - intros H1 _. rewrite pendingStates_inputs.
    destruct inputs as [|x l] eqn:E.
    + unfold inputsChunked.
      destruct (normalizedChunk _ (bp_multicallChunk (batchParams this)));
        reflexivity.
    + apply inputsChunked_concat; [discriminate|exact H1].
Qed.

(** Re-planning never loses, repeats or reorders an input, and never makes a
    batch that is empty or larger than the largest chunk size in use: after
    any number of attempts the batches are none at all or their inputs put
    together are the flat input vector, every batch has between one input
    and the largest of the configured chunk size, 140 and the success-rate
    override, and when the configured size and the override are positive the
    batches always make up the input vector. *)
Theorem batches_cover_inputs amounts routes fn cfg retriesLeft :
  let inputs := encodeInputs amounts routes fn in
  let s0 := initialState inputs cfg in
  let s := fst (retry fn inputs (length (quoteStates s0)) retriesLeft 1 s0) in
  let configured := bp_multicallChunk (batchParams this) in
  let override := ov_multicallChunk (successRateFailureOverrides this) in
  (quoteStates s = [] \/ concat (map inputsOf (quoteStates s)) = inputs)
  /\ Forall (fun q => 1 <= length (inputsOf q)
                      <= Nat.max configured (Nat.max 140 override))
       (quoteStates s)
  /\ (0 < configured -> 0 < override ->
      concat (map inputsOf (quoteStates s)) = inputs).
Proof.
  intros inputs s0 s configured override.
  pose proof (retry_rel
                (fun a b => plannedFor inputs a -> plannedFor inputs b)
                fn inputs (length (quoteStates s0))
                (fun a H => H)
                (fun a b c H1 H2 H => H2 (H1 H))
                (fun a n => attempt_planned fn inputs _ a n)
                retriesLeft 1 s0 (initialState_planned inputs cfg)) as H.
  fold s in H. destruct H as (_ & H1 & H2 & H3).
  split; [exact H1|]. split; [exact H2|exact H3].
Qed.

(** *** The error of a rejected call *)

Lemma occurrences_app msg l1 l2 :
  occurrences msg (l1 ++ l2)%list = occurrences msg l1 + occurrences msg l2.
Proof. unfold occurrences. rewrite filter_app, length_app. reflexivity. Qed.

Lemma occurrences_one msg e :
  occurrences msg [e] = if String.eqb (message e) msg then 1 else 0.
Proof.
  unfold occurrences. simpl. destruct (String.eqb (message e) msg); reflexivity.
Qed.

(** The count kept by [mainError] is the largest number of occurrences of a
    message so far, and the error kept carries such a message. *)
Lemma mainErrorFrom_spec errors :
  forall seen main count,
    count = occurrences (message main) seen ->
    (forall msg, occurrences msg seen <= count) ->
    (seen <> [] -> In main seen) ->
    let r := mainErrorFrom seen main count errors in
    ((seen ++ errors)%list <> [] -> In r (seen ++ errors)%list)
    /\ (forall msg,
          occurrences msg (seen ++ errors)%list
          <= occurrences (message r) (seen ++ errors)%list).
Proof.
  induction errors as [|error rest IH]; intros seen main count Hc Hmax Hin;
    cbn [mainErrorFrom].
  - rewrite app_nil_r. split; [exact Hin|]. intros msg. rewrite <- Hc.
    apply Hmax.
  - cbv zeta.
    replace (seen ++ error :: rest)%list
      with ((seen ++ [error]) ++ rest)%list
      by (rewrite <- app_assoc; reflexivity).
    destruct (Nat.leb_spec count (S (occurrences (message error) seen)))
      as [Hle|Hgt].
    + apply IH.
      * rewrite occurrences_app, occurrences_one, String.eqb_refl. lia.
      * intros msg. rewrite occurrences_app, occurrences_one.
        destruct (String.eqb_spec (message error) msg) as [<-|Hne];
          [lia|]. pose proof (Hmax msg). lia.
      * intros _. apply in_or_app. right. now left.
    + assert (message error <> message main) as Hne.
      { intros E. rewrite E in Hgt. lia. }
      apply IH.
      * rewrite occurrences_app, occurrences_one.
        destruct (String.eqb_spec (message error) (message main));
          [congruence|lia].
      * intros msg. rewrite occurrences_app, occurrences_one.
        destruct (String.eqb_spec (message error) msg) as [<-|Hne'];
          [lia|]. pose proof (Hmax msg). lia.
      * intros _. apply in_or_app. left. apply Hin. intros E. subst seen.
        unfold occurrences in Hc, Hgt. simpl in Hc, Hgt. lia.
Qed.

Lemma retryFrom_thrown fn inputs totalCalls retriesLeft :
  forall errors n s e,
    snd (retryFrom errors fn inputs totalCalls retriesLeft n s) = Throw e ->
    let thrown := thrownBy fn inputs totalCalls retriesLeft n s in
    length thrown = S retriesLeft
    /\ exists x, e = mainErrorFrom [] x 0 (errors ++ thrown)%list.
Proof.
  induction retriesLeft as [|r IH]; intros errors n s e;
    cbn [retryFrom thrownBy];
    destruct (attempt fn inputs totalCalls s n) as [s1 [qr b|e0]];
    cbn [snd]; try discriminate.
  - intros H. injection H as <-. split; [reflexivity|].
    exists e0. reflexivity.
  - intros H. destruct (IH _ _ _ _ H) as [Hlen [x Hx]].
    cbv zeta in Hlen. split; [simpl; now rewrite Hlen|].
    exists x. rewrite Hx, <- app_assoc. reflexivity.
Qed.

Lemma thrownBy_length fn inputs totalCalls retriesLeft :
  forall n s,
    length (thrownBy fn inputs totalCalls retriesLeft n s) = S retriesLeft ->
    exists e, snd (attempts fn inputs totalCalls retriesLeft n s) = Throw e.
Proof.
  induction retriesLeft as [|r IH]; intros n s;
    cbn [attempts thrownBy];
    destruct (attempt fn inputs totalCalls s n) as [s1 [qr b|e0]];
    cbn [snd length]; try discriminate.
  - intros _. now exists e0.
  - intros H. apply IH. lia.
Qed.

(** The loop rejects exactly when every one of its attempts throws, and the
    error of the rejection is the main error of the errors thrown: it is one
    of them, and no message occurs among them more often than its own. *)
Theorem rejection_is_main_error fn inputs totalCalls retriesLeft n s :
  let thrown := thrownBy fn inputs totalCalls retriesLeft n s in
  let loop := retry fn inputs totalCalls retriesLeft n s in
  ((exists e, snd loop = Throw e) <-> length thrown = S retriesLeft)
  /\ (forall e,
        snd loop = Throw e ->
        In e thrown
        /\ forall msg,
             occurrences msg thrown <= occurrences (message e) thrown).
Proof.
  intros thrown loop. subst loop. split.
  - split.
    + intros [e He]. exact (proj1 (retryFrom_thrown _ _ _ _ _ _ _ _ He)).
    + intros Hlen. apply retry_throws.
      apply thrownBy_length. exact Hlen.
  - intros e He. unfold retry in He.
    destruct (retryFrom_thrown _ _ _ _ _ _ _ _ He) as [Hlen [x Hx]].
    cbv zeta in Hlen. fold thrown in Hlen, Hx. cbn [app] in Hx.
    destruct (mainErrorFrom_spec thrown [] x 0) as [Hin Hmax];
      [reflexivity|intros msg; apply Nat.le_refl|congruence|].
    cbn [app] in Hin, Hmax. rewrite <- Hx in Hin, Hmax.
    split; [apply Hin; intros E; rewrite E in Hlen; discriminate|exact Hmax].
Qed.

(** *** The three lists of [partitionQuotes] *)

(** [partitionQuotes] puts every batch into exactly one of its three lists:
    the lengths add up to the number of batches, and a list holds the
    payload of a batch exactly when the batch has that status. *)
Theorem partitionQuotes_partition (l : list QuoteBatchState) :
  let '(successes, failures, pendings) := partitionQuotes l in
  length successes + length failures + length pendings = length l
  /\ (forall i r, In (i, r) successes <-> In (Success i r) l)
  /\ (forall i e r, In (i, e, r) failures <-> In (Failed i e r) l)
  /\ (forall i, In i pendings <-> In (Pending i) l).
Proof.
  unfold partitionQuotes. split; [|split; [|split]].
  - unfold successesOf, failuresOf, pendingsOf.
    induction l as [|q l IH]; [reflexivity|].
    cbn [flat_map]. rewrite !length_app. destruct q; simpl; lia.
  - intros i r. apply successesOf_In.
  - intros i e r. apply failuresOf_In.
  - intros i. unfold pendingsOf. rewrite in_flat_map. split.
    + intros (q & Hq & Hin). destruct q; simpl in Hin; try tauto.
      destruct Hin as [<-|[]]. exact Hq.
    + intros Hin. exists (Pending i). split; [exact Hin|now left].
Qed.

End Provider.

(** ** Concrete runs *)

(** Evaluates the successes of a concrete attempt and checks their block
    numbers. *)
Ltac safe_blocks :=
  unfold safeBlocks;
  match goal with
  | |- Forall _ ?l => let l' := eval vm_compute in l in change l with l'
  end;
  repeat first [apply Forall_nil | apply Forall_cons; [cbn; lia|]].

(** Seven inputs with [multicallChunk = 3] are cut into chunks of 3, 3 and 1
    elements: the sizes differ by two. *)
Lemma planner_gap_counterexample :
  let inputs := repeat ("0x01", "0x1") 7 in
  inputs <> [] /\ 0 < 3
  /\ map (@length _) (inputsChunked inputs 3) = [3; 3; 1]
  /\ ~ (forall c1 c2,
          In c1 (inputsChunked inputs 3) -> In c2 (inputsChunked inputs 3) ->
          length c1 <= length c2 + 1).
Proof.
  cbv zeta. split; [discriminate|]. split; [lia|]. split; [reflexivity|].
  intros H.
  specialize (H (repeat ("0x01", "0x1") 3) (repeat ("0x01", "0x1") 1)).
  vm_compute in H.
  assert (3 <= 2) as F by (apply H; [left; reflexivity | right; right; left; reflexivity]).
  lia.
Qed.

(** [planner_chunks] on the same seven inputs. *)
Lemma planner_chunks_witness :
  let inputs := repeat ("0x01", "0x1") 7 in
  inputs <> [] /\ 0 < 3
  /\ concat (inputsChunked inputs 3) = inputs
  /\ Forall (fun c => length c <= 3) (inputsChunked inputs 3).
Proof.
  cbv zeta.
  assert (repeat ("0x01", "0x1") 7 <> []) as Hne by discriminate.
  assert (0 < 3) as Hpos by lia.
  split; [exact Hne|]. split; [exact Hpos|].
  pose proof (planner_chunks (repeat ("0x01", "0x1") 7) 3 Hne Hpos) as H.
  cbv zeta in H. destruct H as (_ & _ & Hcat & Hall & _).
  split; [exact Hcat | exact Hall].
Defined.

(** C1 (the code departs from it): a call whose only attempt ends with two
    successful batches at distinct block numbers returns successfully, with
    results sampled at both heights, instead of retrying.  Here two batches
    are answered at blocks 100 and 101 and no batch fails: the conflict is
    found and the batches are re-planned, but the attempt does not throw, so
    the call returns the quotes of both heights with block number 100 after
    a single attempt. *)
Theorem mixed_heights_returned :
  let this := sampleProvider 1 driftingAggregator false in
  let amounts := [1%N; 2%N] in
  let routes := ["0x01"] in
  let inputs := encodeInputs string N sampleEncode sampleQuotient
                  amounts routes quoteExactInput in
  let s0 := initialState this inputs None in
  let states := fst (executed sampleShow this quoteExactInput s0) in
  let r := getQuotesManyData string N sampleEncode sampleQuotient
             sampleShow sampleOverflow sampleToFixed sampleRouteToString
             this amounts routes quoteExactInput None in
  map (fun q => blockNumber (snd q)) (successesOf states) = [100%Z; 101%Z]
  /\ failuresOf states = []
  /\ blockConflict sampleOverflow (successesOf states) 2
       (gasLimitOverride s0) = true
  /\ finalAttemptNumber (fst r) = 1
  /\ totalCallsMade (fst r) = 2
  /\ quoteStates (fst r) = map Pending [[("0x01", "0x1")]; [("0x01", "0x2")]]
  /\ exists routesWithQuotes,
       snd r = Fulfilled string N routesWithQuotes 100
       /\ map (fun rq => length (snd rq)) routesWithQuotes = [2].
Proof.
  cbv zeta. repeat split; try (vm_compute; reflexivity).
  eexists. split; vm_compute; reflexivity.
Qed.

(** Two amounts and no route. *)
Lemma empty_request_rejected_witness :
  let this := sampleProvider 150 steadyAggregator false in
  let r := getQuotesManyExactIn string N sampleEncode sampleQuotient
             sampleShow sampleOverflow sampleToFixed sampleRouteToString
             this [1%N; 2%N] [] None in
  ((@nil string) = [] \/ [1%N; 2%N] = [])
  /\ snd r = Rejected string N
               (mkError TypeError
                  "Cannot read properties of undefined (reading 'blockNumber')")
  /\ totalCallsMade (fst r) = 0.
Proof.
  cbv zeta.
  assert ((@nil string) = [] \/ [1%N; 2%N] = []) as Hempty
      by (left; reflexivity).
  split; [exact Hempty|].
  apply (empty_request_rejected string N sampleEncode sampleQuotient sampleShow
           sampleOverflow sampleToFixed sampleRouteToString
           (sampleProvider 150 steadyAggregator false) [1%N; 2%N] [] None
           Hempty).
  left. reflexivity.
Defined.



(** Block 50 is pinned and the header is never found: the second attempt
    pins block 49. *)
Lemma rollback_once_witness :
  let this := sampleProvider 150 headerlessAggregator true in
  let s0 := initialState this sampleInputs
              (Some (mkProviderConfig (Some (BlockNum 50)))) in
  let s1 := fst (attempt sampleShow sampleOverflow this quoteExactInput
                   sampleInputs 1 s0 1) in
  let s2 := fst (attempt sampleShow sampleOverflow this quoteExactInput
                   sampleInputs 1 s1 2) in
  rollback this = true
  /\ blockHeaderRolledBack s1 = false
  /\ blockHeaderRetryAttemptNumber s1 = Some 1
  /\ 0 < 1 < 2
  /\ (exists f,
         In f (failuresOf (fst (executed sampleShow this quoteExactInput s1)))
         /\ class (reasonOf f) = ProviderBlockHeaderError)
  /\ truthy (pinnedBlock s1) = true
  /\ safeBlocks (fst (executed sampleShow this quoteExactInput s1))
  /\ pinnedBlock s2 = BlockNum 49
  /\ blockHeaderRolledBack s2 = true
  /\ quoteStates s2 = pendingStates sampleInputs (multicallChunk s2).
Proof.
  cbv zeta.
  set (this := sampleProvider 150 headerlessAggregator true).
  set (s0 := initialState this sampleInputs
               (Some (mkProviderConfig (Some (BlockNum 50))))).
  set (s1 := fst (attempt sampleShow sampleOverflow this quoteExactInput
                    sampleInputs 1 s0 1)).
  assert (rollback this = true) as Hr by reflexivity.
  assert (blockHeaderRolledBack s1 = false) as Hb by (vm_compute; reflexivity).
  assert (blockHeaderRetryAttemptNumber s1 = Some 1) as Hk
      by (vm_compute; reflexivity).
  assert (0 < 1 < 2) as Hlt by lia.
  assert (exists f,
             In f (failuresOf (fst (executed sampleShow this quoteExactInput s1)))
             /\ class (reasonOf f) = ProviderBlockHeaderError) as Hfail.
  { vm_compute. eexists. split; [left; reflexivity|reflexivity]. }
  assert (truthy (pinnedBlock s1) = true) as Ht by (vm_compute; reflexivity).
  assert (safeBlocks (fst (executed sampleShow this quoteExactInput s1)))
    as Hsafe by safe_blocks.
  destruct (rollback_once sampleShow sampleOverflow this quoteExactInput
              sampleInputs 1) as (Hfire & _).
  destruct (Hfire s1 2 1 Hr Hb Hk Hlt Hfail Ht Hsafe) as (H1 & H2 & H3).
  repeat split; try assumption; lia.
Defined.

(** C5 (the code departs from it): with rollback enabled, block 0 pinned,
    a block-header failure seen by the first attempt and again by the
    second, and no rollback so far, the second attempt does not pin the block
    one below the pinned one: the test [providerConfig.blockNumber ? ... :
    ...] takes the number 0 for a missing block number and pins the block
    below the provider's current block, 99, which is also the pinned block at
    the end of the call. *)
Theorem rollback_from_block_zero :
  let this := sampleProvider 150 headerlessAggregator true in
  let s0 := initialState this sampleInputs
              (Some (mkProviderConfig (Some (BlockNum 0)))) in
  let s1 := fst (attempt sampleShow sampleOverflow this quoteExactInput
                   sampleInputs 1 s0 1) in
  let s2 := fst (attempt sampleShow sampleOverflow this quoteExactInput
                   sampleInputs 1 s1 2) in
  rollback this = true
  /\ blockHeaderRolledBack s1 = false
  /\ blockHeaderRetryAttemptNumber s1 = Some 1
  /\ (exists f,
         In f (failuresOf (fst (executed sampleShow this quoteExactInput s1)))
         /\ class (reasonOf f) = ProviderBlockHeaderError)
  /\ pinnedBlock s1 = BlockNum 0
  /\ pinnedBlock s2 = BlockNum 99
  /\ pinnedBlock s2 <> BlockNum (await (pinnedBlock s1) - 1)
  /\ pinnedBlock
       (fst (getQuotesManyData string N sampleEncode sampleQuotient
             sampleShow sampleOverflow sampleToFixed sampleRouteToString
             this [1%N; 2%N; 3%N] ["0x01"] quoteExactInput
               (Some (mkProviderConfig (Some (BlockNum 0))))))
     = BlockNum 99.
Proof.
  cbv zeta. repeat split; try (vm_compute; reflexivity).
  - vm_compute. eexists. split; [left; reflexivity|reflexivity].
  - vm_compute. discriminate.
Qed.


(** An aggregator that returns no results at all. *)
Lemma empty_results_pass_witness :
  let this := sampleProvider 150 silentAggregator false in
  let s0 := initialState this sampleInputs None in
  multicall this 1
    (mkParams (quoterAddress this) quoteExactInput sampleInputs
       (pinnedBlock s0) (gasLimitOverride s0))
  = Returns (mkResults 100 [] 0)
  /\ results (mkResults 100 [] 0) = []
  /\ validateSuccessRate sampleShow this [] false = None
  /\ executeBatch sampleShow this quoteExactInput s0 1 0 1 sampleInputs
     = Success sampleInputs (mkResults 100 [] 0).
Proof.
  cbv zeta.
  set (this := sampleProvider 150 silentAggregator false).
  set (s0 := initialState this sampleInputs None).
  assert (multicall this 1
            (mkParams (quoterAddress this) quoteExactInput sampleInputs
               (pinnedBlock s0) (gasLimitOverride s0))
          = Returns (mkResults 100 [] 0)) as Hret by reflexivity.
  assert (results (mkResults 100 [] 0) = []) as Hnil by reflexivity.
  destruct (empty_results_pass sampleShow this false) as (_ & _ & Hv & Hbatch).
  split; [exact Hret|]. split; [exact Hnil|]. split; [exact Hv|].
  exact (Hbatch quoteExactInput s0 1 0 1 sampleInputs (mkResults 100 [] 0)
           Hret Hnil).
Defined.

(** An aggregator that answers four inputs with a single successful quote:
    the call for two routes and two amounts succeeds, with a flat result
    vector of one element and one pair that holds one record. *)
Lemma misaligned_answer_counterexample :
  let this := sampleProvider 150 shortAggregator false in
  let amounts := [1%N; 2%N] in
  let routes := ["0x01"; "0x02"] in
  let loop := runAttempts string N sampleEncode sampleQuotient sampleShow
                sampleOverflow this amounts routes quoteExactInput None in
  let r := getQuotesManyData string N sampleEncode sampleQuotient
             sampleShow sampleOverflow sampleToFixed sampleRouteToString
             this amounts routes quoteExactInput None in
  length (encodeInputs string N sampleEncode sampleQuotient amounts routes
            quoteExactInput) = length routes * length amounts
  /\ exists quoteResults routesWithQuotes,
       snd loop = Resolve quoteResults 100
       /\ snd r = Fulfilled string N routesWithQuotes 100
       /\ length quoteResults = 1
       /\ length quoteResults <> length routes * length amounts
       /\ map (fun rq => length (snd rq)) routesWithQuotes = [1]
       /\ length routesWithQuotes <> length routes.
Proof.
  cbv zeta. split; [reflexivity|].
  eexists. eexists.
  split; [vm_compute; reflexivity|].
  split; [vm_compute; reflexivity|].
  split; [reflexivity|]. split; [simpl; lia|].
  split; [reflexivity|simpl; lia].
Qed.

(** Three routes and two amounts, quoted for an exact output in two batches
    of three inputs. *)
Lemma quotes_positionally_aligned_witness :
  let this := sampleProvider 3 steadyAggregator false in
  alignedAggregator this
  /\ exists s routesWithQuotes,
       getQuotesManyData string N sampleEncode sampleQuotient
             sampleShow sampleOverflow sampleToFixed sampleRouteToString
             this
         [1%N; 2%N] ["0x01"; "0x02"; "0x03"] quoteExactOutput None
       = (s, Fulfilled string N routesWithQuotes 100)
       /\ length routesWithQuotes = 3
       /\ nth_error
            (encodeInputs string N sampleEncode sampleQuotient
               [1%N; 2%N] ["0x01"; "0x02"; "0x03"] quoteExactOutput)
            (2 * 2 + 1)
          = Some ("0x03ff", "0x2").
Proof.
  cbv zeta.
  set (this := sampleProvider 3 steadyAggregator false).
  assert (alignedAggregator this) as Hagg.
  { intros callNo p res H. injection H as <-. simpl. apply length_map. }
  split; [exact Hagg|].
  assert (exists s routesWithQuotes,
             getQuotesManyData string N sampleEncode sampleQuotient
             sampleShow sampleOverflow sampleToFixed sampleRouteToString
             this [1%N; 2%N] ["0x01"; "0x02"; "0x03"] quoteExactOutput None
             = (s, Fulfilled string N routesWithQuotes 100))
    as (s & rwq & Hcall).
  { vm_compute. eexists. eexists. reflexivity. }
  exists s, rwq. split; [exact Hcall|].
  destruct (quotes_positionally_aligned string N sampleEncode sampleQuotient
              sampleShow sampleOverflow sampleToFixed sampleRouteToString
              this _ _ _ _ _ _ _ Hagg Hcall)
    as (_ & Hlayout & s1 & qr & _ & _ & _ & _ & _ & Hlen & _).
  split; [exact Hlen|].
  exact (Hlayout 2 1 "0x03" 2%N eq_refl eq_refl).
Defined.

(** A block conflict next to a failed batch: the batches are re-planned and
    the arm for [BlockConflictError] stays unused. *)
Lemma block_conflict_arm_unreachable_witness :
  let this := sampleProvider 1 driftingThenGas false in
  let s0 := initialState this sampleInputs None in
  conflictArmUnused s0
  /\ blockConflict sampleOverflow
       (successesOf (fst (executed sampleShow this quoteExactInput s0))) 3
       (gasLimitOverride s0) = true
  /\ let s' := fst (attempt sampleShow sampleOverflow this quoteExactInput
                      sampleInputs 3 s0 1) in
     conflictArmUnused s'
     /\ quoteStates s' = pendingStates sampleInputs (multicallChunk s').
Proof.
  cbv zeta.
  set (this := sampleProvider 1 driftingThenGas false).
  set (s0 := initialState this sampleInputs None).
  assert (conflictArmUnused s0) as Hs0.
  { unfold conflictArmUnused. vm_compute.
    repeat split; [intros []|repeat constructor]. }
  assert (blockConflict sampleOverflow
            (successesOf (fst (executed sampleShow this quoteExactInput s0))) 3
            (gasLimitOverride s0) = true) as Hbc by (vm_compute; reflexivity).
  destruct (block_conflict_arm_unreachable string N sampleEncode sampleQuotient
              sampleShow sampleOverflow sampleToFixed sampleRouteToString this)
    as (_ & Hreset & Hattempt & _).
  split; [exact Hs0|]. split; [exact Hbc|]. split.
  - exact (proj2 (Hattempt quoteExactInput sampleInputs 3 s0 1 Hs0)).
  - exact (Hreset quoteExactInput sampleInputs 3 s0 1 Hbc).
Defined.

(** The first of three batches runs out of gas and the other two succeed at
    the same block: the three batches stay as they are cut. *)
Lemma out_of_gas_keeps_layout_witness :
  let this := sampleProvider 1 gasThenSteady false in
  let s0 := initialState this sampleInputs None in
  let states := fst (executed sampleShow this quoteExactInput s0) in
  let s' := fst (attempt sampleShow sampleOverflow this quoteExactInput
                   sampleInputs 3 s0 1) in
  failuresOf states <> []
  /\ (forall f, In f (failuresOf states) ->
                class (reasonOf f) = ProviderGasError)
  /\ validateBlockNumbers sampleOverflow (successesOf states) 3
       (gasLimitOverride s0) = inr None
  /\ map inputsOf (quoteStates s') = map inputsOf (quoteStates s0)
  /\ map isSuccess (quoteStates s') = [false; true; true]
  /\ multicallChunk s' = 140.
Proof.
  cbv zeta.
  set (this := sampleProvider 1 gasThenSteady false).
  set (s0 := initialState this sampleInputs None).
  assert (failuresOf (fst (executed sampleShow this quoteExactInput s0)) <> [])
    as Hne by (vm_compute; discriminate).
  assert (forall f,
             In f (failuresOf (fst (executed sampleShow this quoteExactInput s0))) ->
             class (reasonOf f) = ProviderGasError) as Hgas.
  { vm_compute. intros f [<-|[]]. reflexivity. }
  assert (validateBlockNumbers sampleOverflow
            (successesOf (fst (executed sampleShow this quoteExactInput s0))) 3
            (gasLimitOverride s0) = inr None) as Hnone
      by (vm_compute; reflexivity).
  assert (forall conflict,
             validateBlockNumbers sampleOverflow
               (successesOf (fst (executed sampleShow this quoteExactInput s0)))
               3 (gasLimitOverride s0) <> inr (Some conflict)) as Hquiet
      by (intros conflict; rewrite Hnone; discriminate).
  destruct (out_of_gas_keeps_layout sampleShow sampleOverflow this
              quoteExactInput sampleInputs 3 s0 1 Hne Hgas Hquiet)
    as (Hq & Hlayout & _ & Hchunk & _).
  split; [exact Hne|]. split; [exact Hgas|]. split; [exact Hnone|].
  split; [exact Hlayout|]. split; [|exact (proj1 (Hchunk Hnone))].
  rewrite Hq. vm_compute. reflexivity.
Defined.

(** Two successes at blocks 100 and 101 and one batch out of gas: the only
    failure is a [ProviderGasError], yet the conflict sets [retryAll] and the
    three batches of one input are re-planned as one batch of three. *)
Lemma out_of_gas_with_conflict_replans :
  let this := sampleProvider 1 driftingThenGas false in
  let s0 := initialState this sampleInputs None in
  let states := fst (executed sampleShow this quoteExactInput s0) in
  let s' := fst (attempt sampleShow sampleOverflow this quoteExactInput
                   sampleInputs 3 s0 1) in
  failuresOf states <> []
  /\ (forall f, In f (failuresOf states) ->
                class (reasonOf f) = ProviderGasError)
  /\ map inputsOf (quoteStates s0)
     = [[("0x01", "0x1")]; [("0x01", "0x2")]; [("0x01", "0x3")]]
  /\ map isSuccess states = [true; true; false]
  /\ quoteStates s' = [Pending sampleInputs]
  /\ map inputsOf (quoteStates s') <> map inputsOf (quoteStates s0).
Proof.
  cbv zeta. repeat split; try (vm_compute; reflexivity).
  - vm_compute. discriminate.
  - vm_compute. intros f [<-|[]]. reflexivity.
  - vm_compute. discriminate.
Qed.

(** ** Construction of a provider *)

Section ConstructionFacts.

Variable ChainId : Type.
Variable ChainId_eqb : ChainId -> ChainId -> bool.
Variable showChainId : ChainId -> string.
Variable MAINNET RINKEBY : ChainId.
Variable QUOTER_V2_ADDRESS : string.

Local Abbreviation table :=
  (chainToQuoterAddress ChainId ChainId_eqb MAINNET RINKEBY QUOTER_V2_ADDRESS).
Local Abbreviation construct :=
  (newV3QuoteProvider ChainId ChainId_eqb showChainId MAINNET RINKEBY
     QUOTER_V2_ADDRESS).

(** The constructor throws exactly when neither the override nor the chain's
    entry in the table is a non-empty address, and the message names the
    chain.  Otherwise the provider holds the override when that is a
    non-empty string, an empty override being passed over in favour of the
    chain's entry; its quoter address is never empty, and the arguments left
    out take the defaults: two retries, chunks of 150 with 1,000,000 gas and
    a floor of 0.2, overrides 110 and 1,300,000, no rollback.  Chains other
    than [MAINNET] and [RINKEBY] have no entry. *)
Theorem construction_spec chainId provider mc retryOptions params overrides
  rollbackArg quoterAddressOverride :
  let r := construct chainId provider mc retryOptions params overrides
             rollbackArg quoterAddressOverride in
  ((exists e, r = inl e)
   <-> (truthyAddress quoterAddressOverride = false
        /\ truthyAddress (table chainId) = false))
  /\ (forall e, r = inl e ->
                e = mkError PlainError
                      ("No address for Uniswap QuoterV2 Contract on chain id: "
                       ++ showChainId chainId))
  /\ (forall p, r = inr p ->
        quoterAddress p <> ""
        /\ Some (quoterAddress p)
           = (if truthyAddress quoterAddressOverride
              then quoterAddressOverride else table chainId)
        /\ retries p = match retryOptions with Some k => k | None => 2 end
        /\ batchParams p
           = match params with
             | Some b => b
             | None => mkBatchParams 150 1000000 Js.oneFifth
             end
        /\ successRateFailureOverrides p
           = match overrides with
             | Some o => o
             | None => mkOverrides 110 1300000
             end
        /\ rollback p = match rollbackArg with Some b => b | None => false end)
  /\ ((forall a b, ChainId_eqb a b = true <-> a = b) ->
      chainId <> MAINNET -> chainId <> RINKEBY -> table chainId = None).
Proof.
  intros r. subst r. unfold newV3QuoteProvider.
  set (qa := if truthyAddress quoterAddressOverride
             then quoterAddressOverride else table chainId).
  assert (truthyAddress qa = false
          <-> truthyAddress quoterAddressOverride = false
              /\ truthyAddress (table chainId) = false) as Hqa.
  { subst qa. destruct (truthyAddress quoterAddressOverride) eqn:E.
    - rewrite E. intuition congruence.
    - intuition congruence. }
  split; [|split; [|split]].
  - rewrite <- Hqa. destruct qa as [a|]; [|simpl; split; eauto].
    destruct (truthyAddress (Some a)) eqn:E.
    + split; [intros (e & H); discriminate|congruence].
    + split; eauto.
  - intros e. destruct qa as [a|]; [|congruence].
    destruct (truthyAddress (Some a)); congruence.
  - intros p. destruct qa as [a|] eqn:Ea; [|discriminate].
    destruct (truthyAddress (Some a)) eqn:E; [|discriminate].
    intros H. injection H as <-. cbn [quoterAddress retries batchParams
      successRateFailureOverrides rollback].
    repeat split. intros ->. discriminate E.
  - intros Heqb Hm Hr. unfold chainToQuoterAddress.
    destruct (ChainId_eqb chainId RINKEBY) eqn:E1;
      [apply Heqb in E1; congruence|].
    destruct (ChainId_eqb chainId MAINNET) eqn:E2;
      [apply Heqb in E2; congruence|reflexivity].
Qed.

End ConstructionFacts.

(** ** Facts about [_.maxBy] *)

Lemma extremum_In {A K : Type} (gt : K -> K -> JsError + bool)
  (key : A -> K) l :
  forall best m, extremum gt key best l = inr m -> In m (best :: l).
Proof.
  induction l as [|x l IH]; intros best m; cbn [extremum].
  - intros H. injection H as <-. now left.
  - destruct (gt (key x) (key best)) as [e|greater]; [discriminate|].
    cbn [bind]. intros H. apply IH in H.
    destruct H as [H|H]; [|right; right; exact H].
    destruct greater; rewrite <- H; simpl; auto.
Qed.

Lemma maxBy_In {A K : Type} (gt : K -> K -> JsError + bool) (key : A -> K)
  l x :
  maxBy gt key l = inr (Some x) -> In x l.
Proof.
  destruct l as [|y l]; [discriminate|]. cbn [maxBy].
  destruct (extremum gt key y l) as [e|m] eqn:E; [discriminate|].
  cbn [bind]. intros H. injection H as <-.
  exact (extremum_In gt key l y m E).
Qed.

Lemma maxBy_None {A K : Type} (gt : K -> K -> JsError + bool) (key : A -> K)
  l :
  maxBy gt key l = inr None <-> l = [].
Proof.
  destruct l as [|y l]; cbn [maxBy]; split; try congruence.
  destruct (extremum gt key y l); discriminate.
Qed.

Lemma extremum_returns {A K : Type} (gt : K -> K -> JsError + bool)
  (key : A -> K) l :
  (forall a b, exists greater, gt a b = inr greater) ->
  forall best, exists m, extremum gt key best l = inr m.
Proof.
  intros Hgt. induction l as [|x l IH]; intros best; cbn [extremum].
  - now exists best.
  - destruct (Hgt (key x) (key best)) as [greater ->]. cbn [bind]. apply IH.
Qed.

Lemma found_In {A : Type} (o : option A) (x : A) : In x (found o) <-> o = Some x.
Proof.
  destruct o as [a|]; simpl; split; try tauto; try discriminate.
  - intros [->|[]]. reflexivity.
  - intros H. injection H as ->. now left.
Qed.

Lemma extremum_greatest {A : Type} (key : A -> Q) l :
  forall best,
  exists m,
    extremum V2Gas.gtQ key best l = inr m
    /\ (key best <= key m)%Q
    /\ forall x, In x l -> (key x <= key m)%Q.
Proof.
  induction l as [|y l IH]; intros best; cbn [extremum].
  - exists best. split; [reflexivity|]. split; [apply Qle_refl|intros x []].
  - unfold V2Gas.gtQ at 1. cbn [bind].
    destruct (IH (if negb (Qle_bool (key y) (key best)) then y else best))
      as (m & -> & I1 & I2).
    exists m. split; [reflexivity|].
    destruct (Qle_bool (key y) (key best)) eqn:E; simpl in I1.
    + apply Qle_bool_iff in E. split; [exact I1|].
      intros x [<-|Hx]; [eapply Qle_trans; eassumption|exact (I2 x Hx)].
    + assert (key best <= key y)%Q as Hlt.
      { apply Qlt_le_weak. apply Qnot_le_lt. intros H.
        apply Qle_bool_iff in H. congruence. }
      split; [eapply Qle_trans; eassumption|].
      intros x [<-|Hx]; [exact I1|exact (I2 x Hx)].
Qed.

(** ** Facts about the V3 gas model *)

Module V3GasFacts.

Section Facts.

Variable Token : Type.
Variable equals : Token -> Token -> bool.
Variable tokenAddress : Token -> string.
Variable Price : Type.
Variable CurrencyAmount : Type.
Variable fromRawAmount : Token -> Z -> JsError + CurrencyAmount.
Variable quote : Price -> CurrencyAmount -> JsError + CurrencyAmount.
Variable Liquidity : Type.
Variable gt : Liquidity -> Liquidity -> JsError + bool.
Variable weth : Token.
Variable usdTokens : option (list Token).
Variable chainIdText : string.
Variable getPools :
  list (Token * Token * FeeAmount)
  -> JsError + V3Gas.PoolAccessor Token Price Liquidity.

Local Abbreviation Pool := (V3Gas.Pool Token Price Liquidity).
Local Abbreviation Route := (V3Gas.V3RouteWithValidQuote Token Price Liquidity).
Local Abbreviation gasUseOf := (@V3Gas.gasUseOf Token Price Liquidity).
Local Abbreviation estimateGas :=
  (@V3Gas.estimateGas Token Price CurrencyAmount fromRawAmount Liquidity weth).
Local Abbreviation usdPoolsOf := (@V3Gas.usdPoolsOf Token Price Liquidity weth).
Local Abbreviation ethPoolsOf := (@V3Gas.ethPoolsOf Token Price Liquidity weth).
Local Abbreviation getHighestLiquidityUSDPool :=
  (@V3Gas.getHighestLiquidityUSDPool Token Price Liquidity gt weth usdTokens
     chainIdText getPools).
Local Abbreviation getHighestLiquidityEthPool :=
  (@V3Gas.getHighestLiquidityEthPool Token Price Liquidity gt weth getPools).
Local Abbreviation buildGasModel :=
  (@V3Gas.buildGasModel Token equals tokenAddress Price CurrencyAmount
     fromRawAmount quote Liquidity gt weth usdTokens chainIdText getPools).
Local Abbreviation usdTokenOf :=
  (@V3Gas.usdTokenOf Token tokenAddress Price Liquidity weth).

Lemma sum_from (l : list Z) :
  forall a, fold_left Z.add l a = (a + fold_right Z.add 0 l)%Z.
Proof.
  induction l as [|x l IH]; intros a; simpl; [lia|]. rewrite IH. lia.
Qed.

(** The gas use of a route is 2,000 plus 80,000 per pool plus 31,000 per
    initialized tick crossed, where the ticks of the pools are added up and
    at least one tick is charged: a route whose ticks add up to less than
    one costs 33,000 plus 80,000 per pool, no route costs less than that, and
    more ticks or more pools never cost less. *)
Theorem gas_use_bounds (r r' : Route) :
  let ticks := fold_right Z.add 0%Z (V3Gas.initializedTicksCrossedList _ _ _ r) in
  let ticks' := fold_right Z.add 0%Z (V3Gas.initializedTicksCrossedList _ _ _ r') in
  let hops := Z.of_nat (length (V3Gas.pools _ _ _ r)) in
  let hops' := Z.of_nat (length (V3Gas.pools _ _ _ r')) in
  (33000 + 80000 * hops <= gasUseOf r)%Z
  /\ ((ticks <= 1)%Z -> gasUseOf r = (33000 + 80000 * hops)%Z)
  /\ ((1 <= ticks)%Z -> gasUseOf r = (2000 + 80000 * hops + 31000 * ticks)%Z)
  /\ ((ticks <= ticks')%Z -> (hops <= hops')%Z ->
      (gasUseOf r <= gasUseOf r')%Z).
Proof.
  intros ticks ticks' hops hops'.
  unfold V3Gas.gasUseOf, V3Gas.sum, V3Gas.BASE_SWAP_COST, V3Gas.COST_PER_HOP,
    V3Gas.COST_PER_INIT_TICK, V3Gas.COST_PER_UNINIT_TICK.
  rewrite !sum_from. fold ticks ticks' hops hops'.
  repeat split; intros; lia.
Qed.

Lemma usdPoolsOf_In accessor tokens (p : Pool) :
  In p (usdPoolsOf accessor tokens)
  <-> exists usdToken feeAmount,
        In usdToken tokens /\ accessor weth usdToken feeAmount = Some p.
Proof.
  unfold V3Gas.usdPoolsOf. rewrite in_flat_map. split.
  - intros (fee & _ & H). apply in_flat_map in H.
    destruct H as (t & Ht & Hp). apply found_In in Hp. now exists t, fee.
  - intros (t & fee & Ht & Hp). exists fee. split.
    + destruct fee; simpl; auto.
    + apply in_flat_map. exists t. split; [exact Ht|].
      apply found_In. exact Hp.
Qed.

(** [getHighestLiquidityUSDPool] throws when the chain has no USD tokens,
    without asking for any pool; it passes on the rejection of the pool
    provider; it throws when the accessor holds no pool of WETH with a USD
    token at any of the four fee tiers; a pool it returns is one the accessor
    holds for WETH and a USD token of the chain; a single such pool is
    returned without any comparison, and with several one is returned
    whenever the comparison of two liquidities does not throw. *)
Theorem usd_pool_lookup :
  (usdTokens = None ->
   getHighestLiquidityUSDPool = inl (V3Gas.noUsdToken chainIdText))
  /\ (forall tokens,
        usdTokens = Some tokens ->
        (forall e, getPools (V3Gas.usdPoolKeys _ weth tokens) = inl e ->
                   getHighestLiquidityUSDPool = inl e)
        /\ (forall accessor,
              getPools (V3Gas.usdPoolKeys _ weth tokens) = inr accessor ->
              (usdPoolsOf accessor tokens = [] ->
               getHighestLiquidityUSDPool = inl V3Gas.noUsdPool)
              /\ (forall p,
                    getHighestLiquidityUSDPool = inr p ->
                    exists usdToken feeAmount,
                      In usdToken tokens
                      /\ accessor weth usdToken feeAmount = Some p)
              /\ (forall p,
                    usdPoolsOf accessor tokens = [p] ->
                    getHighestLiquidityUSDPool = inr p)
              /\ (usdPoolsOf accessor tokens <> [] ->
                  (forall a b, exists greater, gt a b = inr greater) ->
                  exists p, getHighestLiquidityUSDPool = inr p))).
Proof.
  unfold V3Gas.getHighestLiquidityUSDPool. split.
  - intros ->. reflexivity.
  - intros tokens ->. split.
    + intros e ->. reflexivity.
    + intros accessor ->. cbn [bind]. split; [|split; [|split]].
      * intros ->. reflexivity.
      * intros p.
        destruct (maxBy gt (@V3Gas.liquidity Token Price Liquidity)
                    (usdPoolsOf accessor tokens)) as [e|[m|]] eqn:E;
          cbn [bind]; try discriminate.
        intros H. injection H as ->. apply maxBy_In in E.
        apply usdPoolsOf_In in E. exact E.
      * intros p ->. reflexivity.
      * intros Hne Hgt.
        destruct (usdPoolsOf accessor tokens) as [|p0 rest]; [congruence|].
        cbn [maxBy].
        destruct (extremum_returns gt (@V3Gas.liquidity Token Price Liquidity)
                    rest Hgt p0) as [m ->].
        cbn [bind]. now exists m.
Qed.

(** [getHighestLiquidityEthPool] only looks at the fee tiers HIGH, MEDIUM
    and LOW: it returns no pool exactly when the accessor has none of WETH
    with the token at these three tiers, whatever it has at the LOWEST tier,
    and a pool it returns is one the accessor holds at one of the three. *)
Theorem eth_pool_lookup token accessor :
  getPools (map (fun feeAmount => (weth, token, feeAmount)) [HIGH; MEDIUM; LOW])
  = inr accessor ->
  (getHighestLiquidityEthPool token = inr None
   <-> (accessor weth token HIGH = None
        /\ accessor weth token MEDIUM = None
        /\ accessor weth token LOW = None))
  /\ (forall p, getHighestLiquidityEthPool token = inr (Some p) ->
                accessor weth token HIGH = Some p
                \/ accessor weth token MEDIUM = Some p
                \/ accessor weth token LOW = Some p)
  /\ ((forall a b, exists greater, gt a b = inr greater) ->
      exists o, getHighestLiquidityEthPool token = inr o).
Proof.
  clear equals tokenAddress fromRawAmount quote usdTokens chainIdText.
  intros Hacc. unfold V3Gas.getHighestLiquidityEthPool. rewrite Hacc.
  cbn [bind]. unfold V3Gas.ethPoolsOf. cbn [flat_map].
  split; [|split].
  - rewrite maxBy_None. split.
    + intros H.
      destruct (accessor weth token HIGH); [discriminate|].
      destruct (accessor weth token MEDIUM); [discriminate|].
      destruct (accessor weth token LOW); [discriminate|]. auto.
    + intros (-> & -> & ->). reflexivity.
  - intros p H. apply maxBy_In in H.
    rewrite !in_app_iff in H. rewrite !found_In in H. simpl in H. tauto.
  - intros Hgt.
    match goal with
    | |- context [maxBy gt ?k ?l] => destruct l as [|p0 rest]
    end; [now exists None|].
    cbn [maxBy].
    destruct (extremum_returns gt (@V3Gas.liquidity Token Price Liquidity)
                rest Hgt p0) as [m ->].
    cbn [bind]. now exists (Some m).
Qed.

(** Whatever the quote token and the pools found, a gas model that estimates
    a route reports [gasUse] as the gas estimate.  For WETH as quote token
    the cost in the token is the cost in WETH, gas price times gas use.  For
    another token without a pool with WETH the costs in the token and in USD
    are both the zero amount, and the estimate needs no price. *)
Theorem gas_model_costs gasPriceWei token model :
  buildGasModel gasPriceWei token = inr model ->
  (forall r cost, model r = inr cost -> V3Gas.gasEstimate _ cost = gasUseOf r)
  /\ (equals token weth = true ->
      forall r cost,
        model r = inr cost ->
        fromRawAmount weth (gasPriceWei * gasUseOf r)
        = inr (V3Gas.gasCostInToken _ cost))
  /\ (equals token weth = false ->
      getHighestLiquidityEthPool token = inr None ->
      exists usdPool,
        getHighestLiquidityUSDPool = inr usdPool
        /\ forall r gasCostInEth zeroInToken zeroInUSD,
             fromRawAmount weth (gasPriceWei * gasUseOf r) = inr gasCostInEth ->
             fromRawAmount token 0 = inr zeroInToken ->
             fromRawAmount (usdTokenOf usdPool) 0 = inr zeroInUSD ->
             model r
             = inr (V3Gas.mkGasCost _ (gasUseOf r) zeroInToken zeroInUSD)).
Proof.
  unfold V3Gas.buildGasModel, V3Gas.estimateGas.
  destruct (equals token weth) eqn:Eq.
  - destruct getHighestLiquidityUSDPool as [e|usdPool]; [discriminate|].
    cbn [bind]. intros H. injection H as <-.
    split; [|split; [|discriminate]].
    + intros r cost.
      destruct (fromRawAmount weth (gasPriceWei * gasUseOf r)) as [e|c];
        [discriminate|]. cbn [bind].
      destruct (quote _ c) as [e|u]; [discriminate|]. cbn [bind].
      intros H. injection H as <-. reflexivity.
    + intros _ r cost.
      destruct (fromRawAmount weth (gasPriceWei * gasUseOf r)) as [e|c];
        [discriminate|]. cbn [bind].
      destruct (quote _ c) as [e|u]; [discriminate|]. cbn [bind].
      intros H. injection H as <-. reflexivity.
  - destruct (getHighestLiquidityEthPool token) as [e|ethPool];
      [discriminate|]. cbn [bind].
    destruct getHighestLiquidityUSDPool as [e|usdPool]; [discriminate|].
    cbn [bind]. intros H. injection H as <-.
    split; [|split; [discriminate|]].
    + intros r cost.
      destruct (fromRawAmount weth (gasPriceWei * gasUseOf r)) as [e|c];
        [discriminate|]. cbn [bind].
      destruct ethPool as [ethPool|].
      * destruct (quote _ c) as [e|q1]; [discriminate|]. cbn [bind].
        destruct (quote _ c) as [e|q2]; [discriminate|]. cbn [bind].
        intros H. injection H as <-. reflexivity.
      * destruct (fromRawAmount token 0) as [e|z1]; [discriminate|].
        cbn [bind].
        destruct (fromRawAmount _ 0) as [e|z2]; [discriminate|]. cbn [bind].
        intros H. injection H as <-. reflexivity.
    + intros _ Hnone. injection Hnone as ->. exists usdPool.
      split; [reflexivity|].
      intros r c z1 z2 H1 H2 H3. rewrite H1. cbn [bind].
      rewrite H2. cbn [bind]. rewrite H3. reflexivity.
Qed.

End Facts.

End V3GasFacts.

(** ** Facts about the V2 gas model *)

Module V2GasFacts.

Section Facts.

Variable Token : Type.
Variable equals : Token -> Token -> bool.
Variable tokenAddress : Token -> string.
Variable Price : Type.
Variable CurrencyAmount : Type.
Variable fromRawAmount : Token -> Z -> JsError + CurrencyAmount.
Variable quote : Price -> CurrencyAmount -> JsError + CurrencyAmount.
Variable significant : CurrencyAmount -> Q.
Variable weth : Token.
Variable usdTokens : option (list Token).
Variable chainIdText : string.

Local Abbreviation Pair := (V2Gas.Pair Token Price CurrencyAmount).
Local Abbreviation Route :=
  (V2Gas.V2RouteWithValidQuote Token Price CurrencyAmount).
Local Abbreviation gasUseOf := (@V2Gas.gasUseOf Token Price CurrencyAmount).
Local Abbreviation wethReserve :=
  (@V2Gas.wethReserve Token equals Price CurrencyAmount significant weth).
Local Abbreviation usdPairsOf :=
  (@V2Gas.usdPairsOf Token Price CurrencyAmount weth).
Local Abbreviation getHighestLiquidityUSDPool :=
  (@V2Gas.getHighestLiquidityUSDPool Token equals Price CurrencyAmount
     significant weth usdTokens chainIdText).
Local Abbreviation buildGasModel :=
  (@V2Gas.buildGasModel Token equals tokenAddress Price CurrencyAmount
     fromRawAmount quote significant weth usdTokens chainIdText).
Local Abbreviation usdTokenOf :=
  (@V2Gas.usdTokenOf Token tokenAddress Price CurrencyAmount weth).

(** The V2 gas use is 100,000 for a route of one pair and 20,000 more for
    every further pair, so at least 100,000 for a route with a pair; a route
    without pairs comes out at 80,000, below the base cost. *)
Theorem v2_gas_use (r : Route) (p : Pair) :
  gasUseOf r = (80000 + 20000 * Z.of_nat (length (V2Gas.pairs _ _ _ r)))%Z
  /\ (V2Gas.pairs _ _ _ r <> [] -> (100000 <= gasUseOf r)%Z)
  /\ (V2Gas.pairs _ _ _ r = [] -> gasUseOf r = 80000%Z)
  /\ gasUseOf (V2Gas.mkRoute _ _ _ (p :: V2Gas.pairs _ _ _ r)) = (gasUseOf r + 20000)%Z.
Proof.
  unfold V2Gas.gasUseOf, V2Gas.BASE_SWAP_COST, V2Gas.COST_PER_EXTRA_HOP.
  cbn [V2Gas.pairs]. repeat split.
  - lia.
  - intros Hne. destruct (V2Gas.pairs _ _ _ r); [congruence|]. simpl length. lia.
  - intros ->. reflexivity.
  - simpl length. lia.
Qed.

Lemma usdPairsOf_In accessor tokens (p : Pair) :
  In p (usdPairsOf accessor tokens)
  <-> exists usdToken, In usdToken tokens /\ accessor weth usdToken = Some p.
Proof.
  unfold V2Gas.usdPairsOf. rewrite in_flat_map. split.
  - intros (t & Ht & Hp). apply found_In in Hp. now exists t.
  - intros (t & Ht & Hp). exists t. split; [exact Ht|].
    apply found_In. exact Hp.
Qed.

(** The V2 [getHighestLiquidityUSDPool] throws when the chain has no USD
    tokens and when the accessor has no pair of WETH with any of them;
    otherwise it returns a pair of WETH with a USD token of the chain whose
    WETH reserve, read to two significant digits, is not below that of any
    other such pair. *)
Theorem v2_usd_pool_lookup accessor :
  (usdTokens = None ->
   getHighestLiquidityUSDPool accessor = inl (V2Gas.noUsdToken chainIdText))
  /\ (forall tokens,
        usdTokens = Some tokens ->
        (usdPairsOf accessor tokens = [] ->
         getHighestLiquidityUSDPool accessor = inl V2Gas.noUsdPool)
        /\ (usdPairsOf accessor tokens <> [] ->
            exists p usdToken,
              getHighestLiquidityUSDPool accessor = inr p
              /\ In usdToken tokens
              /\ accessor weth usdToken = Some p
              /\ forall usdToken' p',
                   In usdToken' tokens ->
                   accessor weth usdToken' = Some p' ->
                   (wethReserve p' <= wethReserve p)%Q)).
Proof.
  unfold V2Gas.getHighestLiquidityUSDPool. split.
  - intros ->. reflexivity.
  - intros tokens ->. split.
    + intros ->. reflexivity.
    + intros Hne.
      destruct (usdPairsOf accessor tokens) as [|p0 rest] eqn:E;
        [congruence|].
      cbn [maxBy].
      destruct (extremum_greatest wethReserve rest p0) as (m & Hm & G1 & G2).
      pose proof (extremum_In V2Gas.gtQ wethReserve rest p0 m Hm) as Hin.
      rewrite Hm. cbn [bind].
      rewrite <- E in Hin. apply usdPairsOf_In in Hin.
      destruct Hin as (t & Ht & Hp).
      exists m, t. split; [reflexivity|]. split; [exact Ht|].
      split; [exact Hp|].
      intros t' p' Ht' Hp'.
      assert (In p' (usdPairsOf accessor tokens)) as Hin'
          by (apply usdPairsOf_In; now exists t').
      rewrite E in Hin'. destruct Hin' as [<-|Hin']; [exact G1|].
      exact (G2 p' Hin').
Qed.

(** A V2 gas model reports [gasUse] as the gas estimate whatever the quote
    token; for WETH the cost in the token is gas price times gas use in
    WETH; for a token without a pair with WETH both costs are the zero
    amount and no price is needed.  The model is built exactly when a USD
    pair is found. *)
Theorem v2_gas_model_costs gasPriceWei accessor token :
  (forall e, buildGasModel gasPriceWei accessor token = inl e
             <-> getHighestLiquidityUSDPool accessor = inl e)
  /\ forall model,
       buildGasModel gasPriceWei accessor token = inr model ->
       (forall r cost,
          model r = inr cost -> V2Gas.gasEstimate _ cost = gasUseOf r)
       /\ (equals token weth = true ->
           forall r cost,
             model r = inr cost ->
             fromRawAmount weth (gasPriceWei * gasUseOf r)
             = inr (V2Gas.gasCostInToken _ cost))
       /\ (equals token weth = false ->
           accessor weth token = None ->
           exists usdPool,
             getHighestLiquidityUSDPool accessor = inr usdPool
             /\ forall r gasCostInEth zeroInToken zeroInUSD,
                  fromRawAmount weth (gasPriceWei * gasUseOf r)
                  = inr gasCostInEth ->
                  fromRawAmount token 0 = inr zeroInToken ->
                  fromRawAmount (usdTokenOf usdPool) 0 = inr zeroInUSD ->
                  model r
                  = inr (V2Gas.mkGasCost _ (gasUseOf r) zeroInToken
                           zeroInUSD)).
Proof.
  unfold V2Gas.buildGasModel, V2Gas.estimateGas, V2Gas.getEthPool.
  split.
  - intros e.
    destruct (equals token weth);
      destruct (getHighestLiquidityUSDPool accessor) as [e'|usdPool];
      cbv zeta; cbn [bind]; split; intros H; try discriminate;
      injection H as ->; reflexivity.
  - intros model. destruct (equals token weth) eqn:Eq.
    + destruct (getHighestLiquidityUSDPool accessor) as [e|usdPool];
        [discriminate|].
      cbn [bind]. intros H. injection H as <-.
      split; [|split; [|discriminate]].
      * intros r cost.
        destruct (fromRawAmount weth (gasPriceWei * gasUseOf r)) as [e|c];
          [discriminate|]. cbn [bind].
        destruct (quote _ c) as [e|u]; [discriminate|]. cbn [bind].
        intros H. injection H as <-. reflexivity.
      * intros _ r cost.
        destruct (fromRawAmount weth (gasPriceWei * gasUseOf r)) as [e|c];
          [discriminate|]. cbn [bind].
        destruct (quote _ c) as [e|u]; [discriminate|]. cbn [bind].
        intros H. injection H as <-. reflexivity.
    + cbv zeta.
      destruct (getHighestLiquidityUSDPool accessor) as [e|usdPool];
        [discriminate|].
      cbn [bind]. intros H. injection H as <-.
      split; [|split; [discriminate|]].
      * intros r cost.
        destruct (fromRawAmount weth (gasPriceWei * gasUseOf r)) as [e|c];
          [discriminate|]. cbn [bind].
        destruct (accessor weth token) as [ethPool|].
        -- destruct (quote _ c) as [e|q1]; [discriminate|]. cbn [bind].
           destruct (quote _ c) as [e|q2]; [discriminate|]. cbn [bind].
           intros H. injection H as <-. reflexivity.
        -- destruct (fromRawAmount token 0) as [e|z1]; [discriminate|].
           cbn [bind].
           destruct (fromRawAmount _ 0) as [e|z2]; [discriminate|].
           cbn [bind]. intros H. injection H as <-. reflexivity.
      * intros _ Hnone. exists usdPool. split; [reflexivity|].
        intros r c z1 z2 H1 H2 H3. rewrite H1. cbn [bind].
        rewrite Hnone, H2. cbn [bind]. rewrite H3. reflexivity.
Qed.

End Facts.

End V2GasFacts.

(** ** Further concrete runs *)

(** Blocks 100, 100 and 101 conflict; blocks 100 and 100 do not; the block
    2^53 makes the conversion throw. *)
Lemma validateBlockNumbers_spec_witness :
  validateBlockNumbers sampleOverflow
    [([], mkResults 100 [] 0); ([], mkResults 100 [] 0)] 2 1000000 = inr None
  /\ (exists e,
         validateBlockNumbers sampleOverflow
           [([], mkResults 100 [] 0); ([], mkResults 100 [] 0);
            ([], mkResults 101 [] 0)] 3 1000000 = inr (Some e)
         /\ class e = BlockConflictError)
  /\ exists thrown,
       validateBlockNumbers sampleOverflow
         [([], mkResults 9007199254740992 [] 0); ([], mkResults 100 [] 0)]
         2 1000000 = inl thrown.
Proof.
  split; [|split].
  - destruct (validateBlockNumbers_spec sampleOverflow
                [([], mkResults 100 [] 0); ([], mkResults 100 [] 0)]
                2 1000000) as (_ & _ & Hnone & _).
    apply Hnone. right. split.
    + repeat (constructor; [simpl; lia|]). constructor.
    + exists 100%Z. intros q [<-|[<-|[]]]; reflexivity.
  - eexists. split; [vm_compute; reflexivity|].
    destruct (validateBlockNumbers_spec sampleOverflow
                [([], mkResults 100 [] 0); ([], mkResults 100 [] 0);
                 ([], mkResults 101 [] 0)] 3 1000000) as (_ & _ & _ & Hclass).
    apply Hclass. vm_compute. reflexivity.
  - destruct (validateBlockNumbers_spec sampleOverflow
                [([], mkResults 9007199254740992 [] 0);
                 ([], mkResults 100 [] 0)] 2 1000000) as (Hthrow & _).
    apply Hthrow. split; [simpl; lia|].
    intros Hsafe. apply Forall_inv in Hsafe. vm_compute in Hsafe.
    discriminate.
Defined.


(** One failed quote among three passes the success rate, so that the loop
    resolves at its first attempt; the amounts belong to a currency without
    decimals, [toFixed(2)] throws while the failed quote is prepared for the
    log, and the call is rejected with that error after one attempt. *)
Lemma failed_quote_log_rejects :
  let this := sampleProvider 150 firstQuoteFails false in
  let loop := runAttempts string N sampleEncode sampleQuotient sampleShow
                sampleOverflow this [1%N; 2%N; 3%N] ["0x01"] quoteExactInput
                None in
  let r := getQuotesManyData string N sampleEncode sampleQuotient
             sampleShow sampleOverflow wholeToFixed sampleRouteToString
             this [1%N; 2%N; 3%N] ["0x01"] quoteExactInput None in
  (exists quoteResults, snd loop = Resolve quoteResults 100)
  /\ snd r = Rejected string N (mkError PlainError "Invariant failed: DECIMALS")
  /\ finalAttemptNumber (fst r) = 1
  /\ metrics (fst r) = [].
Proof.
  cbv zeta. split; [eexists; vm_compute; reflexivity|].
  repeat split; vm_compute; reflexivity.
Qed.

(** An attempt whose only batch times out. *)
Lemma attempt_outcomes_witness :
  let this := sampleProvider 150 slowAggregator false in
  let s0 := initialState this sampleInputs None in
  failuresOf (fst (executed sampleShow this quoteExactInput s0)) <> []
  /\ snd (attempt sampleShow sampleOverflow this quoteExactInput
            sampleInputs 1 s0 1)
     = Throw (mkError PlainError
                "Failed to get 1 quotes. Reasons: ProviderTimeoutError").
Proof.
  cbv zeta.
  set (this := sampleProvider 150 slowAggregator false).
  set (s0 := initialState this sampleInputs None).
  assert (failuresOf (fst (executed sampleShow this quoteExactInput s0)) <> [])
    as Hne by (vm_compute; discriminate).
  split; [exact Hne|].
  destruct (attempt_outcomes sampleShow sampleOverflow this quoteExactInput
              sampleInputs 1 s0 1) as (_ & _ & Hthrow & _).
  rewrite (Hthrow Hne None); vm_compute; reflexivity.
Defined.

(** The header is never found and rollback is off: block 100 stays pinned. *)
Lemma pinned_block_kept_witness :
  let this := sampleProvider 150 headerlessAggregator false in
  rollback this = false
  /\ pinnedBlock
       (fst (getQuotesManyData string N sampleEncode sampleQuotient
             sampleShow sampleOverflow sampleToFixed sampleRouteToString
             this [1%N; 2%N] ["0x01"] quoteExactInput None))
     = BlockNum 100.
Proof.
  cbv zeta. split; [reflexivity|].
  exact (proj2 (pinned_block_kept string N sampleEncode sampleQuotient
                  sampleShow sampleOverflow sampleToFixed sampleRouteToString
                  (sampleProvider 150 headerlessAggregator false)
                  [1%N; 2%N] ["0x01"] quoteExactInput None eq_refl)).
Defined.

(** After the attempt that failed for the success rate, the flag stays set
    and the same answers are accepted. *)
Lemma success_rate_retried_once_witness :
  let this := sampleProvider 150 failingQuotes false in
  let s0 := initialState this sampleInputs None in
  let s1 := fst (attempt sampleShow sampleOverflow this quoteExactInput
                   sampleInputs 1 s0 1) in
  haveRetriedForSuccessRate s1 = true
  /\ haveRetriedForSuccessRate
       (fst (retry sampleShow sampleOverflow this quoteExactInput
               sampleInputs 1 1 2 s1))
     = true.
Proof.
  cbv zeta.
  set (this := sampleProvider 150 failingQuotes false).
  set (s1 := fst (attempt sampleShow sampleOverflow this quoteExactInput
                    sampleInputs 1
                    (initialState this sampleInputs None) 1)).
  assert (haveRetriedForSuccessRate s1 = true) as Hf
      by (vm_compute; reflexivity).
  split; [exact Hf|].
  exact (proj2 (success_rate_retried_once sampleShow sampleOverflow this
                  quoteExactInput sampleInputs 1 s1 Hf) 1 2).
Defined.

(** Timeouts only: the batch stays as it is and nothing is tuned. *)
Lemma quiet_failures_keep_batches_witness :
  let this := sampleProvider 150 slowAggregator false in
  let s0 := initialState this sampleInputs None in
  let states := fst (executed sampleShow this quoteExactInput s0) in
  let s' := fst (attempt sampleShow sampleOverflow this quoteExactInput
                   sampleInputs 1 s0 1) in
  (forall f, In f (failuresOf states) ->
             class (reasonOf f) = ProviderTimeoutError
             \/ class (reasonOf f) = PlainError)
  /\ (forall conflict,
         validateBlockNumbers sampleOverflow (successesOf states) 1
           (gasLimitOverride s0) <> inr (Some conflict))
  /\ map inputsOf (quoteStates s') = [sampleInputs]
  /\ multicallChunk s' = 150.
Proof.
  cbv zeta.
  set (this := sampleProvider 150 slowAggregator false).
  set (s0 := initialState this sampleInputs None).
  assert (forall f,
             In f (failuresOf (fst (executed sampleShow this quoteExactInput s0))) ->
             class (reasonOf f) = ProviderTimeoutError
             \/ class (reasonOf f) = PlainError) as Hall.
  { vm_compute. intros f [<-|[]]. left. reflexivity. }
  assert (forall conflict,
             validateBlockNumbers sampleOverflow
               (successesOf (fst (executed sampleShow this quoteExactInput s0)))
               1 (gasLimitOverride s0) <> inr (Some conflict)) as Hnone.
  { intros conflict.
    assert (validateBlockNumbers sampleOverflow
              (successesOf (fst (executed sampleShow this quoteExactInput s0)))
              1 (gasLimitOverride s0) = inr None) as ->
        by (vm_compute; reflexivity).
    discriminate. }
  destruct (quiet_failures_keep_batches sampleShow sampleOverflow this
              quoteExactInput sampleInputs 1 s0 1 Hall Hnone)
    as (_ & _ & Hlayout & _ & Hchunk & _).
  split; [exact Hall|]. split; [exact Hnone|].
  split; [rewrite Hlayout; reflexivity|exact Hchunk].
Defined.

(** Seven failed results for three amounts: with three routes the assembler
    returns three pairs and seven records; with one route it throws, as
    [routeToString] is handed [undefined] for the fourth result. *)
Lemma processQuoteResults_records_witness :
  let results7 := repeat (ResultFail "0x") 7 in
  [1%N; 2%N; 3%N] <> []
  /\ (exists routesQuotes,
         processQuoteResults string N sampleToFixed sampleRouteToString
           results7 ["0x01"; "0x02"; "0x03"] [1%N; 2%N; 3%N]
         = inr routesQuotes
         /\ length routesQuotes = 3
         /\ length (concat (map snd routesQuotes)) = 7)
  /\ processQuoteResults string N sampleToFixed sampleRouteToString
       results7 ["0x01"] [1%N; 2%N; 3%N]
     = inl (mkError TypeError
              "Cannot read properties of undefined (reading 'pools')").
Proof.
  cbv zeta.
  assert ([1%N; 2%N; 3%N] <> []) as Hne by discriminate.
  split; [exact Hne|]. split; [|vm_compute; reflexivity].
  destruct (processQuoteResults string N sampleToFixed sampleRouteToString
              (repeat (ResultFail "0x") 7) ["0x01"; "0x02"; "0x03"]
              [1%N; 2%N; 3%N]) as [thrown|routesQuotes] eqn:Hret;
    [vm_compute in Hret; discriminate|].
  exists routesQuotes. split; [reflexivity|].
  destruct (processQuoteResults_records string N sampleToFixed
              sampleRouteToString (repeat (ResultFail "0x") 7)
              ["0x01"; "0x02"; "0x03"] [1%N; 2%N; 3%N]) as (_ & _ & Hrec).
  destruct (Hrec routesQuotes Hret Hne) as [Hcat Hlen].
  split; [rewrite Hlen; reflexivity|rewrite Hcat; reflexivity].
Defined.

(** Chain 5 has no entry and the override is empty: the constructor throws. *)
Lemma construction_spec_witness :
  truthyAddress (Some "") = false
  /\ truthyAddress (chainToQuoterAddress nat Nat.eqb 1 4 "0x61fF" 5) = false
  /\ exists e,
       newV3QuoteProvider nat Nat.eqb Js.show_nat 1 4 "0x61fF" 5
         (fun _ => 100%Z) steadyAggregator None None None None (Some "")
       = inl e.
Proof.
  assert (truthyAddress (Some "") = false) as H1 by reflexivity.
  assert (truthyAddress (chainToQuoterAddress nat Nat.eqb 1 4 "0x61fF" 5)
          = false) as H2 by reflexivity.
  split; [exact H1|]. split; [exact H2|].
  apply (proj1 (construction_spec nat Nat.eqb Js.show_nat 1 4 "0x61fF" 5
                  (fun _ => 100%Z) steadyAggregator None None None None
                  (Some ""))).
  split; assumption.
Defined.

(** Timeouts only: the retry metric is emitted once, and the rejection adds
    no summary metric. *)
Lemma metrics_emitted_once_witness :
  let this := sampleProvider 150 slowAggregator false in
  let loop := runAttempts string N sampleEncode sampleQuotient sampleShow
    sampleOverflow
                this [1%N; 2%N; 3%N] ["0x01"] quoteExactInput None in
  let r := getQuotesManyData string N sampleEncode sampleQuotient
             sampleShow sampleOverflow sampleToFixed sampleRouteToString
             this [1%N; 2%N; 3%N] ["0x01"] quoteExactInput None in
  (exists e, snd r = Rejected string N e)
  /\ metrics (fst r) = metrics (fst loop)
  /\ metrics (fst loop) = [QuoteTimeoutRetry].
Proof.
  cbv zeta.
  set (this := sampleProvider 150 slowAggregator false).
  destruct (metrics_emitted_once string N sampleEncode sampleQuotient
              sampleShow sampleOverflow sampleToFixed sampleRouteToString
              this [1%N; 2%N; 3%N] ["0x01"] quoteExactInput None)
    as (_ & _ & Hrej & _).
  assert (exists e,
             snd (getQuotesManyData string N sampleEncode sampleQuotient
                    sampleShow sampleOverflow sampleToFixed sampleRouteToString
                    this [1%N; 2%N; 3%N] ["0x01"] quoteExactInput
                    None) = Rejected string N e) as (e & He).
  { vm_compute. eexists. reflexivity. }
  split; [now exists e|]. split; [exact (Hrej e He)|].
  vm_compute. reflexivity.
Defined.


(** A route of one pool that crosses no tick, and one of two pools that
    crosses seven. *)
Lemma gas_use_bounds_witness :
  let r := V3Gas.mkRoute string (string * string * Z) N []
             [samplePool "USDC" 500] in
  let r' := V3Gas.mkRoute string (string * string * Z) N [2%Z; 5%Z]
              [samplePool "USDC" 500; samplePool "DAI" 900] in
  V3Gas.gasUseOf _ _ _ r = 113000%Z
  /\ (V3Gas.gasUseOf _ _ _ r <= V3Gas.gasUseOf _ _ _ r')%Z.
Proof.
  cbv zeta.
  destruct (V3GasFacts.gas_use_bounds string (string * string * Z) N
              (V3Gas.mkRoute _ _ _ [] [samplePool "USDC" 500])
              (V3Gas.mkRoute _ _ _ [2%Z; 5%Z]
                 [samplePool "USDC" 500; samplePool "DAI" 900]))
    as (_ & Hlow & _ & Hmono).
  split.
  - rewrite Hlow; [reflexivity|simpl; lia].
  - apply Hmono; simpl; lia.
Defined.

(** Two USD pools of WETH are found, at the MEDIUM and the LOW tier. *)
Lemma usd_pool_lookup_witness :
  exists p usdToken feeAmount,
    V3Gas.getHighestLiquidityUSDPool string (string * string * Z) N sampleGt
      "WETH" (Some ["USDC"; "DAI"]) "1" sampleGetPools = inr p
    /\ In usdToken ["USDC"; "DAI"]
    /\ sampleAccessor "WETH" usdToken feeAmount = Some p.
Proof.
  destruct (proj2 (V3GasFacts.usd_pool_lookup string (string * string * Z) N
                     sampleGt "WETH" (Some ["USDC"; "DAI"]) "1"
                     sampleGetPools) ["USDC"; "DAI"] eq_refl) as [_ Hacc].
  destruct (Hacc sampleAccessor eq_refl) as (_ & Hin & _ & Hret).
  destruct Hret as [p Hp].
  - vm_compute. discriminate.
  - intros a b. eexists. reflexivity.
  - destruct (Hin p Hp) as (t & fee & Ht & Hfee).
    exists p, t, fee. split; [exact Hp|]. split; [exact Ht|exact Hfee].
Defined.

(** UNI has a pool with WETH at the LOWEST tier only, which is not looked
    at. *)
Lemma eth_pool_lookup_witness :
  sampleAccessor "WETH" "UNI" LOWEST = Some (samplePool "UNI" 70)
  /\ V3Gas.getHighestLiquidityEthPool string (string * string * Z) N sampleGt
       "WETH" sampleGetPools "UNI" = inr None.
Proof.
  split; [reflexivity|].
  apply (proj1 (V3GasFacts.eth_pool_lookup string (string * string * Z) N
                  sampleGt "WETH" sampleGetPools "UNI" sampleAccessor
                  eq_refl)).
  repeat split.
Defined.

(** A model for UNI, which has no pool with WETH at the three tiers: the
    route's gas use with zero costs in UNI and in DAI. *)
Lemma gas_model_costs_witness :
  exists model,
    V3Gas.buildGasModel string String.eqb (fun t => t) (string * string * Z)
      (string * Z) sampleFromRaw samplePriceQuote N sampleGt "WETH"
      (Some ["USDC"; "DAI"]) "1" sampleGetPools 3 "UNI" = inr model
    /\ model (V3Gas.mkRoute _ _ _ [2%Z; 5%Z] [samplePool "USDC" 500])
       = inr (V3Gas.mkGasCost _ 299000 ("UNI", 0%Z) ("DAI", 0%Z)).
Proof.
  destruct (V3Gas.buildGasModel string String.eqb (fun t => t)
              (string * string * Z) (string * Z) sampleFromRaw
              samplePriceQuote N sampleGt "WETH" (Some ["USDC"; "DAI"]) "1"
              sampleGetPools 3 "UNI") as [e|model] eqn:Hb;
    [vm_compute in Hb; discriminate|].
  exists model. split; [reflexivity|].
  destruct (V3GasFacts.gas_model_costs string String.eqb (fun t => t)
              (string * string * Z) (string * Z) sampleFromRaw
              samplePriceQuote N sampleGt "WETH" (Some ["USDC"; "DAI"]) "1"
              sampleGetPools 3 "UNI" model Hb) as (_ & _ & Hzero).
  destruct (Hzero eq_refl eq_refl) as (usdPool & Husd & Hcost).
  vm_compute in Husd. injection Husd as <-.
  exact (Hcost (V3Gas.mkRoute _ _ _ [2%Z; 5%Z] [samplePool "USDC" 500])
           ("WETH", 897000%Z) ("UNI", 0%Z) ("DAI", 0%Z)
           eq_refl eq_refl eq_refl).
Defined.

(** One pair costs the base, a second one 20,000 more. *)
Lemma v2_gas_use_witness :
  let r := V2Gas.mkRoute string (string * string * Z) (string * Z)
             [samplePair "USDC" 40] in
  (100000 <= V2Gas.gasUseOf _ _ _ r)%Z
  /\ V2Gas.gasUseOf _ _ _
       (V2Gas.mkRoute _ _ _ [samplePair "DAI" 75; samplePair "USDC" 40])
     = 120000%Z.
Proof.
  cbv zeta.
  destruct (V2GasFacts.v2_gas_use string (string * string * Z) (string * Z)
              (V2Gas.mkRoute _ _ _ [samplePair "USDC" 40])
              (samplePair "DAI" 75)) as (_ & Hbase & _ & Hnext).
  split; [apply Hbase; discriminate|].
  cbn [V2Gas.pairs] in Hnext. rewrite Hnext. reflexivity.
Defined.

(** Of the pairs with USDC and DAI the one returned holds no less WETH than
    the pair with USDC. *)
Lemma v2_usd_pool_lookup_witness :
  exists p,
    V2Gas.getHighestLiquidityUSDPool string String.eqb (string * string * Z)
      (string * Z) sampleSignificant "WETH" (Some ["USDC"; "DAI"]) "1"
      samplePairs = inr p
    /\ (V2Gas.wethReserve string String.eqb (string * string * Z) (string * Z)
          sampleSignificant "WETH" (samplePair "USDC" 40)
        <= V2Gas.wethReserve string String.eqb (string * string * Z)
             (string * Z) sampleSignificant "WETH" p)%Q.
Proof.
  destruct (proj2 (V2GasFacts.v2_usd_pool_lookup string String.eqb
                     (string * string * Z) (string * Z) sampleSignificant
                     "WETH" (Some ["USDC"; "DAI"]) "1" samplePairs)
              ["USDC"; "DAI"] eq_refl) as [_ Hsome].
  destruct Hsome as (p & t & Hp & _ & _ & Hmax);
    [vm_compute; discriminate|].
  exists p. split; [exact Hp|].
  apply (Hmax "USDC" (samplePair "USDC" 40)); [now left|reflexivity].
Defined.

(** A V2 model for UNI, which has no pair with WETH. *)
Lemma v2_gas_model_costs_witness :
  exists model,
    V2Gas.buildGasModel string String.eqb (fun t => t) (string * string * Z)
      (string * Z) sampleFromRaw samplePriceQuote sampleSignificant "WETH"
      (Some ["USDC"; "DAI"]) "1" 3 samplePairs "UNI" = inr model
    /\ model (V2Gas.mkRoute _ _ _ [samplePair "USDC" 40])
       = inr (V2Gas.mkGasCost _ 100000 ("UNI", 0%Z) ("DAI", 0%Z)).
Proof.
  destruct (V2Gas.buildGasModel string String.eqb (fun t => t)
              (string * string * Z) (string * Z) sampleFromRaw
              samplePriceQuote sampleSignificant "WETH"
              (Some ["USDC"; "DAI"]) "1" 3 samplePairs "UNI")
    as [e|model] eqn:Hb; [vm_compute in Hb; discriminate|].
  exists model. split; [reflexivity|].
  destruct (proj2 (V2GasFacts.v2_gas_model_costs string String.eqb
                     (fun t => t) (string * string * Z) (string * Z)
                     sampleFromRaw samplePriceQuote sampleSignificant "WETH"
                     (Some ["USDC"; "DAI"]) "1" 3 samplePairs "UNI")
              model Hb) as (_ & _ & Hzero).
  destruct (Hzero eq_refl eq_refl) as (usdPool & Husd & Hcost).
  vm_compute in Husd. injection Husd as <-.
  exact (Hcost (V2Gas.mkRoute _ _ _ [samplePair "USDC" 40])
           ("WETH", 300000%Z) ("UNI", 0%Z) ("DAI", 0%Z)
           eq_refl eq_refl eq_refl).
Defined.

(** Two timeouts and then a missing header: the call is rejected with the
    error of the timeouts, which was thrown twice, not with the last one. *)
Lemma rejection_is_main_error_witness :
  let this := sampleProvider 150 timeoutsThenHeaderless false in
  let s0 := initialState this sampleInputs None in
  let e := mkError PlainError
             "Failed to get 1 quotes. Reasons: ProviderTimeoutError" in
  let thrown := thrownBy sampleShow sampleOverflow this quoteExactInput
                  sampleInputs 1 2 1 s0 in
  snd (retry sampleShow sampleOverflow this quoteExactInput sampleInputs
         1 2 1 s0) = Throw e
  /\ In e thrown
  /\ map message thrown
     = ["Failed to get 1 quotes. Reasons: ProviderTimeoutError";
        "Failed to get 1 quotes. Reasons: ProviderTimeoutError";
        "Failed to get 1 quotes. Reasons: ProviderBlockHeaderError"].
Proof.
  cbv zeta.
  set (this := sampleProvider 150 timeoutsThenHeaderless false).
  set (s0 := initialState this sampleInputs None).
  assert (snd (retry sampleShow sampleOverflow this quoteExactInput
                 sampleInputs 1 2 1 s0)
          = Throw (mkError PlainError
                     "Failed to get 1 quotes. Reasons: ProviderTimeoutError"))
    as Hthrow by (vm_compute; reflexivity).
  split; [exact Hthrow|]. split; [|vm_compute; reflexivity].
  exact (proj1 (proj2 (rejection_is_main_error sampleShow sampleOverflow this
                         quoteExactInput sampleInputs 1 2 1 s0) _ Hthrow)).
Defined.

(** The first call runs out of gas: three attempts at most, and the batches
    still make up the three inputs. *)
Lemma batches_cover_inputs_witness :
  let this := sampleProvider 2 gasThenSteady false in
  let inputs := encodeInputs string N sampleEncode sampleQuotient
                  [1%N; 2%N; 3%N] ["0x01"] quoteExactInput in
  let s0 := initialState this inputs None in
  let s := fst (retry sampleShow sampleOverflow this quoteExactInput inputs
                  (length (quoteStates s0)) 2 1 s0) in
  0 < bp_multicallChunk (batchParams this)
  /\ 0 < ov_multicallChunk (successRateFailureOverrides this)
  /\ concat (map inputsOf (quoteStates s)) = inputs.
Proof.
  cbv zeta.
  assert (0 < bp_multicallChunk
                (batchParams (sampleProvider 2 gasThenSteady false))) as H1
      by (simpl; lia).
  assert (0 < ov_multicallChunk
                (successRateFailureOverrides
                   (sampleProvider 2 gasThenSteady false))) as H2
      by (simpl; lia).
  split; [exact H1|]. split; [exact H2|].
  exact (proj2 (proj2 (batches_cover_inputs string N sampleEncode
                         sampleQuotient sampleShow sampleOverflow
                         (sampleProvider 2 gasThenSteady false)
                         [1%N; 2%N; 3%N] ["0x01"] quoteExactInput None 2))
           H1 H2).
Defined.
